(** * ElegantRL-ray [agent.py]: a shallow embedding and its checked properties

    The agents of [elegantrl/AgentZoo/ElegantRL-ray/agent.py] are Python
    classes that mutate networks in place, raise exceptions and talk to
    collaborators that live outside the file (the networks of
    [ray_elegantrl.net], the replay buffer, torch and numpy).  The embedding
    keeps that shape:

    - scalars are exact rationals [Qc] (the idealisation of torch's float32:
      no rounding, no NaN, no infinities);
    - parameter tensors live in a heap indexed by object identity, so that two
      names bound to one network alias each other and a [deepcopy] does not;
    - the attributes of [self] are a dictionary from names to dynamically
      typed values, as in Python;
    - a method is a computation in a state-and-exception monad: a raised
      exception keeps the mutations made before it;
    - what the file imports and does not define (network classes, buffer
      sampling, the optimiser's arithmetic, random draws, [log] and [sqrt])
      is a record of functions, [externals], over which every statement is
      quantified.  *)

From Stdlib Require Import QArith Qcanon Qcabs.
From stdpp Require Import numbers gmap strings list.

Local Open Scope Qc_scope.
(* [[x]] is a one-element list, not an absolute value *)
Local Open Scope list_scope.

(** * Part I: the embedding *)

(** ** Python exceptions and the monad of methods *)

Inductive exn :=
  | TypeError
  | AttributeError
  | ValueError
  | IndexError
  | KeyError
  | RuntimeError
  | ZeroDivisionError
  | FileNotFoundError.

#[global] Instance exn_eq_dec : EqDecision exn.
Proof. solve_decision. Defined.

Inductive outcome (A : Type) :=
  | Return (a : A)
  | Raise (e : exn).
Arguments Return {A} a.
Arguments Raise {A} e.

#[global] Instance outcome_eq_dec {A} `{EqDecision A} : EqDecision (outcome A).
Proof. solve_decision. Defined.

(** Exceptions alone, for pure code that may raise. *)
#[global] Instance outcome_ret : MRet outcome := λ A a, Return a.
#[global] Instance outcome_bind : MBind outcome := λ A B f m,
  match m with
  | Return a => f a
  | Raise e => Raise e
  end.

#[global] Instance outcome_fmap : FMap outcome := λ A B f m,
  match m with
  | Return a => Return (f a)
  | Raise e => Raise e
  end.

(** A computation over a state [S]: the final state is returned on both
    outcomes. *)
Definition M (S A : Type) : Type := S → outcome A * S.

#[global] Instance M_ret {S} : MRet (M S) := λ A a s, (Return a, s).
#[global] Instance M_bind {S} : MBind (M S) := λ A B f m s,
  match m s with
  | (Return a, s') => f a s'
  | (Raise e, s') => (Raise e, s')
  end.

Definition raise {S A} (e : exn) : M S A := λ s, (Raise e, s).
Definition modify {S} (f : S → S) : M S unit := λ s, (Return (), f s).
Definition reads {S A} (f : S → A) : M S A := λ s, (Return (f s), s).

(** A pure step that may raise. *)
Definition lift {S A} (o : outcome A) : M S A := λ s, (o, s).

(** [for x in xs: body x] *)
Fixpoint for_each {S A} (xs : list A) (body : A → M S unit) : M S unit :=
  match xs with
  | [] => mret ()
  | x :: xs' => body x;; for_each xs' body
  end.

(** The same loop when the body rebinds local variables, carried in [acc]. *)
Fixpoint for_loop {S A L} (xs : list A) (acc : L) (body : A → L → M S L)
  : M S L :=
  match xs with
  | [] => mret acc
  | x :: xs' => acc' ← body x acc; for_loop xs' acc' body
  end.

(** ** Python integers *)

(** [range(n)] *)
Definition py_range (n : Z) : list Z := Z.of_nat <$> seq 0 (Z.to_nat n).

(** [int(q)]: truncation towards zero. *)
Definition py_int (q : Qc) : Z := Z.quot (Qnum q) (Zpos (Qden q)).

(** [i % m]: the sign of the result follows the divisor, as [Z.modulo] does;
    a zero divisor raises. *)
Definition py_mod (i m : Z) : outcome Z :=
  if decide (m = 0%Z) then Raise ZeroDivisionError else Return (i mod m)%Z.

(** ** Scalars and tensors *)

(** Decimal literals of the source, as exact rationals. *)
Definition dec (q : Q) : Qc := Q2Qc q.

Definition Qc_of_nat (n : nat) : Qc := Qc_of_Z (Z.of_nat n).

#[global] Instance Qc_inhabited : Inhabited Qc := populate 0.

Definition Qcmin (x y : Qc) : Qc := if decide (x ≤ y) then x else y.
Definition Qcmax (x y : Qc) : Qc := if decide (x ≤ y) then y else x.

(** A one-dimensional tensor; parameter tensors are flattened to one. *)
Abbreviation tensor := (list Qc).

(** A two-dimensional tensor, by rows: one row per sample of a batch.  A
    tensor of shape [(B, 1)] has one-element rows; a zero-dimensional tensor
    (the result of [.mean()]) is a single one-element row. *)
Abbreviation batch := (list (list Qc)).

(** [t.__mul__(c)] for a Python number [c]. *)
Definition tensor_mul_scalar (t : tensor) (c : Qc) : tensor :=
  (λ x, x * c) <$> t.

(** Elementwise binary operation with torch's broadcasting rule in one
    dimension: equal sizes go pointwise, a one-element tensor is stretched, any
    other pair of sizes raises [RuntimeError]. *)
Definition broadcast (f : Qc → Qc → Qc) (a b : tensor) : outcome tensor :=
  if decide (length a = length b) then Return (zip_with f a b)
  else match a, b with
       | x :: [], _ => Return (f x <$> b)
       | _, y :: [] => Return ((λ x, f x y) <$> a)
       | _, _ => Raise RuntimeError
       end.

Definition tensor_add : tensor → tensor → outcome tensor := broadcast Qcplus.
Definition tensor_sub : tensor → tensor → outcome tensor := broadcast Qcminus.
Definition tensor_mul : tensor → tensor → outcome tensor := broadcast Qcmult.
Definition tensor_div : tensor → tensor → outcome tensor := broadcast Qcdiv.

(** The same rule on the rows of two-dimensional tensors, then inside rows. *)
Definition broadcast2 (f : Qc → Qc → Qc) (a b : batch) : outcome batch :=
  if decide (length a = length b)
  then mapM (λ p : tensor * tensor, broadcast f p.1 p.2) (zip a b)
  else match a, b with
       | ra :: [], _ => mapM (λ rb, broadcast f ra rb) b
       | _, rb :: [] => mapM (λ ra, broadcast f ra rb) a
       | _, _ => Raise RuntimeError
       end.

Definition batch_add : batch → batch → outcome batch := broadcast2 Qcplus.
Definition batch_sub : batch → batch → outcome batch := broadcast2 Qcminus.
Definition batch_mul : batch → batch → outcome batch := broadcast2 Qcmult.

(** [torch.min(a, b)], elementwise. *)
Definition batch_min : batch → batch → outcome batch := broadcast2 Qcmin.

Definition batch_map (f : Qc → Qc) (a : batch) : batch :=
  (λ r : tensor, f <$> r) <$> a.

(** [a.abs()] and [-a] *)
Definition batch_abs : batch → batch := batch_map Qcabs.
Definition batch_neg : batch → batch := batch_map Qcopp.

Definition sum_list (l : list Qc) : Qc := foldr Qcplus 0 l.

(** The mean of a list.  torch returns NaN for an empty tensor; division by
    zero gives 0 here. *)
Definition mean_list (l : list Qc) : Qc := sum_list l / Qc_of_nat (length l).

(** [a.mean()]: a zero-dimensional tensor. *)
Definition batch_mean (a : batch) : batch :=
  [[mean_list (concat a)]]%list.

(** [a.max(dim=1, keepdim=True)[0]]: the largest entry of each row; a row
    without entries raises. *)
Definition row_max (r : tensor) : outcome tensor :=
  match r with
  | [] => Raise IndexError
  | x :: r' => Return [foldr Qcmax x r']%list
  end.
Definition batch_max_dim1 (a : batch) : outcome batch := mapM row_max a.

(** [a.type(torch.long)] *)
Definition batch_long (a : batch) : list (list Z) :=
  (λ r : tensor, py_int <$> r) <$> a.

(** [a.gather(1, index)]: entry [index[i][j]] of row [i]; an index outside
    the row, or more index rows than rows, raises. *)
Definition gather_row (r : tensor) (ix : list Z) : outcome tensor :=
  mapM (λ j : Z,
          if decide (0 ≤ j)%Z
          then match r !! Z.to_nat j with
               | Some x => Return x
               | None => Raise RuntimeError
               end
          else Raise RuntimeError) ix.
Definition gather1 (a : batch) (index : list (list Z)) : outcome batch :=
  if decide (length index ≤ length a)%nat
  then mapM (λ p : tensor * list Z, gather_row p.1 p.2) (zip a index)
  else Raise RuntimeError.

(** [t.item()]: only a tensor with one element converts to a number. *)
Definition item (a : option batch) : outcome Qc :=
  match a with
  | None => Raise AttributeError
  | Some a => match concat a with
              | x :: [] => Return x
              | _ => Raise RuntimeError
              end
  end.

(** *** Loss functions *)

Inductive reduction := red_none | red_mean.

Inductive loss_fn :=
  | MSELoss (r : reduction)
  | SmoothL1Loss (r : reduction).

#[global] Instance reduction_eq_dec : EqDecision reduction.
Proof. solve_decision. Defined.
#[global] Instance loss_fn_eq_dec : EqDecision loss_fn.
Proof. solve_decision. Defined.

Definition mse (x y : Qc) : Qc := (x - y) * (x - y).

(** [SmoothL1Loss] with its default [beta = 1]. *)
Definition smooth_l1 (x y : Qc) : Qc :=
  if decide (Qcabs (x - y) < 1)
  then dec 0.5 * (x - y) * (x - y)
  else Qcabs (x - y) - dec 0.5.

Definition reduce (r : reduction) (a : batch) : batch :=
  match r with
  | red_none => a
  | red_mean => batch_mean a
  end.

Definition apply_loss (l : loss_fn) (input target : batch) : outcome batch :=
  match l with
  | MSELoss r => reduce r <$> broadcast2 mse input target
  | SmoothL1Loss r => reduce r <$> broadcast2 smooth_l1 input target
  end.

(** ** The heap of parameter tensors *)

Definition loc := nat.

(** An identity that was never allocated reads as the empty tensor. *)
Abbreviation heap := (gmap loc tensor).

Definition read (l : loc) : M heap tensor := reads (λ h, h !!! l).

(** [dst.copy_(src)]: [src] must have the size of [dst] or one element. *)
Definition copy_ (dst : loc) (src : tensor) : M heap unit := λ h,
  if decide (length src = length (h !!! dst)) then (Return (), <[dst := src]> h)
  else match src with
       | x :: [] => (Return (), <[dst := replicate (length (h !!! dst)) x]> h)
       | _ => (Raise RuntimeError, h)
       end.

(** A new tensor object. *)
Definition alloc (t : tensor) : M heap loc := λ h,
  let l := fresh (dom h) in (Return l, <[l := t]> h).

Fixpoint alloc_all (ts : list tensor) : M heap (list loc) :=
  match ts with
  | [] => mret []
  | t :: ts' => l ← alloc t; ls ← alloc_all ts'; mret (l :: ls)
  end.

(** ** Objects of the collaborators *)

(** The classes of [ray_elegantrl.net].  A network object is known by its
    class and by the identities of its parameter tensors, in the order of
    [parameters()]. *)
Inductive net_class :=
  | QNet | QNetDuel | QNetTwin | QNetTwinDuel
  | Actor | ActorSAC | ActorPPO | ActorMPO
  | Critic | CriticAdv | CriticTwin.

Record network := Net {
  net_class_of : net_class;
  net_params : list loc;
}.

(** [torch.optim.Adam(params, lr)] *)
Record optimizer := Adam {
  opt_params : list loc;
  opt_lr : Qc;
}.

(** The attributes of an [OrnsteinUhlenbeckNoise] object.  [ou_noise] starts
    as the float [0.0], a one-element tensor here. *)
Record OrnsteinUhlenbeckNoise := OUNoise {
  ou_size : nat;
  ou_theta : Qc;
  ou_sigma : Qc;
  ou_noise : tensor;
  ou_dt : Qc;
}.

#[global] Instance net_class_eq_dec : EqDecision net_class.
Proof. solve_decision. Defined.
#[global] Instance network_eq_dec : EqDecision network.
Proof. solve_decision. Defined.
#[global] Instance optimizer_eq_dec : EqDecision optimizer.
Proof. solve_decision. Defined.
#[global] Instance OrnsteinUhlenbeckNoise_eq_dec : EqDecision OrnsteinUhlenbeckNoise.
Proof. solve_decision. Defined.

(** [net.state_dict()]: the current values of the parameters, in order. *)
Definition state_dict (n : network) (h : heap) : list tensor :=
  (λ l, h !!! l) <$> net_params n.

(** ** Python values and the world *)

Inductive value :=
  | VNone
  | VBool (b : bool)
  | VInt (n : Z)
  | VFloat (q : Qc)
  | VNet (n : network)
  | VOptim (o : optimizer)
  | VLoss (l : loss_fn)
  | VMethod (name : string)      (* a bound method of [self] *)
  | VNoise (o : OrnsteinUhlenbeckNoise)
  | VModule (name : string)      (* a torch object the model never looks into *)
  | VDict (d : gmap string Qc).

#[global] Instance value_eq_dec : EqDecision value.
Proof. solve_decision. Defined.

(** What a method does to the outside, in order.  The trace is the only
    instrumentation of the model: the source has no such log. *)
Inductive event :=
  | EvPrint (line : string)
  | EvOptimStep (attr : string)
      (* [self.<attr>.step()] *)
  | EvSoftUpdate (target current : string)
      (* [self.soft_update(self.<target>, self.<current>, ...)] *)
  | EvTdErrorUpdate (td_error : batch).
      (* [buffer.td_error_update(td_error)] *)

#[global] Instance event_eq_dec : EqDecision event.
Proof. solve_decision. Defined.

Record world := World {
  w_self : gmap string value;         (* the attributes of [self] *)
  w_heap : heap;                      (* parameter tensors *)
  w_files : gmap string (list tensor);(* checkpoint files, by path *)
  w_rng : nat;                        (* state of the random generators *)
  w_trace : list event;               (* latest event last *)
}.

#[global] Instance world_eq_dec : EqDecision world.
Proof. solve_decision. Defined.

Definition set_self (f : gmap string value → gmap string value) (w : world) :=
  World (f (w_self w)) (w_heap w) (w_files w) (w_rng w) (w_trace w).
Definition set_heap (f : heap → heap) (w : world) :=
  World (w_self w) (f (w_heap w)) (w_files w) (w_rng w) (w_trace w).
Definition set_files
    (f : gmap string (list tensor) → gmap string (list tensor)) (w : world) :=
  World (w_self w) (w_heap w) (f (w_files w)) (w_rng w) (w_trace w).
Definition set_rng (f : nat → nat) (w : world) :=
  World (w_self w) (w_heap w) (w_files w) (f (w_rng w)) (w_trace w).
Definition set_trace (f : list event → list event) (w : world) :=
  World (w_self w) (w_heap w) (w_files w) (w_rng w) (f (w_trace w)).

(** Run a heap computation in the world. *)
Definition on_heap {A} (c : M heap A) : M world A := λ w,
  let '(r, h') := c (w_heap w) in (r, set_heap (λ _, h') w).

Definition emit (e : event) : M world unit :=
  modify (set_trace (λ t, t ++ [e])).

(** [self.<name>] and [self.<name> = v] *)
Definition getattr (name : string) : M world value := λ w,
  match w_self w !! name with
  | Some v => (Return v, w)
  | None => (Raise AttributeError, w)
  end.
Definition setattr (name : string) (v : value) : M world unit :=
  modify (set_self (<[name := v]>)).

(** [print(line)] *)
Definition print (line : string) : M world unit := emit (EvPrint line).

(** A number where Python arithmetic needs one. *)
Definition as_float {S} (v : value) : M S Qc :=
  match v with
  | VFloat q => mret q
  | VInt n => mret (Qc_of_Z n)
  | VBool b => mret (if b then 1 else 0)
  | _ => raise TypeError
  end.

Definition as_int {S} (v : value) : M S Z :=
  match v with
  | VInt n => mret n
  | VBool b => mret (if b then 1%Z else 0%Z)
  | _ => raise TypeError
  end.

(** [d[key]] on the [args] dictionary of a constructor. *)
Definition dict_item {S} (d : gmap string value) (key : string) : M S value :=
  match d !! key with
  | Some v => mret v
  | None => raise KeyError
  end.

(** [net.parameters()] on a value that may still be [None]. *)
Definition parameters {S} (net : value) : M S (list loc) :=
  match net with
  | VNet n => mret (net_params n)
  | _ => raise AttributeError
  end.

(** [deepcopy(v)]: a network gets new parameter tensors with the same
    contents; the other values are immutable here. *)
Definition deepcopy (v : value) : M world value :=
  match v with
  | VNet n =>
      ls ← on_heap (vals ← reads (state_dict n); alloc_all vals);
      mret (VNet (Net (net_class_of n) ls))
  | _ => mret v
  end.

(** ** What the file imports and does not define *)

(** An argument of a network method: a tensor or a Python number. *)
Inductive arg :=
  | ATensor (a : batch)
  | ANum (q : Qc).

Record externals := Externals {
  (** initial parameter values of [cls(dims)], from the generator state *)
  net_init : net_class → list nat → nat → list tensor;
  (** [net.<method>(args)] from the class, the method name, the current
      parameter values and the generator state; the result is a tuple of
      tensors, and the call may raise *)
  net_apply : net_class → string → list tensor → nat → list arg
              → outcome (list batch);
  (** the tuple [buffer.sample_batch(batch_size)] returns *)
  sample_batch : nat → Z → list batch;
  (** the new values [optimizer.step()] gives to the optimiser's parameters;
      the gradients are a function of the heap and of hidden autograd state *)
  adam_step : optimizer → heap → nat → list tensor;
  (** [rd.normal(size=n)] *)
  rd_normal : nat → nat → tensor;
  (** [torch.log], [np.sqrt] *)
  torch_log : Qc → Qc;
  np_sqrt : Qc → Qc;
  (** the content of [torch.empty] at a row and a column: whatever the
      memory held *)
  torch_empty : nat → nat → Qc;
}.

Section primitives.
Context (E : externals).

(** [cls(dims)]: a new network with its own parameter tensors. *)
Definition construct (cls : net_class) (dims : list nat) : M world network :=
  seed ← reads w_rng;
  modify (set_rng S);;
  ls ← on_heap (alloc_all (net_init E cls dims seed));
  mret (Net cls ls).

(** [obj.<method>(args)] on a network object. *)
Definition call_method (obj : value) (method : string) (args : list arg)
  : M world (list batch) :=
  match obj with
  | VNet n =>
      seed ← reads w_rng;
      modify (set_rng S);;
      vals ← reads (λ w, state_dict n (w_heap w));
      lift (net_apply E (net_class_of n) method vals seed args)
  | _ => raise AttributeError
  end.

(** [obj(args)]: [forward] for a network; [None] and numbers are not
    callable. *)
Definition call (obj : value) (args : list arg) : M world (list batch) :=
  match obj with
  | VNet n => call_method obj "forward" args
  | _ => raise TypeError
  end.

(** [buffer.sample_batch(batch_size)] *)
Definition buffer_sample_batch (batch_size : Z) : M world (list batch) :=
  seed ← reads w_rng;
  modify (set_rng S);;
  mret (sample_batch E seed batch_size).

(** [buffer.update_now_len_before_sample()]: bookkeeping inside the buffer,
    which the agent cannot see. *)
Definition buffer_update_now_len_before_sample : M world unit := mret ().

(** [buffer.td_error_update(td_error)] *)
Definition buffer_td_error_update (td_error : batch) : M world unit :=
  emit (EvTdErrorUpdate td_error).

(** [self.<attr>.zero_grad()] and [obj.backward()]: gradient buffers are not
    part of the model, [adam_step] stands for their effect. *)
Definition zero_grad (attr : string) : M world unit :=
  o ← getattr attr;
  match o with
  | VOptim _ => mret ()
  | _ => raise AttributeError
  end.
Definition backward (obj : batch) : M world unit := mret ().

(** [self.<attr>.step()]: the optimiser rewrites its own parameters. *)
Definition optimizer_step (attr : string) : M world unit :=
  o ← getattr attr;
  match o with
  | VOptim o =>
      seed ← reads w_rng;
      modify (set_rng S);;
      modify (λ w, set_heap (λ h,
        foldr (λ p : loc * tensor, <[p.1 := p.2]>) h
              (zip (opt_params o) (adam_step E o h seed))) w);;
      emit (EvOptimStep attr)
  | _ => raise AttributeError
  end.

End primitives.

(** A function result used as one tensor, or unpacked into a tuple. *)
Definition unpack1 {S} (r : list batch) : M S batch :=
  match r with
  | a :: [] => mret a
  | _ => raise TypeError
  end.
Definition unpack2 {S} (r : list batch) : M S (batch * batch) :=
  match r with
  | a :: b :: [] => mret (a, b)
  | _ => raise ValueError
  end.
Definition unpack5 {S} (r : list batch)
  : M S (batch * batch * batch * batch * batch) :=
  match r with
  | a :: b :: c :: d :: e :: [] => mret (a, b, c, d, e)
  | _ => raise ValueError
  end.
Definition unpack6 {S} (r : list batch)
  : M S (batch * batch * batch * batch * batch * batch) :=
  match r with
  | a :: b :: c :: d :: e :: f :: [] => mret (a, b, c, d, e, f)
  | _ => raise ValueError
  end.

(** [self.criterion(input, target)] *)
Definition call_criterion (input target : batch) : M world batch :=
  c ← getattr "criterion";
  match c with
  | VLoss l => lift (apply_loss l input target)
  | _ => raise TypeError
  end.

(** ** Rollouts

    [explore_env] works on the agent, an environment and the storage of the
    buffer.  [self.state] is an array and is kept beside the world; an entry
    of the buffer is the pair [(state, other)] that [append_buffer]
    received. *)
Record rollout (env : Type) := Rollout {
  ro_world : world;
  ro_state : tensor;
  ro_env : env;
  ro_buffer : list (tensor * tensor);
}.
Arguments Rollout {env} _ _ _ _.
Arguments ro_world {env} _.
Arguments ro_state {env} _.
Arguments ro_env {env} _.
Arguments ro_buffer {env} _.

(** Run an agent method in the world of a rollout. *)
Definition in_world {env A} (c : M world A) : M (rollout env) A := λ ro,
  let '(r, w') := c (ro_world ro) in
  (r, Rollout w' (ro_state ro) (ro_env ro) (ro_buffer ro)).

(** ** [class AgentBase] *)

Module AgentBase.
Section methods.
Context (E : externals).

(** [__init__(self, args=None)] *)
Definition __init__ (args : option (gmap string value)) : M world unit :=
  lr ← match args with
       | None => mret (VFloat (dec 1e-4))
       | Some d => dict_item d "learning_rate"
       end;
  setattr "learning_rate" lr;;
  tau ← match args with
        | None => mret (VFloat (dec (1 # 256)))       (* 2 ** -8 *)
        | Some d => dict_item d "soft_update_tau"
        end;
  setattr "soft_update_tau" tau;;
  setattr "state" VNone;;
  setattr "device" VNone;;
  setattr "act" VNone;; setattr "act_target" VNone;;
  setattr "cri" VNone;; setattr "cri_target" VNone;;
  setattr "act_optimizer" VNone;;
  setattr "cri_optimizer" VNone;;
  setattr "criterion" VNone;;
  setattr "get_obj_critic" VNone;;
  setattr "train_record" (VDict ∅).

(** [explore_env(self, env, buffer, target_step, reward_scale, gamma)].  The
    environment is a state with its two functions: [env_step] answers
    [(next_s, reward, done)] (the fourth component is dropped by the
    source) and [env_reset] the first state of a new episode.
    [select_action] is the method of the class of the agent. *)
Section explore.
Context {env : Type}.
Context (env_step : env → tensor → (tensor * Qc * bool) * env).
Context (env_reset : env → tensor * env).
Context (select_action : tensor → M world tensor).

Definition explore_env_body (reward_scale gamma : Qc) (_ : Z)
  : M (rollout env) unit :=
  state ← reads ro_state;
  action ← in_world (select_action state);
  e ← reads ro_env;
  let '(next_s, reward, done, e') := env_step e action in
  modify (λ ro, Rollout (ro_world ro) (ro_state ro) e' (ro_buffer ro));;
  let other :=
    reward * reward_scale :: (if done : bool then 0 else gamma) :: action in
  state ← reads ro_state;
  modify (λ ro, Rollout (ro_world ro) (ro_state ro) (ro_env ro)
                        (ro_buffer ro ++ [(state, other)]));;
  if done : bool then
    e ← reads ro_env;
    let '(s0, e') := env_reset e in
    modify (λ ro, Rollout (ro_world ro) s0 e' (ro_buffer ro))
  else
    modify (λ ro, Rollout (ro_world ro) next_s (ro_env ro) (ro_buffer ro)).

Definition explore_env (target_step : Z) (reward_scale gamma : Qc)
  : M (rollout env) Z :=
  for_each (py_range target_step) (explore_env_body reward_scale gamma);;
  mret target_step.

End explore.


(** [torch.save(net.state_dict(), path)] *)
Definition torch_save (net : value) (path : string) : M world unit :=
  match net with
  | VNet n =>
      modify (λ w, set_files (<[path := state_dict n (w_heap w)]>) w)
  | _ => raise AttributeError
  end.

(** [os.path.exists(path)] *)
Definition path_exists (path : string) : M world bool :=
  reads (λ w, bool_decide (is_Some (w_files w !! path))).

(** [torch.load(path, ...)] *)
Definition torch_load (path : string) : M world (list tensor) := λ w,
  match w_files w !! path with
  | Some d => (Return d, w)
  | None => (Raise FileNotFoundError, w)
  end.

(** [network.load_state_dict(network_dict)]: every tensor of the file must
    have the size of the parameter it replaces. *)
Definition load_state_dict (net : value) (network_dict : list tensor)
  : M world unit :=
  match net with
  | VNet n =>
      on_heap (λ h,
        if decide (Forall2 (λ l t, length (h !!! l) = length t)
                           (net_params n) network_dict)
        then (Return (),
              foldr (λ p : loc * tensor, <[p.1 := p.2]>) h
                    (zip (net_params n) network_dict))
        else (Raise RuntimeError, h))
  | _ => raise AttributeError
  end.

(** The local function [load_torch_file(network, save_path)] *)
Definition load_torch_file (net : value) (save_path : string) : M world unit :=
  network_dict ← torch_load save_path;
  load_state_dict net network_dict.

Definition save_load_model (cwd : string) (if_save : bool) : M world unit :=
  let act_save_path := cwd +:+ "/actor.pth" in
  let cri_save_path := cwd +:+ "/critic.pth" in
  if if_save then
    act ← getattr "act";
    (if decide (act ≠ VNone) then torch_save act act_save_path else mret ());;
    cri ← getattr "cri";
    (if decide (cri ≠ VNone) then torch_save cri cri_save_path else mret ())
  else
    act ← getattr "act";
    act_exists ← path_exists act_save_path;
    if bool_decide (act ≠ VNone) && act_exists then
      load_torch_file act act_save_path;;
      print ("Loaded act: " +:+ cwd)
    else
      cri ← getattr "cri";
      cri_exists ← path_exists cri_save_path;
      if bool_decide (cri ≠ VNone) && cri_exists then
        load_torch_file cri cri_save_path;;
        print ("Loaded cri: " +:+ cwd)
      else
        print ("FileNotFound when load_model: " +:+ cwd).

(** The body of the loop of [soft_update], for one pair [(tar, cur)] of the
    [zip]. *)
Definition soft_update_step (tau : Qc) (p : loc * loc) : M heap unit :=
  let '(tar, cur) := p in
  cur_data ← read cur;
  tar_data ← read tar;
  mixed ← lift (tensor_add (tensor_mul_scalar cur_data tau)
                            (tensor_mul_scalar tar_data (1 - tau)));
  copy_ tar mixed.

(** The static method [soft_update(target_net, current_net, tau)] *)
Definition soft_update (target_net current_net : value) (tau : Qc)
  : M heap unit :=
  tars ← parameters target_net;
  curs ← parameters current_net;
  for_each (zip tars curs) (soft_update_step tau).

(** [self.soft_update(self.<target>, self.<current>, self.soft_update_tau)],
    the only way the agents call it. *)
Definition self_soft_update (target current : string) : M world unit :=
  target_net ← getattr target;
  current_net ← getattr current;
  tau ← getattr "soft_update_tau";
  tau ← as_float tau;
  emit (EvSoftUpdate target current);;
  on_heap (soft_update target_net current_net tau).

(** [update_record(self, **kwargs)] *)
Definition update_record (kwargs : list (string * Qc)) : M world unit :=
  r ← getattr "train_record";
  match r with
  | VDict d => setattr "train_record" (VDict (list_to_map kwargs ∪ d))
  | _ => raise AttributeError
  end.

End methods.
End AgentBase.

(** ** [class AgentDQN(AgentBase)] *)

Module AgentDQN.
Section methods.
Context (E : externals).

Definition __init__ : M world unit :=
  AgentBase.__init__ None;;
  setattr "explore_rate" (VFloat (dec 0.1));;
  setattr "action_dim" VNone.

Definition init (net_dim state_dim action_dim : nat) (if_per : bool)
  : M world unit :=
  setattr "action_dim" (VInt (Z.of_nat action_dim));;
  setattr "device" (VModule "device");;
  cri ← construct E QNet [net_dim; state_dim; action_dim];
  setattr "cri" (VNet cri);;
  cri ← getattr "cri";
  cri_target ← deepcopy cri;
  setattr "cri_target" cri_target;;
  cri ← getattr "cri";
  params ← parameters cri;
  lr ← getattr "learning_rate";
  lr ← as_float lr;
  setattr "cri_optimizer" (VOptim (Adam params lr));;
  cri ← getattr "cri";
  setattr "act" cri;;
  setattr "criterion"
    (VLoss (MSELoss (if if_per then red_none else red_mean)));;
  if if_per
  then setattr "get_obj_critic" (VMethod "get_obj_critic_per")
  else setattr "get_obj_critic" (VMethod "get_obj_critic_raw").

Definition get_obj_critic_raw (batch_size : Z) : M world (batch * batch) :=
  s ← buffer_sample_batch E batch_size;
  '(reward, mask, action, state, next_s) ← unpack5 s;
  cri_target ← getattr "cri_target";
  act_target ← getattr "act_target";
  next_a ← call E act_target [ATensor next_s];
  next_a ← unpack1 next_a;
  next_q ← call E cri_target [ATensor next_s; ATensor next_a];
  next_q ← unpack1 next_q;
  q_label ← lift (m ← batch_mul mask next_q; batch_add reward m);
  cri ← getattr "cri";
  q ← call E cri [ATensor state];
  q ← unpack1 q;
  q_value ← lift (gather1 q (batch_long action));
  obj_critic ← call_criterion q_value q_label;
  mret (obj_critic, q_value).

Definition get_obj_critic_per (batch_size : Z) : M world (batch * batch) :=
  s ← buffer_sample_batch E batch_size;
  '(reward, mask, action, state, next_s, is_weights) ← unpack6 s;
  cri_target ← getattr "cri_target";
  act_target ← getattr "act_target";
  next_a ← call E act_target [ATensor next_s];
  next_a ← unpack1 next_a;
  next_q ← call E cri_target [ATensor next_s; ATensor next_a];
  next_q ← unpack1 next_q;
  q_label ← lift (m ← batch_mul mask next_q; batch_add reward m);
  cri ← getattr "cri";
  q ← call E cri [ATensor state];
  q ← unpack1 q;
  q_value ← lift (gather1 q (batch_long action));
  loss ← call_criterion q_value q_label;
  weighted ← lift (batch_mul loss is_weights);
  mret (batch_mean weighted, q_value).

(** [self.get_obj_critic(buffer, batch_size)]: the method bound by [init]. *)
Definition get_obj_critic (batch_size : Z) : M world (batch * batch) :=
  m ← getattr "get_obj_critic";
  match m with
  | VMethod "get_obj_critic_raw" => get_obj_critic_raw batch_size
  | VMethod "get_obj_critic_per" => get_obj_critic_per batch_size
  | _ => raise TypeError
  end.

(** [q_value.mean().item()] on a local that may still be [None]. *)
Definition mean_item (a : option batch) : outcome Qc :=
  match a with
  | None => Raise AttributeError
  | Some a => item (Some (batch_mean a))
  end.

(** One turn of the loop of [update_net]; the locals [q_value] and
    [obj_critic] are rebound.  [get_obj_critic] is the method that
    [self.get_obj_critic] resolves to in the class of the agent. *)
Definition update_net_body
    (get_obj_critic : Z → M world (batch * batch)) (batch_size : Z) (i : Z)
    (locals : option batch * option batch)
  : M world (option batch * option batch) :=
  '(obj_critic, q_value) ← get_obj_critic batch_size;
  zero_grad "cri_optimizer";;
  backward obj_critic;;
  optimizer_step E "cri_optimizer";;
  AgentBase.self_soft_update "cri_target" "cri";;
  mret (Some q_value, Some obj_critic).

(** [update_net], as the subclasses inherit it. *)
Definition update_net_inherited
    (get_obj_critic : Z → M world (batch * batch))
    (target_step : Z) (batch_size : Z) (repeat_times : Qc) : M world value :=
  buffer_update_now_len_before_sample;;
  '(q_value, obj_critic) ←
    for_loop (py_range (py_int (Qc_of_Z target_step * repeat_times)))
             (None, None) (update_net_body get_obj_critic batch_size);
  obj_a ← lift (mean_item q_value);
  obj_c ← lift (item obj_critic);
  AgentBase.update_record [("obj_a"%string, obj_a); ("obj_c"%string, obj_c)];;
  getattr "train_record".

Definition update_net : Z → Z → Qc → M world value :=
  update_net_inherited get_obj_critic.

End methods.
End AgentDQN.

(** ** [class AgentDuelingDQN(AgentDQN)] *)

Module AgentDuelingDQN.
Section methods.
Context (E : externals).

Definition __init__ : M world unit :=
  AgentDQN.__init__;;
  setattr "explore_rate" (VFloat (dec 0.25)).

Definition init (net_dim state_dim action_dim : nat) (if_per : bool)
  : M world unit :=
  setattr "action_dim" (VInt (Z.of_nat action_dim));;
  setattr "device" (VModule "device");;
  cri ← construct E QNetDuel [net_dim; state_dim; action_dim];
  setattr "cri" (VNet cri);;
  cri ← getattr "cri";
  cri_target ← deepcopy cri;
  setattr "cri_target" cri_target;;
  cri ← getattr "cri";
  setattr "act" cri;;
  cri ← getattr "cri";
  params ← parameters cri;
  lr ← getattr "learning_rate";
  lr ← as_float lr;
  setattr "cri_optimizer" (VOptim (Adam params lr));;
  setattr "criterion"
    (VLoss (MSELoss (if if_per then red_none else red_mean)));;
  if if_per
  then setattr "get_obj_critic" (VMethod "get_obj_critic_per")
  else setattr "get_obj_critic" (VMethod "get_obj_critic_raw").

End methods.
End AgentDuelingDQN.

(** ** [class AgentDoubleDQN(AgentDQN)] *)

Module AgentDoubleDQN.
Section methods.
Context (E : externals).

Definition __init__ : M world unit :=
  AgentDQN.__init__;;
  setattr "explore_rate" (VFloat (dec 0.25));;
  setattr "softmax" (VModule "Softmax").

Definition init (net_dim state_dim action_dim : nat) (if_per : bool)
  : M world unit :=
  setattr "action_dim" (VInt (Z.of_nat action_dim));;
  setattr "device" (VModule "device");;
  cri ← construct E QNetTwin [net_dim; state_dim; action_dim];
  setattr "cri" (VNet cri);;
  cri ← getattr "cri";
  cri_target ← deepcopy cri;
  setattr "cri_target" cri_target;;
  act ← getattr "act";
  params ← parameters act;
  lr ← getattr "learning_rate";
  lr ← as_float lr;
  setattr "cri_optimizer" (VOptim (Adam params lr));;
  cri ← getattr "cri";
  setattr "act" cri;;
  setattr "criterion"
    (VLoss (SmoothL1Loss (if if_per then red_none else red_mean)));;
  if if_per
  then setattr "get_obj_critic" (VMethod "get_obj_critic_per")
  else setattr "get_obj_critic" (VMethod "get_obj_critic_raw").

Definition get_obj_critic_raw (batch_size : Z) : M world (batch * batch) :=
  s ← buffer_sample_batch E batch_size;
  '(reward, mask, action, state, next_s) ← unpack5 s;
  cri_target ← getattr "cri_target";
  qs ← call_method E cri_target "get_q1_q2" [ATensor next_s];
  '(tq1, tq2) ← unpack2 qs;
  next_q ← lift (batch_min tq1 tq2);
  next_q ← lift (batch_max_dim1 next_q);
  q_label ← lift (m ← batch_mul mask next_q; batch_add reward m);
  let act_int := batch_long action in
  act ← getattr "act";
  qs ← call_method E act "get_q1_q2" [ATensor state];
  gathered ← lift (mapM (λ q, gather1 q act_int) qs);
  '(q1, q2) ← unpack2 gathered;
  l1 ← call_criterion q1 q_label;
  l2 ← call_criterion q2 q_label;
  obj_critic ← lift (batch_add l1 l2);
  mret (obj_critic, q1).

Definition get_obj_critic_per (batch_size : Z) : M world (batch * batch) :=
  s ← buffer_sample_batch E batch_size;
  '(reward, mask, action, state, next_s, is_weights) ← unpack6 s;
  cri_target ← getattr "cri_target";
  qs ← call_method E cri_target "get_q1_q2" [ATensor next_s];
  '(tq1, tq2) ← unpack2 qs;
  next_q ← lift (batch_min tq1 tq2);
  next_q ← lift (batch_max_dim1 next_q);
  q_label ← lift (m ← batch_mul mask next_q; batch_add reward m);
  let act_int := batch_long action in
  act ← getattr "act";
  qs ← call_method E act "get_q1_q2" [ATensor state];
  gathered ← lift (mapM (λ q, gather1 q act_int) qs);
  '(q1, q2) ← unpack2 gathered;
  l1 ← call_criterion q1 q_label;
  l2 ← call_criterion q2 q_label;
  loss ← lift (batch_add l1 l2);
  weighted ← lift (batch_mul loss is_weights);
  mret (batch_mean weighted, q1).

Definition get_obj_critic (batch_size : Z) : M world (batch * batch) :=
  m ← getattr "get_obj_critic";
  match m with
  | VMethod "get_obj_critic_raw" => get_obj_critic_raw batch_size
  | VMethod "get_obj_critic_per" => get_obj_critic_per batch_size
  | _ => raise TypeError
  end.

End methods.
End AgentDoubleDQN.

(** ** [class AgentD3QN(AgentDoubleDQN)] *)

Module AgentD3QN.
Section methods.
Context (E : externals).

Definition __init__ : M world unit := AgentDoubleDQN.__init__.

Definition init (net_dim state_dim action_dim : nat) (if_per : bool)
  : M world unit :=
  setattr "action_dim" (VInt (Z.of_nat action_dim));;
  setattr "device" (VModule "device");;
  cri ← construct E QNetTwinDuel [net_dim; state_dim; action_dim];
  setattr "cri" (VNet cri);;
  cri ← getattr "cri";
  cri_target ← deepcopy cri;
  setattr "cri_target" cri_target;;
  cri ← getattr "cri";
  setattr "act" cri;;
  setattr "criterion"
    (VLoss (SmoothL1Loss (if if_per then red_none else red_mean)));;
  act ← getattr "act";
  params ← parameters act;
  lr ← getattr "learning_rate";
  lr ← as_float lr;
  setattr "cri_optimizer" (VOptim (Adam params lr));;
  setattr "criterion"
    (VLoss (SmoothL1Loss (if if_per then red_none else red_mean)));;
  if if_per
  then setattr "get_obj_critic" (VMethod "get_obj_critic_per")
  else setattr "get_obj_critic" (VMethod "get_obj_critic_raw").

(** The objectives are inherited from [AgentDoubleDQN]. *)
Definition get_obj_critic_raw := AgentDoubleDQN.get_obj_critic_raw E.
Definition get_obj_critic_per := AgentDoubleDQN.get_obj_critic_per E.
Definition get_obj_critic := AgentDoubleDQN.get_obj_critic E.

(** [update_net] is inherited from [AgentDQN], with these objectives. *)
Definition update_net : Z → Z → Qc → M world value :=
  AgentDQN.update_net_inherited E (AgentDoubleDQN.get_obj_critic E).

End methods.
End AgentD3QN.

(** ** [class OrnsteinUhlenbeckNoise] and numpy arrays *)

Section numpy.
Context (E : externals).

(** [OrnsteinUhlenbeckNoise(size, theta=0.15, sigma=0.3, ou_noise=0.0,
    dt=1e-2)] with the arguments [AgentDDPG.init] passes. *)
Definition OrnsteinUhlenbeckNoise_new (size : nat) (sigma : Qc)
  : OrnsteinUhlenbeckNoise :=
  {| ou_size := size; ou_theta := dec 0.15; ou_sigma := sigma;
     ou_noise := [0]%list; ou_dt := dec 1e-2 |}.

(** [__call__(self)]: the new noise, which is also returned. *)
Definition OrnsteinUhlenbeckNoise_call (o : OrnsteinUhlenbeckNoise) (seed : nat)
  : outcome (tensor * OrnsteinUhlenbeckNoise) :=
  let noise :=
    (λ z, ou_sigma o * np_sqrt E (ou_dt o) * z) <$> rd_normal E seed (ou_size o)
  in
  let drift := (λ x, ou_theta o * x * ou_dt o) <$> ou_noise o in
  step ← tensor_add drift noise;
  new ← tensor_sub (ou_noise o) step;
  mret (new, {| ou_size := ou_size o; ou_theta := ou_theta o;
                ou_sigma := ou_sigma o; ou_noise := new; ou_dt := ou_dt o |}).

(** [a.clip(lo, hi)] *)
Definition clip (lo hi : Qc) (a : tensor) : tensor :=
  (λ x, Qcmin (Qcmax x lo) hi) <$> a.

(** [a.<name>(args)] on a numpy array.  Of the methods of [numpy.ndarray]
    only [clip] is modelled; a name that [numpy.ndarray] does not have is an
    [AttributeError]. *)
Definition ndarray_call (a : tensor) (name : string) (args : list Qc)
  : outcome tensor :=
  if decide (name = "clip") then
    match args with
    | lo :: hi :: [] => Return (clip lo hi a)
    | _ => Raise TypeError
    end
  else Raise AttributeError.

End numpy.

(** ** [class AgentDDPG(AgentBase)] *)

Module AgentDDPG.
Section methods.
Context (E : externals).

Definition __init__ : M world unit :=
  AgentBase.__init__ None;;
  setattr "ou_explore_noise" (VFloat (dec 0.3));;
  setattr "ou_noise" VNone.

Definition init (net_dim state_dim action_dim : nat) (if_per : bool)
  : M world unit :=
  sigma ← getattr "ou_explore_noise";
  sigma ← as_float sigma;
  setattr "ou_noise" (VNoise (OrnsteinUhlenbeckNoise_new action_dim sigma));;
  setattr "device" (VModule "device");;
  cri ← construct E Critic [net_dim; state_dim; action_dim];
  setattr "cri" (VNet cri);;
  cri ← getattr "cri";
  cri_target ← deepcopy cri;
  setattr "cri_target" cri_target;;
  cri ← getattr "cri";
  params ← parameters cri;
  lr ← getattr "learning_rate";
  lr ← as_float lr;
  setattr "cri_optimizer" (VOptim (Adam params lr));;
  act ← construct E Actor [net_dim; state_dim; action_dim];
  setattr "act" (VNet act);;
  act ← getattr "act";
  act_target ← deepcopy act;
  setattr "act_target" act_target;;
  act ← getattr "act";
  params ← parameters act;
  lr ← getattr "learning_rate";
  lr ← as_float lr;
  setattr "act_optimizer" (VOptim (Adam params lr));;
  setattr "criterion"
    (VLoss (SmoothL1Loss (if if_per then red_none else red_mean)));;
  if if_per
  then setattr "get_obj_critic" (VMethod "get_obj_critic_per")
  else setattr "get_obj_critic" (VMethod "get_obj_critic_raw").

(** [self.ou_noise()] *)
Definition call_ou_noise : M world tensor :=
  o ← getattr "ou_noise";
  match o with
  | VNoise o =>
      seed ← reads w_rng;
      modify (set_rng S);;
      '(noise, o') ← lift (OrnsteinUhlenbeckNoise_call E o seed);
      setattr "ou_noise" (VNoise o');;
      mret noise
  | _ => raise TypeError
  end.

Definition select_action (state : tensor) : M world tensor :=
  let states := [state]%list in
  act ← getattr "act";
  out ← call E act [ATensor states];
  out ← unpack1 out;
  action ← match out with
           | row :: _ => mret row
           | [] => raise IndexError
           end;
  noise ← call_ou_noise;
  noisy ← lift (tensor_add action noise);
  lift (ndarray_call noisy "ratio_clip" [-1; 1]).

Definition get_obj_critic_raw (batch_size : Z) : M world (batch * batch) :=
  s ← buffer_sample_batch E batch_size;
  '(reward, mask, action, state, next_s) ← unpack5 s;
  cri_target ← getattr "cri_target";
  act_target ← getattr "act_target";
  next_a ← call E act_target [ATensor next_s];
  next_a ← unpack1 next_a;
  next_q ← call E cri_target [ATensor next_s; ATensor next_a];
  next_q ← unpack1 next_q;
  q_label ← lift (m ← batch_mul mask next_q; batch_add reward m);
  cri ← getattr "cri";
  q_value ← call E cri [ATensor state; ATensor action];
  q_value ← unpack1 q_value;
  obj_critic ← call_criterion q_value q_label;
  mret (obj_critic, state).

Definition get_obj_critic_per (batch_size : Z) : M world (batch * batch) :=
  s ← buffer_sample_batch E batch_size;
  '(reward, mask, action, state, next_s, is_weights) ← unpack6 s;
  cri_target ← getattr "cri_target";
  act_target ← getattr "act_target";
  next_a ← call E act_target [ATensor next_s];
  next_a ← unpack1 next_a;
  next_q ← call E cri_target [ATensor next_s; ATensor next_a];
  next_q ← unpack1 next_q;
  q_label ← lift (m ← batch_mul mask next_q; batch_add reward m);
  cri ← getattr "cri";
  q_value ← call E cri [ATensor state; ATensor action];
  q_value ← unpack1 q_value;
  loss ← call_criterion q_value q_label;
  weighted ← lift (batch_mul loss is_weights);
  let obj_critic := batch_mean weighted in
  td_error ← lift (batch_abs <$> batch_sub q_label q_value);
  buffer_td_error_update td_error;;
  mret (obj_critic, state).

Definition get_obj_critic (batch_size : Z) : M world (batch * batch) :=
  m ← getattr "get_obj_critic";
  match m with
  | VMethod "get_obj_critic_raw" => get_obj_critic_raw batch_size
  | VMethod "get_obj_critic_per" => get_obj_critic_per batch_size
  | _ => raise TypeError
  end.

(** One turn of the loop of [update_net]; the locals [obj_critic] and
    [obj_actor] are rebound. *)
Definition update_net_body (batch_size : Z) (i : Z)
    (locals : option batch * option batch)
  : M world (option batch * option batch) :=
  '(obj_critic, state) ← get_obj_critic batch_size;
  zero_grad "cri_optimizer";;
  backward obj_critic;;
  optimizer_step E "cri_optimizer";;
  AgentBase.self_soft_update "cri_target" "cri";;
  act ← getattr "act";
  q_value_pg ← call E act [ATensor state];
  q_value_pg ← unpack1 q_value_pg;
  cri_target ← getattr "cri_target";
  q ← call E cri_target [ATensor state; ATensor q_value_pg];
  q ← unpack1 q;
  let obj_actor := batch_neg (batch_mean q) in
  zero_grad "act_optimizer";;
  backward obj_actor;;
  optimizer_step E "act_optimizer";;
  AgentBase.self_soft_update "act_target" "act";;
  mret (Some obj_critic, Some obj_actor).

Definition update_net (target_step : Z) (batch_size : Z) (repeat_times : Qc)
  : M world value :=
  buffer_update_now_len_before_sample;;
  '(obj_critic, obj_actor) ←
    for_loop (py_range (py_int (Qc_of_Z target_step * repeat_times)))
             (None, None) (update_net_body batch_size);
  obj_a ← lift (item obj_actor);
  obj_c ← lift (item obj_critic);
  AgentBase.update_record [("obj_a"%string, obj_a); ("obj_c"%string, obj_c)];;
  getattr "train_record".

End methods.
End AgentDDPG.

(** ** [class AgentTD3(AgentDDPG)] *)

Module AgentTD3.
Section methods.
Context (E : externals).

Definition __init__ : M world unit :=
  AgentDDPG.__init__;;
  setattr "explore_noise" (VFloat (dec 0.1));;
  setattr "policy_noise" (VFloat (dec 0.2));;
  setattr "update_freq" (VInt 2).

Definition init (net_dim state_dim action_dim : nat) (if_per : bool)
  : M world unit :=
  setattr "device" (VModule "device");;
  cri ← construct E CriticTwin [net_dim; state_dim; action_dim];
  setattr "cri" (VNet cri);;
  cri ← getattr "cri";
  cri_target ← deepcopy cri;
  setattr "cri_target" cri_target;;
  cri ← getattr "cri";
  params ← parameters cri;
  lr ← getattr "learning_rate";
  lr ← as_float lr;
  setattr "cri_optimizer" (VOptim (Adam params lr));;
  act ← construct E Actor [net_dim; state_dim; action_dim];
  setattr "act" (VNet act);;
  act ← getattr "act";
  act_target ← deepcopy act;
  setattr "act_target" act_target;;
  act ← getattr "act";
  params ← parameters act;
  lr ← getattr "learning_rate";
  lr ← as_float lr;
  setattr "act_optimizer" (VOptim (Adam params lr));;
  setattr "criterion"
    (VLoss (SmoothL1Loss (if if_per then red_none else red_mean)));;
  if if_per
  then setattr "get_obj_critic" (VMethod "get_obj_critic_per")
  else setattr "get_obj_critic" (VMethod "get_obj_critic_raw").

Definition get_obj_critic_raw (batch_size : Z) : M world (batch * batch) :=
  s ← buffer_sample_batch E batch_size;
  '(reward, mask, action, state, next_s) ← unpack5 s;
  act_target ← getattr "act_target";
  policy_noise ← getattr "policy_noise";
  policy_noise ← as_float policy_noise;
  next_a ← call_method E act_target "get_action"
             [ATensor next_s; ANum policy_noise];
  next_a ← unpack1 next_a;
  cri_target ← getattr "cri_target";
  qs ← call_method E cri_target "get_q1_q2" [ATensor next_s; ATensor next_a];
  '(tq1, tq2) ← unpack2 qs;
  next_q ← lift (batch_min tq1 tq2);
  q_label ← lift (m ← batch_mul mask next_q; batch_add reward m);
  cri ← getattr "cri";
  qs ← call_method E cri "get_q1_q2" [ATensor state; ATensor action];
  '(q1, q2) ← unpack2 qs;
  l1 ← call_criterion q1 q_label;
  l2 ← call_criterion q2 q_label;
  obj_critic ← lift (batch_add l1 l2);
  mret (obj_critic, state).

Definition get_obj_critic_per (batch_size : Z) : M world (batch * batch) :=
  s ← buffer_sample_batch E batch_size;
  '(reward, mask, action, state, next_s, is_weights) ← unpack6 s;
  act_target ← getattr "act_target";
  policy_noise ← getattr "policy_noise";
  policy_noise ← as_float policy_noise;
  next_a ← call_method E act_target "get_action"
             [ATensor next_s; ANum policy_noise];
  next_a ← unpack1 next_a;
  cri_target ← getattr "cri_target";
  qs ← call_method E cri_target "get_q1_q2" [ATensor next_s; ATensor next_a];
  '(tq1, tq2) ← unpack2 qs;
  next_q ← lift (batch_min tq1 tq2);
  q_label ← lift (m ← batch_mul mask next_q; batch_add reward m);
  cri ← getattr "cri";
  qs ← call_method E cri "get_q1_q2" [ATensor state; ATensor action];
  '(q1, q2) ← unpack2 qs;
  l1 ← call_criterion q1 q_label;
  l2 ← call_criterion q2 q_label;
  loss ← lift (batch_add l1 l2);
  weighted ← lift (batch_mul loss is_weights);
  let obj_critic := batch_mean weighted in
  td_error ← lift (m ← batch_min q1 q2; batch_abs <$> batch_sub q_label m);
  buffer_td_error_update td_error;;
  mret (obj_critic, state).

Definition get_obj_critic (batch_size : Z) : M world (batch * batch) :=
  m ← getattr "get_obj_critic";
  match m with
  | VMethod "get_obj_critic_raw" => get_obj_critic_raw batch_size
  | VMethod "get_obj_critic_per" => get_obj_critic_per batch_size
  | _ => raise TypeError
  end.

(** [i % self.update_freq == 0] *)
Definition is_delayed_step (i : Z) : M world bool :=
  update_freq ← getattr "update_freq";
  update_freq ← as_int update_freq;
  r ← lift (py_mod i update_freq);
  mret (bool_decide (r = 0%Z)).

(** One turn of the loop of [update_net]; the locals [obj_critic] and
    [obj_actor] are rebound. *)
Definition update_net_body (batch_size : Z) (i : Z)
    (locals : option batch * option batch)
  : M world (option batch * option batch) :=
  '(obj_critic, state) ← get_obj_critic batch_size;
  zero_grad "cri_optimizer";;
  backward obj_critic;;
  optimizer_step E "cri_optimizer";;
  delayed ← is_delayed_step i;
  (if delayed : bool
   then AgentBase.self_soft_update "cri_target" "cri"
   else mret ());;
  act ← getattr "act";
  q_value_pg ← call E act [ATensor state];
  q_value_pg ← unpack1 q_value_pg;
  cri_target ← getattr "cri_target";
  q ← call E cri_target [ATensor state; ATensor q_value_pg];
  q ← unpack1 q;
  let obj_actor := batch_neg (batch_mean q) in
  zero_grad "act_optimizer";;
  backward obj_actor;;
  optimizer_step E "act_optimizer";;
  delayed ← is_delayed_step i;
  (if delayed : bool
   then AgentBase.self_soft_update "act_target" "act"
   else mret ());;
  mret (Some obj_critic, Some obj_actor).

(** [int(target_step * repeat_times)] *)
Definition iterations (target_step : Z) (repeat_times : Qc) : Z :=
  py_int (Qc_of_Z target_step * repeat_times).

Definition update_net (target_step : Z) (batch_size : Z) (repeat_times : Qc)
  : M world value :=
  buffer_update_now_len_before_sample;;
  '(obj_critic, obj_actor) ←
    for_loop (py_range (iterations target_step repeat_times)) (None, None)
             (update_net_body batch_size);
  obj_a ← lift (item obj_actor);
  obj_c ← lift (item obj_critic);
  AgentBase.update_record [("obj_a"%string, obj_a); ("obj_c"%string, obj_c / 2)];;
  getattr "train_record".

(** [select_action]: [torch.randn_like(action)] is a draw of as many
    standard normal numbers as the action has components. *)
Definition select_action (state : tensor) : M world tensor :=
  let states := [state] in
  act ← getattr "act";
  out ← call E act [ATensor states];
  out ← unpack1 out;
  action ← match out with
           | row :: _ => mret row
           | [] => raise IndexError
           end;
  seed ← reads w_rng;
  modify (set_rng S);;
  let randn := rd_normal E seed (length action) in
  explore_noise ← getattr "explore_noise";
  explore_noise ← as_float explore_noise;
  noisy ← lift (tensor_add action (tensor_mul_scalar randn explore_noise));
  mret (clip (- 1) 1 noisy).

End methods.
End AgentTD3.

(** ** [class AgentPPO]: the two advantage estimators *)

Module AgentPPO.
Section methods.
Context (E : externals).

(** [torch.empty(a.shape)] and [torch.zeros(a.shape[1])] *)
Definition shape1 (a : batch) : nat :=
  match a with
  | r :: _ => length r
  | [] => 0%nat
  end.
Definition empty_like (a : batch) : batch :=
  imap (λ i (r : tensor), imap (λ j _, torch_empty E i j) r) a.
Definition zeros (n : nat) : tensor := replicate n 0.

(** [a[i]] and [a[i] = row] *)
Definition get_row (a : batch) (i : nat) : outcome tensor :=
  match a !! i with
  | Some r => Return r
  | None => Raise IndexError
  end.
Definition set_row (a : batch) (i : nat) (row : tensor) : outcome batch :=
  match a !! i with
  | None => Raise IndexError
  | Some old =>
      if decide (length row = length old) then Return (<[i := row]> a)
      else match row with
           | x :: [] => Return (<[i := replicate (length old) x]> a)
           | _ => Raise RuntimeError
           end
  end.

(** [range(buf_len - 1, -1, -1)] *)
Definition reversed_range (buf_len : nat) : list nat := rev (seq 0 buf_len).

(** [a.mean(dim=0)] and the unbiased [a.std(dim=0)], one entry per column. *)
Definition column (j : nat) (a : batch) : tensor := (λ r : tensor, r !!! j) <$> a.
Definition mean_dim0 (a : batch) : tensor :=
  (λ j, mean_list (column j a)) <$> seq 0 (shape1 a).
Definition std_list (l : list Qc) : Qc :=
  let m := mean_list l in
  np_sqrt E (sum_list ((λ x, (x - m) * (x - m)) <$> l)
             / Qc_of_nat (length l - 1)).
Definition std_dim0 (a : batch) : tensor :=
  (λ j, std_list (column j a)) <$> seq 0 (shape1 a).

(** [(buf_adv - buf_adv.mean(dim=0)) / (buf_adv.std(dim=0) + 1e-5)] *)
Definition standardize (buf_adv : batch) : outcome batch :=
  centred ← broadcast2 Qcminus buf_adv [mean_dim0 buf_adv]%list;
  broadcast2 Qcdiv centred [(λ s, s + dec 1e-5) <$> std_dim0 buf_adv]%list.

(** The loop of [compute_reward_adv]: state [(buf_r_ret, pre_r_ret)]. *)
Definition reward_loop (buf_reward buf_mask : batch) (i : nat)
    (st : batch * tensor) : outcome (batch * tensor) :=
  let '(buf_r_ret, pre_r_ret) := st in
  r ← get_row buf_reward i;
  m ← get_row buf_mask i;
  mp ← tensor_mul m pre_r_ret;
  row ← tensor_add r mp;
  buf_r_ret ← set_row buf_r_ret i row;
  pre_r_ret ← get_row buf_r_ret i;
  mret (buf_r_ret, pre_r_ret).

Fixpoint fold_outcome {A L} (xs : list A) (acc : L)
    (body : A → L → outcome L) : outcome L :=
  match xs with
  | [] => Return acc
  | x :: xs' => acc' ← body x acc; fold_outcome xs' acc' body
  end.

(** [compute_reward_adv] up to, and without, the final standardisation. *)
Definition compute_reward_adv_pre (buf_len : nat)
    (buf_reward buf_mask buf_value : batch) : outcome (batch * batch) :=
  let buf_r_ret := empty_like buf_reward in
  let pre_r_ret := zeros (shape1 buf_reward) in
  '(buf_r_ret, _) ← fold_outcome (reversed_range buf_len)
                       (buf_r_ret, pre_r_ret) (reward_loop buf_reward buf_mask);
  mv ← batch_mul buf_mask buf_value;
  buf_adv ← batch_sub buf_r_ret mv;
  mret (buf_r_ret, buf_adv).

Definition compute_reward_adv (buf_len : nat)
    (buf_reward buf_mask buf_value : batch) : outcome (batch * batch) :=
  '(buf_r_ret, buf_adv) ←
    compute_reward_adv_pre buf_len buf_reward buf_mask buf_value;
  buf_adv ← standardize buf_adv;
  mret (buf_r_ret, buf_adv).

(** The loop of [compute_reward_gae]: state
    [(buf_r_ret, buf_adv, pre_r_ret, pre_adv)]. *)
Definition gae_loop (lambda_gae_adv : Qc) (buf_reward buf_mask buf_value : batch)
    (i : nat) (st : batch * batch * tensor * tensor)
  : outcome (batch * batch * tensor * tensor) :=
  let '(buf_r_ret, buf_adv, pre_r_ret, pre_adv) := st in
  r ← get_row buf_reward i;
  m ← get_row buf_mask i;
  mp ← tensor_mul m pre_r_ret;
  row ← tensor_add r mp;
  buf_r_ret ← set_row buf_r_ret i row;
  pre_r_ret ← get_row buf_r_ret i;
  r ← get_row buf_reward i;
  m ← get_row buf_mask i;
  ma ← tensor_mul m pre_adv;
  s ← tensor_add r ma;
  v ← get_row buf_value i;
  delta ← tensor_sub s v;
  buf_adv ← set_row buf_adv i delta;
  v ← get_row buf_value i;
  a ← get_row buf_adv i;
  pre_adv ← tensor_add v (tensor_mul_scalar a lambda_gae_adv);
  mret (buf_r_ret, buf_adv, pre_r_ret, pre_adv).

Definition compute_reward_gae_pre (lambda_gae_adv : Qc) (buf_len : nat)
    (buf_reward buf_mask buf_value : batch) : outcome (batch * batch) :=
  let buf_r_ret := empty_like buf_reward in
  let buf_adv := empty_like buf_reward in
  let pre_r_ret := zeros (shape1 buf_reward) in
  let pre_adv := zeros (shape1 buf_reward) in
  '(buf_r_ret, buf_adv, _, _) ←
    fold_outcome (reversed_range buf_len)
      (buf_r_ret, buf_adv, pre_r_ret, pre_adv)
      (gae_loop lambda_gae_adv buf_reward buf_mask buf_value);
  mret (buf_r_ret, buf_adv).

Definition compute_reward_gae (lambda_gae_adv : Qc) (buf_len : nat)
    (buf_reward buf_mask buf_value : batch) : outcome (batch * batch) :=
  '(buf_r_ret, buf_adv) ←
    compute_reward_gae_pre lambda_gae_adv buf_len buf_reward buf_mask buf_value;
  buf_adv ← standardize buf_adv;
  mret (buf_r_ret, buf_adv).

End methods.
End AgentPPO.

(** ** Utils: [bt], [btr], [gaussian_kl] *)

(** One matrix of a batch, by rows. *)
Abbreviation matrix := (list (list Qc)).

Definition is_square (m : matrix) : bool :=
  bool_decide (Forall (λ r : tensor, length r = length m) m).

Definition ncols (m : matrix) : nat :=
  match m with
  | r :: _ => length r
  | [] => 0%nat
  end.

Definition mcol (j : nat) (m : matrix) : tensor := (λ r : tensor, r !!! j) <$> m.

(** [m.transpose(-2, -1)] on one matrix *)
Definition transpose (m : matrix) : matrix := (λ j, mcol j m) <$> seq 0 (ncols m).

Definition dot (u v : tensor) : Qc := sum_list (zip_with Qcmult u v).

(** [a @ b]: the inner sizes must agree. *)
Definition matmul (a b : matrix) : outcome matrix :=
  if bool_decide (Forall (λ r : tensor, length r = length b) a)
  then Return ((λ r, (λ j, dot r (mcol j b)) <$> seq 0 (ncols b)) <$> a)
  else Raise RuntimeError.

(** The determinant by expansion along the first row; [n] is the number of
    rows. *)
Fixpoint det_rec (n : nat) (m : matrix) : Qc :=
  match n, m with
  | S n', row :: rest =>
      sum_list (imap (λ j x, (if Nat.even j then x else - x)
                              * det_rec n' (delete j <$> rest)) row)
  | _, _ => 1
  end.

(** [m.det()] *)
Definition det (m : matrix) : outcome Qc :=
  if is_square m then Return (det_rec (length m) m) else Raise RuntimeError.

Definition cofactor (i j : nat) (m : matrix) : Qc :=
  (if Nat.even (i + j) then 1 else - 1)
  * det_rec (length m - 1) (delete j <$> delete i m).

(** [m.inverse()]: a singular or non-square matrix raises. *)
Definition inverse (m : matrix) : outcome matrix :=
  if is_square m then
    let d := det_rec (length m) m in
    if decide (d = 0) then Raise RuntimeError
    else Return ((λ i, (λ j, cofactor j i m / d) <$> seq 0 (length m))
                 <$> seq 0 (length m))
  else Raise RuntimeError.

(** [bt(m)] and [btr(m)] on a batch of matrices. *)
Definition bt (m : list matrix) : list matrix := transpose <$> m.

Definition trace_of (m : matrix) : Qc := sum_list (imap (λ i (r : tensor), r !!! i) m).
Definition btr (m : list matrix) : tensor := trace_of <$> m.

(** A binary operation on the matrices of two batches of the same length. *)
Definition bzip {A B C} (f : A → B → outcome C) (a : list A) (b : list B)
  : outcome (list C) :=
  if decide (length a = length b)
  then mapM (λ p : A * B, f p.1 p.2) (zip a b)
  else Raise RuntimeError.

(** [v.unsqueeze(-1)]: every vector becomes a one-column matrix. *)
Definition unsqueeze_last (v : batch) : list matrix :=
  (λ r : tensor, (λ x, [x]%list) <$> r) <$> v.

(** [A.size(-1)] *)
Definition size_last (A : list matrix) : nat :=
  match A with
  | m :: _ => ncols m
  | [] => 0%nat
  end.

(** [t.squeeze()] of a batch of one-by-one matrices. *)
Definition squeeze (t : list matrix) : tensor := concat (concat t).

Section gaussian_kl.
Context (E : externals).

Definition gaussian_kl (mu_i mu : batch) (A_i A : list matrix)
  : outcome (Qc * Qc) :=
  let n := size_last A in
  let mu_i := unsqueeze_last mu_i in
  let mu := unsqueeze_last mu in
  sigma_i ← bzip matmul A_i (bt A_i);
  sigma ← bzip matmul A (bt A);
  sigma_i_inv ← mapM inverse sigma_i;
  sigma_inv ← mapM inverse sigma;
  diff ← bzip batch_sub mu mu_i;
  left ← bzip matmul (bt diff) sigma_i_inv;
  diff' ← bzip batch_sub mu mu_i;
  quad ← bzip matmul left diff';
  let inner_mu := squeeze quad in
  d ← mapM det sigma_inv;
  d_i ← mapM det sigma_i_inv;
  ratio ← tensor_div d d_i;
  prod ← bzip matmul sigma_i_inv sigma_inv;
  inner_sigma ← tensor_add ((λ x, torch_log E x - Qc_of_nat n) <$> ratio)
                           (btr prod);
  let C_mu := dec 0.5 * mean_list inner_mu in
  let C_sigma := dec 0.5 * mean_list inner_sigma in
  mret (C_mu, C_sigma).

(** *** The closed forms of the decoupled KL divergence

    For one pair of Gaussians with covariances [Sigma_i = A_i A_i^T] and
    [Sigma = A A^T] in dimension [n]:
    the mean term [(mu - mu_i)^T Sigma_i^{-1} (mu - mu_i)] and the
    covariance term [log(det Sigma / det Sigma_i) - n + tr(Sigma^{-1}
    Sigma_i)], each to be halved and averaged over the batch. *)
Definition kl_mean_inner (mu_i mu : tensor) (A_i : matrix) : outcome Qc :=
  sigma_i ← matmul A_i (transpose A_i);
  sigma_i_inv ← inverse sigma_i;
  let d := zip_with Qcminus mu mu_i in
  Return (dot d ((λ r, dot r d) <$> sigma_i_inv)).

Definition kl_cov_inner (A_i A : matrix) : outcome Qc :=
  sigma_i ← matmul A_i (transpose A_i);
  sigma ← matmul A (transpose A);
  sigma_inv ← inverse sigma;
  ds ← det sigma;
  dsi ← det sigma_i;
  prod ← matmul sigma_inv sigma_i;
  Return (torch_log E (ds / dsi) - Qc_of_nat (length A) + trace_of prod).

Definition kl_closed_form (mu_i mu : batch) (A_i A : list matrix)
  : outcome (Qc * Qc) :=
  ms ← mapM (λ p : tensor * tensor * matrix, kl_mean_inner p.1.1 p.1.2 p.2)
            (zip (zip mu_i mu) A_i);
  cs ← mapM (λ p : matrix * matrix, kl_cov_inner p.1 p.2) (zip A_i A);
  mret (dec 0.5 * mean_list ms, dec 0.5 * mean_list cs).

End gaussian_kl.

(** ** The words of the specification, as definitions *)

(** "elementwise [tau * current + (1 - tau) * target_old]", on one tensor *)
Definition interpolate (tau : Qc) (cur tar : tensor) : tensor :=
  zip_with (λ c t, tau * c + (1 - tau) * t) cur tar.

(** ** Reasoning about methods *)

(** [wp c Q s]: running [c] from [s] ends in an outcome and a state that
    satisfy [Q]. *)
Definition wp {S A} (c : M S A) (Q : outcome A → S → Prop) (s : S) : Prop :=
  Q (c s).1 (c s).2.


(** The events that update a network: optimiser steps and soft updates. *)
Definition is_update (e : event) : Prop :=
  match e with
  | EvOptimStep _ | EvSoftUpdate _ _ => True
  | _ => False
  end.

#[global] Instance is_update_dec (e : event) : Decision (is_update e).
Proof. destruct e; simpl; apply _. Defined.

Definition updates (t : list event) : list event := filter is_update t.

(** [extends w evs w']: from [w] to [w'] the attributes of [self] did not
    change and the updates [evs] happened. *)
Definition extends (w : world) (evs : list event) (w' : world) : Prop :=
  w_self w' = w_self w ∧ updates (w_trace w') = updates (w_trace w) ++ evs.

(** A computation that changes no attribute and updates no network. *)
Definition silent {A} (c : M world A) : Prop := ∀ w, extends w [] (c w).2.

(** ** The cadence of [AgentTD3.update_net], in the words of the
    specification and as the code has it *)

(** "The critic is updated on every iteration, the actor update and the
    soft-updates of both targets occur only on every [update_freq]-th
    iteration." *)
Definition claimed_turn (update_freq i : Z) : list event :=
  EvOptimStep "cri_optimizer"
  :: (if bool_decide (i mod update_freq = 0)%Z
      then [EvSoftUpdate "cri_target" "cri"; EvOptimStep "act_optimizer";
            EvSoftUpdate "act_target" "act"]
      else []).

(** The critic and the actor are updated on every iteration, the two soft
    updates occur on the iterations [i] with [i % update_freq == 0]. *)
Definition actual_turn (update_freq i : Z) : list event :=
  [EvOptimStep "cri_optimizer"]
  ++ (if bool_decide (i mod update_freq = 0)%Z
      then [EvSoftUpdate "cri_target" "cri"] else [])
  ++ [EvOptimStep "act_optimizer"]
  ++ (if bool_decide (i mod update_freq = 0)%Z
      then [EvSoftUpdate "act_target" "act"] else []).

(** ** The advantage recursions of [AgentPPO], as functions on lists

    For a trajectory of rewards, masks and values, one number per step:
    the discounted reward-to-go [r_ret[i] = reward[i] + mask[i] *
    r_ret[i+1]], with 0 after the last step, and the advantages of the
    generalised estimator together with the [pre_adv] that the step hands
    to the one before it. *)
Fixpoint reward_to_go (rs ms : list Qc) : list Qc :=
  match rs, ms with
  | r :: rs', m :: ms' =>
      let rest := reward_to_go rs' ms' in
      (r + m * default 0 (head rest)) :: rest
  | _, _ => []
  end.

Fixpoint gae_advantages (lambda : Qc) (rs ms vs : list Qc) : list Qc * Qc :=
  match rs, ms, vs with
  | r :: rs', m :: ms', v :: vs' =>
      let '(advs, pre_adv) := gae_advantages lambda rs' ms' vs' in
      let delta := r + m * pre_adv - v in
      (delta :: advs, v + delta * lambda)
  | _, _, _ => ([], 0)
  end.

(** A list of numbers as a tensor of shape [(L, 1)]. *)
Definition column_of (l : list Qc) : batch := (λ x, [x]) <$> l.

(** ** Repeated soft updates *)

(** [soft_update(target, current, tau)], called [k] times in a row. *)
Fixpoint soft_update_times (k : nat) (target current : value) (tau : Qc)
  : M heap unit :=
  match k with
  | O => mret ()
  | S k' => AgentBase.soft_update target current tau;;
            soft_update_times k' target current tau
  end.

(** The tensor at distance [(1 - tau)^k] of the way from [cur] to [tar]. *)
Definition approach (tau : Qc) (k : nat) (cur tar : tensor) : tensor :=
  zip_with (λ c t, c + (1 - tau) ^ k * (t - c)) cur tar.

(** ** Independent copies *)

(** [is_copy_of h t c]: in the heap [h] the network [t] is what
    [deepcopy(c)] makes, before either is trained further: same class,
    parameter tensors of its own, pairwise distinct and none shared with
    [c], holding the values of [c]. *)
Definition is_copy_of (h : heap) (t c : network) : Prop :=
  net_class_of t = net_class_of c
  ∧ NoDup (net_params t)
  ∧ Forall (λ l, l ∉ net_params c) (net_params t)
  ∧ state_dict t h = state_dict c h.

(** ** Stored transitions *)

(** A transition as [explore_env] stores it: [other] is
    [(reward, mask, *action)] with the mask 0 or [gamma]. *)
Definition stored_with (gamma : Qc) (p : tensor * tensor) : Prop :=
  ∃ reward mask action,
    p.2 = reward :: mask :: action ∧ (mask = 0 ∨ mask = gamma).

(** ** Inputs of the examples *)

(** A heap with a current network (tensors 0 and 1) and its target (tensors
    2 and 3), of the same shapes. *)
Definition example_heap : heap :=
  <[0%nat := [1; dec 0.5]]> (<[1%nat := [dec 4]]>
  (<[2%nat := [0; dec 2.5]]> (<[3%nat := [dec 8]]> ∅))).
Definition example_current : network := Net Critic [0; 1]%nat.
Definition example_target : network := Net Critic [2; 3]%nat.


(** Collaborators for the examples: every network method answers the value
    2 for one sample ([get_q1_q2] answers the pair 2 and 3), the buffer hands
    out one transition with reward 1, mask 0.9 and action 0, and with the
    weight 3 when it is prioritised. *)
Definition example_externals (per : bool) : externals := {|
  net_init := λ _ _ _, [[1; 2]; [dec 3]];
  net_apply := λ _ method _ _ _,
    if decide (method = "get_q1_q2") then Return [[[2]]; [[dec 3]]]
    else Return [[[2]]];
  sample_batch := λ _ _,
    [[[1]]; [[dec 0.9]]; [[0]]; [[dec 5]]; [[dec 6]]]
    ++ (if per then [[[dec 3]]] else []);
  adam_step := λ o h _, (λ l, tensor_mul_scalar (h !!! l) (dec 0.5)) <$> opt_params o;
  rd_normal := λ _ n, replicate n 1;
  torch_log := λ _, 0;
  np_sqrt := λ x, x;
  torch_empty := λ _ _, dec 7;
|}.

(** A world in which nothing exists yet. *)
Definition empty_world : world := World ∅ ∅ ∅ 0 [].

(** An actor-critic agent with one parameter tensor per network: the actor
    holds 5 and the critic 6 after training; a fresh agent of the same
    architecture holds 1 and 2. *)
Definition example_actor : network := Net Actor [0%nat].
Definition example_critic : network := Net Critic [1%nat].
Definition trained_world : world :=
  World (<["act" := VNet example_actor]> (<["cri" := VNet example_critic]> ∅))
        (<[0%nat := [dec 5]]> (<[1%nat := [dec 6]]> ∅)) ∅ 0 [].
Definition untrained_heap : heap := <[0%nat := [1]]> (<[1%nat := [2]]> ∅).

(** A TD3 agent out of [__init__] and [init], without prioritised replay. *)
Definition example_td3_world : world :=
  ((AgentTD3.__init__;;
    AgentTD3.init (example_externals false) 8 4 2 false) empty_world).2.

(** A DQN agent out of [__init__] and [init] whose [act_target] was then
    bound from outside to its target network. *)
Definition patched_dqn_world (per : bool) : world :=
  ((AgentDQN.__init__;;
    AgentDQN.init (example_externals per) 8 4 2 per;;
    cri_target ← getattr "cri_target";
    setattr "act_target" cri_target) empty_world).2.

(** A heap in which the target (tensors 2 and 3) has just been copied from
    the current network (tensors 0 and 1). *)
Definition copied_heap : heap :=
  <[0%nat := [1; dec 0.5]]> (<[1%nat := [dec 4]]>
  (<[2%nat := [1; dec 0.5]]> (<[3%nat := [dec 4]]> ∅))).

(** An environment for the examples: its state counts the steps of the
    episode, the observation is the count, every step pays 1 and the
    episode ends with the second step; the policy repeats the
    observation. *)
Definition example_env_step (e : nat) (action : tensor)
  : (tensor * Qc * bool) * nat :=
  (([Qc_of_nat (S e)], 1, bool_decide (e = 1%nat)), S e).
Definition example_env_reset (e : nat) : tensor * nat := ([0], 0%nat).
Definition example_policy (state : tensor) : M world tensor := mret state.
Definition example_rollout : rollout nat := Rollout empty_world [0] 0%nat [].

(** A current network with the first tensor of [example_current] only. *)
Definition example_short_current : network := Net Critic [0%nat].

(** A fresh agent in a directory where only the critic was saved. *)
Definition critic_only_world : world :=
  World (<["act" := VNet example_actor]> (<["cri" := VNet example_critic]> ∅))
        untrained_heap (<["run/critic.pth" := [[dec 6]]]> ∅) 0 [].

(** * Part II: properties *)

(** ** Running a computation *)

Lemma run_bind {S A B} (m : M S A) (f : A → M S B) (s : S) :
  (m ≫= f) s = match m s with
               | (Return a, s') => f a s'
               | (Raise e, s') => (Raise e, s')
               end.
Proof. reflexivity. Qed.

Lemma run_ret {S A} (a : A) (s : S) : (mret a : M S A) s = (Return a, s).
Proof. reflexivity. Qed.

Lemma for_each_cons {S A} (x : A) (xs : list A) (body : A → M S unit) :
  for_each (x :: xs) body = (body x;; for_each xs body).
Proof. reflexivity. Qed.

(** ** [soft_update] *)

Lemma Forall2_impl_elem {A B} (P Q : A → B → Prop) (l : list A) (k : list B) :
  Forall2 P l k →
  (∀ x y, x ∈ l → y ∈ k → P x y → Q x y) →
  Forall2 Q l k.
Proof.
  induction 1 as [|x y l k Hxy Hlk IH]; intros Himp; constructor.
  - apply Himp; [left|left|done].
  - apply IH. intros x' y' Hx' Hy'. apply Himp; by right.
Qed.

Section soft_update_facts.
Context (tau : Qc).

Lemma zip_with_ext_same {A B} (f g : A → A → B) (l k : list A) :
  (∀ x y, f x y = g x y) → zip_with f l k = zip_with g l k.
Proof.
  intros Hfg. revert k. induction l as [|x l IH]; intros [|y k]; simpl; try done.
  by rewrite Hfg, IH.
Qed.

(** The tensor [soft_update_step] writes is the interpolation. *)
Lemma mixed_interpolate (cur tar : tensor) :
  length cur = length tar →
  tensor_add (tensor_mul_scalar cur tau) (tensor_mul_scalar tar (1 - tau))
  = Return (interpolate tau cur tar).
Proof.
  intros Hlen. unfold tensor_add, broadcast, tensor_mul_scalar, interpolate.
  rewrite !length_fmap. rewrite decide_True by done. f_equal.
  rewrite zip_with_fmap_l, zip_with_fmap_r.
  apply zip_with_ext_same. intros x y. ring.
Qed.

Lemma length_interpolate (cur tar : tensor) :
  length cur = length tar → length (interpolate tau cur tar) = length tar.
Proof. intros Hlen. unfold interpolate. rewrite length_zip_with. lia. Qed.

Lemma soft_update_step_run (h : heap) (tar cur : loc) :
  length (h !!! tar) = length (h !!! cur) →
  AgentBase.soft_update_step tau (tar, cur) h
  = (Return (), <[tar := interpolate tau (h !!! cur) (h !!! tar)]> h).
Proof.
  intros Hlen. unfold AgentBase.soft_update_step, read, reads, lift.
  rewrite !run_bind. rewrite mixed_interpolate by done.
  unfold copy_. rewrite decide_True; [done|].
  by apply length_interpolate.
Qed.

(** Whatever its outcome, one step writes to its target only. *)
Lemma soft_update_step_frame (h h' : heap) (p : loc * loc) (r : outcome unit)
    (l : loc) :
  AgentBase.soft_update_step tau p h = (r, h') → l ≠ p.1 → h' !! l = h !! l.
Proof.
  destruct p as [tar cur]. unfold AgentBase.soft_update_step, read, reads, lift.
  rewrite !run_bind. simpl. intros Hrun Hne.
  destruct (tensor_add _ _) as [mixed|e]; [|by simplify_eq].
  unfold copy_ in Hrun. case_decide.
  - simplify_eq. by rewrite lookup_insert_ne.
  - destruct mixed as [|x [|y mixed]]; simplify_eq; try done.
    by rewrite lookup_insert_ne.
Qed.

Lemma soft_update_loop_frame (ps : list (loc * loc)) (h h' : heap)
    (r : outcome unit) (l : loc) :
  for_each ps (AgentBase.soft_update_step tau) h = (r, h') →
  l ∉ ps.*1 → h' !! l = h !! l.
Proof.
  revert h. induction ps as [|p ps IH]; intros h Hrun Hl.
  - by inversion Hrun.
  - rewrite for_each_cons, run_bind in Hrun.
    rewrite fmap_cons, not_elem_of_cons in Hl. destruct Hl as [Hne Hl].
    destruct (AgentBase.soft_update_step tau p h) as [[[]|e] h1] eqn:Hstep.
    + rewrite (IH _ Hrun Hl). by eapply soft_update_step_frame.
    + simplify_eq. by eapply soft_update_step_frame.
Qed.

Lemma soft_update_loop_run (tars curs : list loc) (h : heap) :
  NoDup tars →
  (∀ l, l ∈ tars → l ∉ curs) →
  Forall2 (λ t c, length (h !!! t) = length (h !!! c)) tars curs →
  ∃ h', for_each (zip tars curs) (AgentBase.soft_update_step tau) h
        = (Return (), h')
        ∧ Forall2 (λ t c, h' !!! t = interpolate tau (h !!! c) (h !!! t))
                  tars curs.
Proof.
  intros Hnd Hdisj Hlen. revert curs h Hnd Hdisj Hlen.
  induction tars as [|t tars IH]; intros curs h Hnd Hdisj Hlen;
    inversion Hlen as [|? c ? curs' Htc Hlen']; subst.
  - eexists. split; [reflexivity|constructor].
  - apply NoDup_cons in Hnd as [Ht Hnd].
    change (zip (t :: tars) (c :: curs')) with ((t, c) :: zip tars curs').
    rewrite for_each_cons, run_bind, soft_update_step_run by done.
    set (h1 := <[t := _]> h).
    assert (Hother : ∀ l, l ≠ t → h1 !!! l = h !!! l).
    { intros l Hl. unfold h1. by rewrite lookup_total_insert_ne. }
    assert (Htc' : ∀ l, l ∈ tars → l ≠ t) by (intros l Hl ->; done).
    assert (Hcc' : ∀ l, l ∈ curs' → l ≠ t).
    { intros l Hl ->. eapply Hdisj; [left|]. by right. }
    assert (Hc : c ≠ t).
    { intros ->. eapply Hdisj; left. }
    destruct (IH curs' h1) as (h' & Hrun & Hvals); [done|set_solver|..].
    { eapply Forall2_impl_elem; [done|]. intros x y Hx Hy Hxy. simpl.
      by rewrite !Hother by auto. }
    exists h'. split; [done|]. constructor.
    + assert (Hfr : h' !! t = h1 !! t).
      { eapply soft_update_loop_frame; [done|].
        rewrite fst_zip; [done|]. apply Forall2_length in Hlen'. lia. }
      rewrite !lookup_total_alt, Hfr. unfold h1. by rewrite lookup_insert_eq.
    + eapply Forall2_impl_elem; [done|]. intros x y Hx Hy Hxy. simpl in *.
      by rewrite Hxy, !Hother by auto.
Qed.

End soft_update_facts.

Lemma soft_update_networks (t c : network) (tau : Qc) (h : heap) :
  AgentBase.soft_update (VNet t) (VNet c) tau h
  = for_each (zip (net_params t) (net_params c))
             (AgentBase.soft_update_step tau) h.
Proof. reflexivity. Qed.

Lemma interpolate_1 (cur tar : tensor) :
  length cur = length tar → interpolate 1 cur tar = cur.
Proof.
  unfold interpolate. revert tar.
  induction cur as [|c cur IH]; intros [|t tar] Hlen; simplify_eq/=; [done|].
  f_equal; [ring|by apply IH].
Qed.

Lemma interpolate_0 (cur tar : tensor) :
  length cur = length tar → interpolate 0 cur tar = tar.
Proof.
  unfold interpolate. revert tar.
  induction cur as [|c cur IH]; intros [|t tar] Hlen; simplify_eq/=; [done|].
  f_equal; [ring|by apply IH].
Qed.

Lemma Forall2_fmap_eq {A B C} (f : A → C) (g : B → C) (l : list A)
    (k : list B) :
  Forall2 (λ x y, f x = g y) l k → f <$> l = g <$> k.
Proof.
  induction 1 as [|x y l k Hxy _ IH]; [done|].
  rewrite !fmap_cons. by f_equal.
Qed.

Lemma Forall2_fmap_eq_l {A B C} (f g : A → C) (l : list A) (k : list B) :
  Forall2 (λ x _, f x = g x) l k → f <$> l = g <$> l.
Proof.
  induction 1 as [|x y l k Hxy _ IH]; [done|].
  rewrite !fmap_cons. by f_equal.
Qed.

Lemma Forall2_conj {A B} (P Q : A → B → Prop) (l : list A) (k : list B) :
  Forall2 P l k → Forall2 Q l k → Forall2 (λ x y, P x y ∧ Q x y) l k.
Proof.
  induction 1; intros HQ; inversion HQ; subst; constructor; auto.
Qed.

(** C1.  For every pair of equally-shaped parameter lists and every [tau],
    [soft_update(target, current, tau)] returns normally and sets each
    parameter of the target, elementwise, to
    [tau * current + (1 - tau) * target_old]; with [tau = 1] the target
    becomes exactly the current network, with [tau = 0] it is unchanged.
    The target is a network of its own, as a [deepcopy] is: its parameters
    are distinct tensor objects, none shared with the current network. *)
Theorem soft_update_interpolates (h : heap) (target current : network)
    (tau : Qc) :
  NoDup (net_params target) →
  Forall (λ l, l ∉ net_params current) (net_params target) →
  Forall2 (λ t c, length (h !!! t) = length (h !!! c))
          (net_params target) (net_params current) →
  let run tau := AgentBase.soft_update (VNet target) (VNet current) tau h in
  (run tau).1 = Return ()
  ∧ Forall2 (λ t c, (run tau).2 !!! t = interpolate tau (h !!! c) (h !!! t))
            (net_params target) (net_params current)
  ∧ state_dict target (run 1).2 = state_dict current h
  ∧ state_dict target (run 0).2 = state_dict target h.
Proof.
  intros Hnd Hdisj Hshape run. rewrite Forall_forall in Hdisj.
  assert (Hrun : ∀ q, (run q).1 = Return ()
            ∧ Forall2 (λ t c, (run q).2 !!! t
                              = interpolate q (h !!! c) (h !!! t)
                              ∧ length (h !!! t) = length (h !!! c))
                      (net_params target) (net_params current)).
  { intros q. unfold run. rewrite soft_update_networks.
    destruct (soft_update_loop_run q _ _ h Hnd Hdisj Hshape)
      as (h' & -> & Hv).
    split; [done|]. by apply Forall2_conj. }
  split; [apply Hrun|]. split; [|split]; unfold state_dict.
  - eapply Forall2_impl; [apply (Hrun tau)|]. by intros t c [-> _].
  - apply Forall2_fmap_eq. eapply Forall2_impl; [apply (Hrun 1)|].
    intros t c [-> Hlen]. by apply interpolate_1.
  - eapply Forall2_fmap_eq_l. eapply Forall2_impl; [apply (Hrun 0)|].
    intros t c [-> Hlen]. by apply interpolate_0.
Qed.

(** C1 at an example: a critic with the tensors [1, 0.5] and [4], its
    target with [0, 2.5] and [8], and [tau = 0.25]. *)
Lemma soft_update_interpolates_witness :
  let run tau := AgentBase.soft_update (VNet example_target)
                   (VNet example_current) tau example_heap in
  (run (dec 0.25)).1 = Return ()
  ∧ Forall2 (λ t c, (run (dec 0.25)).2 !!! t
                    = interpolate (dec 0.25) (example_heap !!! c)
                                  (example_heap !!! t))
            (net_params example_target) (net_params example_current)
  ∧ state_dict example_target (run 1).2
    = state_dict example_current example_heap
  ∧ state_dict example_target (run 0).2
    = state_dict example_target example_heap.
Proof.
  apply soft_update_interpolates; compute_done.
Defined.

Lemma soft_update_frame_any (h : heap) (target_net current_net : value)
    (tau : Qc) (l : loc) :
  (∀ t, target_net = VNet t → l ∉ net_params t) →
  (AgentBase.soft_update target_net current_net tau h).2 !! l = h !! l.
Proof.
  intros Hl.
  destruct target_net as [| | | |t| | | | | |]; try done.
  destruct current_net as [| | | |c| | | | | |]; try done.
  rewrite soft_update_networks.
  destruct (for_each _ _ h) as [r h'] eqn:Hrun. simpl.
  eapply soft_update_loop_frame; [exact Hrun|].
  intros Hin. eapply (Hl t); [done|].
  apply list_elem_of_fmap in Hin as ([t' c'] & -> & Hin).
  by apply elem_of_zip_l in Hin.
Qed.

(** C10.  For every [tau], [soft_update(target_net, current_net, tau)]
    leaves every parameter of [current_net] unchanged: whatever the outcome
    of the call, only tensors that are parameters of [target_net] are
    written.  The current network shares no parameter tensor with the
    target, which is a [deepcopy]. *)
Theorem soft_update_leaves_current (h : heap) (target current : network)
    (tau : Qc) :
  Forall (λ l, l ∉ net_params target) (net_params current) →
  let h' := (AgentBase.soft_update (VNet target) (VNet current) tau h).2 in
  state_dict current h' = state_dict current h
  ∧ ∀ l, l ∉ net_params target → h' !! l = h !! l.
Proof.
  intros Hdisj h'. rewrite Forall_forall in Hdisj.
  assert (Hframe : ∀ l, l ∉ net_params target → h' !! l = h !! l).
  { intros l Hl. apply soft_update_frame_any. by intros t [= <-]. }
  split; [|exact Hframe].
  unfold state_dict. apply list_fmap_ext. intros i l Hi.
  rewrite !lookup_total_alt, Hframe; [done|].
  apply Hdisj. by eapply list_elem_of_lookup_2.
Qed.

(** C10 at the example of C1. *)
Lemma soft_update_leaves_current_witness :
  Forall (λ l, l ∉ net_params example_target) (net_params example_current)
  ∧ let h' := (AgentBase.soft_update (VNet example_target)
                 (VNet example_current) (dec 0.25) example_heap).2 in
    state_dict example_current h' = state_dict example_current example_heap
    ∧ ∀ l, l ∉ net_params example_target → h' !! l = example_heap !! l.
Proof.
  assert (H : Forall (λ l, l ∉ net_params example_target)
                     (net_params example_current)) by compute_done.
  split; [exact H|]. exact (soft_update_leaves_current _ _ _ _ H).
Defined.

(** ** A weakest-precondition calculus for methods *)

Lemma wp_bind {S A B} (m : M S A) (f : A → M S B) Q (s : S) :
  wp m (λ r s', match r with
                | Return a => wp (f a) Q s'
                | Raise e => Q (Raise e) s'
                end) s →
  wp (m ≫= f) Q s.
Proof.
  unfold wp. rewrite run_bind. by destruct (m s) as [[a|e] s'].
Qed.

Lemma wp_mono {S A} (c : M S A) (Q Q' : outcome A → S → Prop) (s : S) :
  wp c Q s → (∀ r s', Q r s' → Q' r s') → wp c Q' s.
Proof. unfold wp. auto. Qed.

Lemma wp_ret {S A} (a : A) Q (s : S) : Q (Return a) s → wp (mret a) Q s.
Proof. done. Qed.

Lemma wp_raise {S A} (e : exn) (Q : outcome A → S → Prop) (s : S) :
  Q (Raise e) s → wp (raise e) Q s.
Proof. done. Qed.

Lemma wp_lift {S A} (o : outcome A) Q (s : S) : Q o s → wp (lift o) Q s.
Proof. done. Qed.

Lemma wp_reads {S A} (f : S → A) Q (s : S) :
  Q (Return (f s)) s → wp (reads f) Q s.
Proof. done. Qed.

Lemma wp_modify {S} (f : S → S) Q (s : S) :
  Q (Return ()) (f s) → wp (modify f) Q s.
Proof. done. Qed.

Lemma wp_getattr (name : string) Q (w : world) :
  match w_self w !! name with
  | Some v => Q (Return v) w
  | None => Q (Raise AttributeError) w
  end →
  wp (getattr name) Q w.
Proof. unfold wp, getattr. by destruct (w_self w !! name). Qed.

Lemma wp_setattr (name : string) (v : value) Q (w : world) :
  Q (Return ()) (set_self (<[name := v]>) w) → wp (setattr name v) Q w.
Proof. done. Qed.

Lemma wp_emit (e : event) Q (w : world) :
  Q (Return ()) (set_trace (λ t, t ++ [e]) w) → wp (emit e) Q w.
Proof. done. Qed.

(** Allocation always succeeds and only adds tensors. *)
Lemma alloc_all_returns (ts : list tensor) (h : heap) :
  ∃ ls h', alloc_all ts h = (Return ls, h').
Proof.
  revert h. induction ts as [|t ts IH]; intros h; simpl.
  - by eexists _, _.
  - rewrite run_bind. simpl.
    destruct (IH (<[fresh (dom h) := t]> h)) as (ls & h' & Hrun).
    rewrite run_bind, Hrun. by eexists _, _.
Qed.

Lemma wp_on_heap_alloc_all (ts : list tensor) Q (w : world) :
  (∀ ls h', Q (Return ls) (set_heap (λ _, h') w)) →
  wp (on_heap (alloc_all ts)) Q w.
Proof.
  intros HQ. unfold wp, on_heap.
  destruct (alloc_all_returns ts (w_heap w)) as (ls & h' & ->). apply HQ.
Qed.

Lemma wp_construct (E : externals) (cls : net_class) (dims : list nat) Q
    (w : world) :
  (∀ ls h', Q (Return (Net cls ls))
              (set_heap (λ _, h') (set_rng S w))) →
  wp (construct E cls dims) Q w.
Proof.
  intros HQ. unfold construct.
  apply wp_bind, wp_reads, wp_bind, wp_modify, wp_bind, wp_on_heap_alloc_all.
  intros ls h'. apply wp_ret, HQ.
Qed.

Lemma wp_deepcopy (v : value) Q (w : world) :
  (∀ n, v = VNet n →
        ∀ ls h', Q (Return (VNet (Net (net_class_of n) ls)))
                   (set_heap (λ _, h') w)) →
  ((∀ n, v ≠ VNet n) → Q (Return v) w) →
  wp (deepcopy v) Q w.
Proof.
  intros Hnet Hother. destruct v as [| | | |n| | | | | |];
    try (apply wp_ret, Hother; done).
  unfold deepcopy. apply wp_bind. unfold wp, on_heap.
  rewrite run_bind. unfold reads.
  destruct (alloc_all_returns (state_dict n (w_heap w)) (w_heap w))
    as (ls & h' & ->).
  simpl. by apply Hnet.
Qed.

Lemma wp_deepcopy_net (n : network) Q (w : world) :
  (∀ ls h', Q (Return (VNet (Net (net_class_of n) ls)))
              (set_heap (λ _, h') w)) →
  wp (deepcopy (VNet n)) Q w.
Proof.
  intros HQ. apply wp_deepcopy; [|by intros Hn; destruct (Hn n)].
  by intros ? [= <-].
Qed.

(** One step of symbolic execution. *)
Ltac wp_step :=
  lazymatch goal with
  | |- wp (_ ≫= _) _ _ => apply wp_bind
  | |- wp (mret _) _ _ => apply wp_ret
  | |- wp (raise _) _ _ => apply wp_raise
  | |- wp (lift _) _ _ => apply wp_lift
  | |- wp (reads _) _ _ => apply wp_reads
  | |- wp (modify _) _ _ => apply wp_modify
  | |- wp (setattr _ _) _ _ => apply wp_setattr
  | |- wp (emit _) _ _ => apply wp_emit
  | |- wp (print _) _ _ => apply wp_emit
  | |- wp (construct _ _ _) _ _ => apply wp_construct; intros ? ?
  | |- wp (deepcopy (VNet _)) _ _ => apply wp_deepcopy_net; intros ? ?
  | |- wp (parameters _) _ _ => progress cbn [parameters]
  | |- wp (as_float _) _ _ => progress cbn [as_float]
  | |- wp (as_int _) _ _ => progress cbn [as_int]
  | |- wp (call _ _ _) _ _ => progress cbn [call]
  | |- wp (unpack1 _) _ _ => progress cbn [unpack1]
  | |- wp (unpack2 _) _ _ => progress cbn [unpack2]
  | |- wp (unpack5 _) _ _ => progress cbn [unpack5]
  | |- wp (unpack6 _) _ _ => progress cbn [unpack6]
  | |- wp (buffer_sample_batch _ _) _ _ => unfold buffer_sample_batch
  | |- wp (if ?b then _ else _) _ _ => destruct b
  | |- wp (getattr _) _ _ =>
      apply wp_getattr;
      cbn [w_self set_self set_heap set_rng set_trace set_files];
      repeat first [rewrite lookup_insert_eq | rewrite lookup_insert_ne by done]
  end.

(** ** [AgentDoubleDQN.init] *)

(** C8.  [AgentDoubleDQN.init] on a freshly constructed agent: the claim
    says it succeeds and binds the critic optimiser to the shared network.
    The code reads [self.act.parameters()] while [self.act] is still [None],
    two lines before [self.act = self.cri]: the call raises
    [AttributeError], leaving no optimiser and no actor. *)
Theorem DoubleDQN_init_raises (E : externals) (w : world)
    (net_dim state_dim action_dim : nat) (if_per : bool) :
  let r := (AgentDoubleDQN.__init__;;
            AgentDoubleDQN.init E net_dim state_dim action_dim if_per) w in
  r.1 = Raise AttributeError
  ∧ w_self r.2 !! "cri_optimizer" = Some VNone
  ∧ w_self r.2 !! "act" = Some VNone.
Proof.
  change (wp (AgentDoubleDQN.__init__;;
              AgentDoubleDQN.init E net_dim state_dim action_dim if_per)
             (λ r w', r = Raise AttributeError
                      ∧ w_self w' !! "cri_optimizer" = Some VNone
                      ∧ w_self w' !! "act" = Some VNone) w).
  unfold AgentDoubleDQN.__init__, AgentDQN.__init__, AgentBase.__init__,
    AgentDoubleDQN.init.
  repeat wp_step.
  cbn [w_self set_self set_heap set_rng set_trace set_files].
  split; [done|].
  split; repeat first [rewrite lookup_insert_eq | rewrite lookup_insert_ne by done]; done.
Qed.

(** ** [AgentDQN]: the critic objective *)

(** C2.  The claim says both objectives of the plain DQN agent compute the
    label [reward + mask * next_q].  Both read
    [self.act_target(next_s)] first, and [AgentDQN] never binds
    [act_target]: on the agent that [__init__] and [init] build, whatever
    the networks and the buffer are, the method bound to [get_obj_critic]
    raises before any label exists: [TypeError] ([None] is not callable) once
    the sampled tuple unpacks, [ValueError] when it does not. *)
Theorem DQN_objective_raises (E : externals) (w : world)
    (net_dim state_dim action_dim : nat) (batch_size : Z) :
  let agent if_per :=
    AgentDQN.__init__;; AgentDQN.init E net_dim state_dim action_dim if_per in
  let sample := sample_batch E (S (w_rng w)) batch_size in
  ((agent false;; AgentDQN.get_obj_critic E batch_size) w).1
  = Raise (if decide (length sample = 5%nat) then TypeError else ValueError)
  ∧ ((agent true;; AgentDQN.get_obj_critic E batch_size) w).1
    = Raise (if decide (length sample = 6%nat) then TypeError else ValueError).
Proof.
  intros agent sample. split.
  - change (wp (agent false;; AgentDQN.get_obj_critic E batch_size)
              (λ r _, r = Raise (if decide (length sample = 5%nat)
                                 then TypeError else ValueError)) w).
    unfold agent, AgentDQN.__init__, AgentBase.__init__, AgentDQN.init,
      AgentDQN.get_obj_critic.
    repeat wp_step. unfold AgentDQN.get_obj_critic_raw. repeat wp_step.
    cbn [w_rng w_self set_self set_heap set_rng set_trace set_files].
    fold sample.
    destruct sample as [|a [|b [|c [|d [|e [|f s]]]]]]; try done.
    repeat wp_step. done.
  - change (wp (agent true;; AgentDQN.get_obj_critic E batch_size)
              (λ r _, r = Raise (if decide (length sample = 6%nat)
                                 then TypeError else ValueError)) w).
    unfold agent, AgentDQN.__init__, AgentBase.__init__, AgentDQN.init,
      AgentDQN.get_obj_critic.
    repeat wp_step. unfold AgentDQN.get_obj_critic_per. repeat wp_step.
    cbn [w_rng w_self set_self set_heap set_rng set_trace set_files].
    fold sample.
    destruct sample as [|a [|b [|c [|d [|e [|f [|g s]]]]]]]; try done.
    repeat wp_step. done.
Qed.

(** ** [AgentDDPG.select_action] *)

Ltac wp_auto :=
  repeat first
    [ wp_step
    | lazymatch goal with
      | |- wp (match ?v with _ => _ end) _ _ => destruct v
      | |- match ?x with _ => _ end => destruct x
      | |- wp (call_method _ _ _ _) _ _ => unfold call_method
      | |- wp (call _ ?v _) _ _ => destruct v
      | |- wp (as_float ?v) _ _ => destruct v
      | |- wp (as_int ?v) _ _ => destruct v
      | |- wp (parameters ?v) _ _ => destruct v
      | |- wp (unpack1 _) _ _ => unfold unpack1
      | |- wp (unpack2 _) _ _ => unfold unpack2
      | |- wp (unpack5 _) _ _ => unfold unpack5
      | |- wp (unpack6 _) _ _ => unfold unpack6
      | |- wp (let '(_, _) := ?p in _) _ _ => destruct p
      end ].

Lemma ratio_clip_is_no_method (a : tensor) (args : list Qc) :
  ndarray_call a "ratio_clip" args = Raise AttributeError.
Proof. reflexivity. Qed.

(** C5.  The claim says [select_action] of DDPG returns the clipped noisy
    action.  The code ends with [(action + self.ou_noise()).ratio_clip(-1,
    1)], and a numpy array has no method [ratio_clip]: from no world and
    for no state does the call return, and on a DDPG agent out of
    [__init__] and [init] it raises [AttributeError] after the noise was
    drawn. *)
Theorem DDPG_select_action_never_returns (E : externals) (w : world)
    (state : tensor) :
  (∀ action, (AgentDDPG.select_action E state w).1 ≠ Return action)
  ∧ ((AgentDDPG.__init__;;
      AgentDDPG.init (example_externals false) 8 4 1 false;;
      AgentDDPG.select_action (example_externals false) [0; 0; 0; 0])
       empty_world).1 = Raise AttributeError.
Proof.
  split; [|by vm_compute].
  change (wp (AgentDDPG.select_action E state)
             (λ r _, ∀ action, r ≠ Return action) w).
  unfold AgentDDPG.select_action, AgentDDPG.call_ou_noise.
  wp_auto; try done.
Qed.

(** ** The prioritised objective of the twin value-based agents *)

(** C6.  The claim says that in PER mode the objective of DoubleDQN and D3QN
    pushes [|label - min(Q1, Q2)|] to the buffer.  The code of
    [AgentDoubleDQN.get_obj_critic_per], which D3QN inherits, never calls
    [buffer.td_error_update]: from every world it leaves the trace as it
    was.  On the example transition a D3QN agent returns the weighted mean
    loss 1.02 and pushes nothing, where the twin objective of TD3 pushes
    the priority 0.8. *)
Theorem DoubleDQN_per_pushes_no_priority (E : externals) (w : world)
    (batch_size : Z) :
  w_trace (AgentDoubleDQN.get_obj_critic_per E batch_size w).2 = w_trace w
  ∧ (let r := (AgentD3QN.__init__;;
               AgentD3QN.init (example_externals true) 8 4 2 true;;
               AgentD3QN.get_obj_critic (example_externals true) 1)
                empty_world in
     r.1 = Return ([[dec 1.02]], [[2]]) ∧ w_trace r.2 = [])
  ∧ (let r := (AgentTD3.__init__;;
               AgentTD3.init (example_externals true) 8 4 2 true;;
               AgentTD3.get_obj_critic (example_externals true) 1)
                empty_world in
     r.1 = Return ([[dec 1.02]], [[dec 5]])
     ∧ w_trace r.2 = [EvTdErrorUpdate [[dec 0.8]]]).
Proof.
  split; [|split; split; compute_done].
  change (wp (AgentDoubleDQN.get_obj_critic_per E batch_size)
             (λ _ w', w_trace w' = w_trace w) w).
  unfold AgentDoubleDQN.get_obj_critic_per, call_criterion.
  wp_auto; try done.
Qed.

(** ** [AgentBase.save_load_model] *)

Lemma foldr_insert_lookup_ne (ps : list (loc * tensor)) (h : heap) (l : loc) :
  l ∉ ps.*1 →
  foldr (λ p : loc * tensor, <[p.1 := p.2]>) h ps !! l = h !! l.
Proof.
  induction ps as [|[k t] ps IH]; [done|].
  rewrite fmap_cons, not_elem_of_cons. intros [Hne Hl]. simpl.
  rewrite lookup_insert_ne by done. by apply IH.
Qed.

(** Loading a state dict into a network writes to its parameters only. *)
Lemma load_state_dict_frame (net : value) (d : list tensor) (w : world)
    (l : loc) :
  (∀ n, net = VNet n → l ∉ net_params n) →
  w_heap (AgentBase.load_state_dict net d w).2 !! l = w_heap w !! l.
Proof.
  intros Hl. destruct net as [| | | |n| | | | | |]; try done.
  unfold AgentBase.load_state_dict, on_heap. case_decide; [|done].
  cbn. apply foldr_insert_lookup_ne. intros Hin. apply (Hl n); [done|].
  apply list_elem_of_fmap in Hin as ([k t] & -> & Hin).
  by apply elem_of_zip_l in Hin.
Qed.

(** Whenever the actor's file exists, loading stops after the actor: the
    parameters of a critic that is a network of its own stay as they
    were. *)
Lemma load_skips_critic (w : world) (cwd : string) (a c : network) :
  w_self w !! "act" = Some (VNet a) →
  w_self w !! "cri" = Some (VNet c) →
  is_Some (w_files w !! (cwd +:+ "/actor.pth")) →
  Forall (λ l, l ∉ net_params a) (net_params c) →
  state_dict c (w_heap (AgentBase.save_load_model cwd false w).2)
  = state_dict c (w_heap w).
Proof.
  intros Hact Hcri [d Hfile] Hdisj. rewrite Forall_forall in Hdisj.
  unfold state_dict. apply list_fmap_ext. intros i l Hi.
  rewrite !lookup_total_alt. f_equal.
  assert (Hl : l ∉ net_params a).
  { apply Hdisj. by eapply list_elem_of_lookup_2. }
  unfold AgentBase.save_load_model.
  rewrite run_bind. unfold getattr at 1. rewrite Hact.
  rewrite run_bind. unfold AgentBase.path_exists at 1, reads.
  rewrite Hfile, bool_decide_true by eauto. cbn [andb].
  rewrite bool_decide_true by done.
  rewrite run_bind. unfold AgentBase.load_torch_file.
  rewrite run_bind. unfold AgentBase.torch_load. rewrite Hfile.
  pose proof (load_state_dict_frame (VNet a) d w l) as Hframe.
  destruct (AgentBase.load_state_dict (VNet a) d w) as [[[]|e] w'] eqn:Hload;
    cbn in *; apply Hframe; by intros ? [= <-].
Qed.

(** C3.  The claim says a load restores both the actor and the critic when
    their files exist.  Saving does write both parameter sets, and a load
    without files only prints.  But the load is one [if/elif] chain: once
    the actor's file is found the critic's branch is not taken.  A trained
    agent (actor 5, critic 6) saves both files; a fresh agent of the same
    architecture (actor 1, critic 2) then loads: its actor becomes 5, its
    critic stays 2, and only the actor is reported. *)
Theorem save_load_model_restores_actor_only :
  let saved := AgentBase.save_load_model "run" true trained_world in
  let fresh := set_heap (λ _, untrained_heap) saved.2 in
  let loaded := AgentBase.save_load_model "run" false fresh in
  let nofile := AgentBase.save_load_model "run" false
                  (set_heap (λ _, untrained_heap) trained_world) in
  (saved.1 = Return ()
   ∧ w_files saved.2 !! "run/actor.pth" = Some [[dec 5]]
   ∧ w_files saved.2 !! "run/critic.pth" = Some [[dec 6]])
  ∧ (loaded.1 = Return ()
     ∧ state_dict example_actor (w_heap loaded.2) = [[dec 5]]
     ∧ state_dict example_critic (w_heap loaded.2) = [[2]]
     ∧ w_trace loaded.2 = [EvPrint "Loaded act: run"])
  ∧ (nofile.1 = Return ()
     ∧ w_heap nofile.2 = untrained_heap
     ∧ w_trace nofile.2 = [EvPrint "FileNotFound when load_model: run"]).
Proof. repeat split; compute_done. Qed.

(** ** [gaussian_kl] *)

Lemma outcome_bind_return {A B} (a : A) (f : A → outcome B) :
  (Return a ≫= f) = f a.
Proof. reflexivity. Qed.

Lemma mean_list_singleton (x : Qc) : mean_list [x] = x.
Proof.
  unfold mean_list. simpl.
  replace (Qc_of_nat 1) with 1 by compute_done. field. compute_done.
Qed.

(** Evaluate a closed subterm of the goal. *)
Ltac eval_to t v := replace t with v by (symmetry; compute_done).

(** C7.  The claim says the second output of [gaussian_kl] is the
    covariance term [1/2 (log(det Sigma / det Sigma_i) - n + tr(Sigma^{-1}
    Sigma_i))], as the docstring of the function says too.  The code takes
    the determinants and the trace of the inverses instead:
    [log(det Sigma^{-1} / det Sigma_i^{-1}) - n + tr(Sigma_i^{-1}
    Sigma^{-1})].  For two Gaussians in dimension 1 with the same factor
    [A_i = A = 2] and means 0 and 1, whatever [torch.log] is, the first
    output is the mean term 1/8 of the closed form, and the second is
    [log(1)/2 - 15/32] where the closed form gives [log(1)/2]: a negative
    divergence between equal covariances. *)
Theorem gaussian_kl_covariance_term_differs (E : externals) :
  gaussian_kl E [[0]] [[1]] [[[2]]] [[[2]]]
  = Return (dec 0.125, dec 0.5 * torch_log E 1 - dec (15 # 32))
  ∧ kl_closed_form E [[0]] [[1]] [[[2]]] [[[2]]]
    = Return (dec 0.125, dec 0.5 * torch_log E 1).
Proof.
  split.
  - unfold gaussian_kl. cbv zeta.
    eval_to (bzip matmul [[[2]]] (bt [[[2]]])) (Return [[[dec 4]]]).
    rewrite !outcome_bind_return.
    eval_to (mapM inverse [[[dec 4]]]) (Return [[[dec 0.25]]]).
    rewrite !outcome_bind_return.
    eval_to (bzip batch_sub (unsqueeze_last [[1]]) (unsqueeze_last [[0]]))
            (Return [[[1]]]).
    rewrite !outcome_bind_return.
    eval_to (bzip matmul (bt [[[1]]]) [[[dec 0.25]]]) (Return [[[dec 0.25]]]).
    rewrite !outcome_bind_return.
    eval_to (bzip matmul [[[dec 0.25]]] [[[1]]]) (Return [[[dec 0.25]]]).
    rewrite !outcome_bind_return.
    eval_to (mapM det [[[dec 0.25]]]) (Return [dec 0.25]).
    rewrite !outcome_bind_return.
    eval_to (tensor_div [dec 0.25] [dec 0.25]) (Return [1]).
    rewrite !outcome_bind_return.
    eval_to (bzip matmul [[[dec 0.25]]] [[[dec 0.25]]])
            (Return [[[dec (1 # 16)]]]).
    rewrite !outcome_bind_return.
    eval_to (btr [[[dec (1 # 16)]]]) [dec (1 # 16)].
    eval_to (size_last [[[2]]]) 1%nat.
    eval_to (squeeze [[[dec 0.25]]]) [dec 0.25].
    change (tensor_add ((λ x, torch_log E x - Qc_of_nat 1) <$> [1])
                       [dec (1 # 16)])
      with (Return [torch_log E 1 - Qc_of_nat 1 + dec (1 # 16)]).
    rewrite outcome_bind_return. unfold mret, outcome_ret.
    rewrite !mean_list_singleton. f_equal. f_equal; [compute_done|].
    eval_to (Qc_of_nat 1) 1.
    eval_to (dec (15 # 32)) (dec 0.5 * (1 - dec (1 # 16))). ring.
  - unfold kl_closed_form.
    eval_to (mapM (λ p : tensor * tensor * matrix,
                     kl_mean_inner p.1.1 p.1.2 p.2)
                  (zip (zip [[0]] [[1]]) [[[2]]]))
            (Return [dec 0.25]).
    rewrite outcome_bind_return.
    change (mapM (λ p : matrix * matrix, kl_cov_inner E p.1 p.2)
                 (zip [[[2]]] [[[2]]]))
      with (x ← kl_cov_inner E [[2]] [[2]]; Return [x]).
    unfold kl_cov_inner.
    eval_to (matmul [[2]] (transpose [[2]])) (Return [[dec 4]]).
    rewrite !outcome_bind_return.
    eval_to (inverse [[dec 4]]) (Return [[dec 0.25]]).
    rewrite !outcome_bind_return.
    eval_to (det [[dec 4]]) (Return (dec 4)).
    rewrite !outcome_bind_return.
    eval_to (matmul [[dec 0.25]] [[dec 4]]) (Return [[1]]).
    rewrite !outcome_bind_return.
    eval_to (trace_of [[1]]) 1.
    eval_to (dec 4 / dec 4) 1.
    eval_to (Qc_of_nat (length [[2]])) 1.
    unfold mret, outcome_ret.
    rewrite !mean_list_singleton. f_equal. f_equal; [compute_done|]. ring.
Qed.

(** ** [AgentPPO]: the two advantage estimators *)

(** C9.  On the trajectory with rewards [1, 1, 1], masks [1, 1, 0] and
    values [0, 0, 0], whatever [torch.empty] leaves in the buffers, both
    recursions return, with the same reward-to-go, and the advantages of
    [compute_reward_gae] with [lambda = 1] before standardisation are those
    of [compute_reward_adv] before standardisation, [3, 2, 1]: entry by
    entry they are closer than 1e-5. *)
Theorem gae_lambda_1_is_reward_to_go (E : externals) :
  let buf_reward := [[1]; [1]; [1]] in
  let buf_mask := [[1]; [1]; [0]] in
  let buf_value := [[0]; [0]; [0]] in
  ∃ r_ret adv_plain adv_gae,
    AgentPPO.compute_reward_adv_pre E 3 buf_reward buf_mask buf_value
    = Return (r_ret, adv_plain)
    ∧ AgentPPO.compute_reward_gae_pre E 1 3 buf_reward buf_mask buf_value
      = Return (r_ret, adv_gae)
    ∧ adv_plain = [[dec 3]; [2]; [1]]
    ∧ Forall2 (Forall2 (λ g p, Qcabs (g - p) < dec 1e-5)) adv_gae adv_plain.
Proof.
  intros buf_reward buf_mask buf_value.
  exists [[dec 3]; [2]; [1]], [[dec 3]; [2]; [1]], [[dec 3]; [2]; [1]].
  repeat split; compute_done.
Qed.

(** ** [AgentTD3.update_net]: which networks are updated when *)

Lemma updates_app (t1 t2 : list event) :
  updates (t1 ++ t2) = updates t1 ++ updates t2.
Proof. apply filter_app. Qed.

Lemma extends_refl (w : world) : extends w [] w.
Proof. split; [done|]. by rewrite app_nil_r. Qed.

Lemma extends_trans (w0 w1 w2 : world) (e1 e2 : list event) :
  extends w0 e1 w1 → extends w1 e2 w2 → extends w0 (e1 ++ e2) w2.
Proof.
  intros [Hs1 Ht1] [Hs2 Ht2]. split; [congruence|].
  by rewrite Ht2, Ht1, app_assoc.
Qed.

Lemma extends_silent (w0 w1 w2 : world) (evs : list event) :
  extends w0 evs w1 → extends w1 [] w2 → extends w0 evs w2.
Proof.
  intros H1 H2. rewrite <-(app_nil_r evs). by eapply extends_trans.
Qed.

(** Changes of the heap, the generator and the files are silent, and so is
    a priority pushed to the buffer. *)
Lemma extends_set_heap (w : world) f : extends w [] (set_heap f w).
Proof. split; [done|]. cbn. by rewrite app_nil_r. Qed.
Lemma extends_set_rng (w : world) f : extends w [] (set_rng f w).
Proof. split; [done|]. cbn. by rewrite app_nil_r. Qed.
Lemma extends_td_error (w : world) (td : batch) :
  extends w [] (set_trace (λ t, t ++ [EvTdErrorUpdate td]) w).
Proof.
  split; [done|]. cbn. rewrite updates_app. done.
Qed.

Lemma silent_wp {A} (c : M world A) :
  silent c ↔ ∀ w, wp c (λ _ w', extends w [] w') w.
Proof. done. Qed.

Lemma wp_silent {A} (c : M world A) Q (w0 w : world) (evs : list event) :
  silent c →
  extends w0 evs w →
  (∀ r w', extends w0 evs w' → Q r w') →
  wp c Q w.
Proof.
  intros Hc Hw HQ. apply HQ. eapply extends_silent; [done|]. apply Hc.
Qed.

Ltac extends_solve :=
  first
    [ done
    | split; [reflexivity|];
      cbn [w_trace set_trace set_rng set_heap set_self set_files];
      rewrite ?updates_app, ?app_nil_r; reflexivity ].

Lemma TD3_get_obj_critic_silent (E : externals) (batch_size : Z) :
  silent (AgentTD3.get_obj_critic E batch_size).
Proof.
  apply silent_wp. intros w.
  unfold AgentTD3.get_obj_critic, AgentTD3.get_obj_critic_raw,
    AgentTD3.get_obj_critic_per, call_criterion, buffer_td_error_update.
  wp_auto; extends_solve.
Qed.

Lemma foldr_insert_self (w : world) (ps : list (loc * tensor)) :
  w_self (set_heap (λ h, foldr (λ p : loc * tensor, <[p.1 := p.2]>) h ps) w)
  = w_self w.
Proof. reflexivity. Qed.

(** An optimiser step that returns is one update; one that raises is none. *)
Lemma wp_optimizer_step (E : externals) (attr : string) Q (w0 w : world)
    (evs : list event) :
  extends w0 evs w →
  (∀ w', extends w0 (evs ++ [EvOptimStep attr]) w' → Q (Return ()) w') →
  (∀ e w', extends w0 evs w' → Q (Raise e) w') →
  wp (optimizer_step E attr) Q w.
Proof.
  intros Hw Hret Hraise. unfold optimizer_step.
  apply wp_bind, wp_getattr.
  destruct (w_self w !! attr) as [v|]; [|by apply Hraise].
  destruct v; try (apply wp_raise; by apply Hraise).
  repeat wp_step. apply Hret.
  eapply extends_trans; [exact Hw|].
  split; [reflexivity|].
  cbn [w_trace set_trace set_rng set_heap set_self set_files].
  by rewrite updates_app.
Qed.

(** A soft update that returns is one update; one that raises may have
    started. *)
Lemma wp_self_soft_update (target current : string) Q (w0 w : world)
    (evs : list event) :
  extends w0 evs w →
  (∀ w', extends w0 (evs ++ [EvSoftUpdate target current]) w' →
         Q (Return ()) w') →
  (∀ e w', extends w0 evs w'
           ∨ extends w0 (evs ++ [EvSoftUpdate target current]) w' →
           Q (Raise e) w') →
  wp (AgentBase.self_soft_update target current) Q w.
Proof.
  intros Hw Hret Hraise. unfold AgentBase.self_soft_update.
  assert (Hafter : ∀ h, extends w0 (evs ++ [EvSoftUpdate target current])
            (set_heap (λ _, h)
               (set_trace (λ t, t ++ [EvSoftUpdate target current]) w))).
  { intros h. eapply extends_trans; [exact Hw|]. split; [reflexivity|].
    cbn [w_trace set_trace set_rng set_heap set_self set_files].
    by rewrite updates_app. }
  wp_auto; try (apply Hraise; by left).
  all: unfold wp, on_heap;
    cbn [w_heap set_trace set_heap set_self set_rng set_files];
    match goal with
    | |- context [AgentBase.soft_update ?t ?c ?q ?h] =>
        destruct (AgentBase.soft_update t c q h) as [[[]|e] h']
    end; cbn [fst snd]; first [apply Hret | apply Hraise; right]; apply Hafter.
Qed.

Lemma wp_is_delayed_step (i f : Z) Q (w : world) :
  w_self w !! "update_freq" = Some (VInt f) →
  Q (Return (bool_decide (i mod f = 0)%Z)) w →
  (∀ e, Q (Raise e) w) →
  wp (AgentTD3.is_delayed_step i) Q w.
Proof.
  intros Hf Hret Hraise. unfold AgentTD3.is_delayed_step.
  apply wp_bind, wp_getattr. rewrite Hf. repeat wp_step.
  unfold py_mod. destruct (decide (f = 0%Z)); [apply Hraise|].
  by repeat wp_step.
Qed.

Lemma zero_grad_silent (attr : string) : silent (zero_grad attr).
Proof.
  apply silent_wp. intros w. unfold zero_grad. wp_auto; extends_solve.
Qed.

Lemma getattr_silent (name : string) : silent (getattr name).
Proof. apply silent_wp. intros w. wp_auto; extends_solve. Qed.

Lemma call_silent (E : externals) (v : value) (args : list arg) :
  silent (call E v args).
Proof. apply silent_wp. intros w. wp_auto; extends_solve. Qed.

Lemma unpack1_silent (r : list batch) : silent (unpack1 r).
Proof. apply silent_wp. intros w. wp_auto; extends_solve. Qed.

Lemma ret_silent {A} (a : A) : silent (mret a).
Proof. apply silent_wp. intros w. wp_auto; extends_solve. Qed.

(** A raising leaf: the updates so far are a prefix of the turn. *)
Ltac leaf :=
  lazymatch goal with
  | H : extends _ ?evs ?w' |- ∃ p, _ ∧ extends _ p ?w' =>
      exists evs; split; [by eexists|exact H]
  | H : extends _ _ ?w' ∨ extends _ _ ?w' |- ∃ p, _ ∧ extends _ p ?w' =>
      destruct H as [H|H]; eexists; (split; [|exact H]); by eexists
  end.

(** Step over a silent computation, in the world of the latest [extends]. *)
Tactic Notation "step_silent" constr(lem) "as" simple_intropattern(pat) :=
  apply wp_bind;
  lazymatch goal with
  | H : extends _ _ ?w |- wp _ _ ?w =>
      eapply wp_silent; [apply lem|exact H|];
      let H' := fresh "H" in
      clear H; intros pat ? H'; [|leaf]
  end.

Ltac step_optimizer :=
  apply wp_bind;
  lazymatch goal with
  | H : extends _ _ ?w |- wp _ _ ?w =>
      let H' := fresh "H" in
      eapply wp_optimizer_step; [exact H|clear H; intros ? H'|intros ? ? H'; leaf];
      cbn [app] in H'
  end.

Ltac step_soft_update :=
  apply wp_bind;
  lazymatch goal with
  | H : extends _ _ ?w |- wp _ _ ?w =>
      let H' := fresh "H" in
      eapply wp_self_soft_update;
        [exact H|clear H; intros ? H'|intros ? ? H'; leaf];
      cbn [app] in H'
  end.

(** One turn of the loop: the updates of [actual_turn] when it returns, some
    of the first of them when it raises. *)
Lemma update_net_body_spec (E : externals) (batch_size i f : Z)
    (locals : option batch * option batch) (w : world) :
  w_self w !! "update_freq" = Some (VInt f) →
  wp (AgentTD3.update_net_body E batch_size i locals)
     (λ r w', match r with
              | Return _ => extends w (actual_turn f i) w'
              | Raise _ => ∃ p, p `prefix_of` actual_turn f i ∧ extends w p w'
              end) w.
Proof.
  intros Hf. unfold AgentTD3.update_net_body, actual_turn.
  assert (Hfreq : ∀ evs w', extends w evs w' →
                  w_self w' !! "update_freq" = Some (VInt f)).
  { intros evs w' [-> _]. exact Hf. }
  pose proof (extends_refl w) as H0.
  step_silent TD3_get_obj_critic_silent as [[obj_critic state]|?].
  step_silent zero_grad_silent as [?|?].
  step_silent (ret_silent (A:=unit)) as [?|?].
  step_optimizer.
  apply wp_bind, wp_is_delayed_step with (f := f);
    [by eapply Hfreq| |intros e; leaf].
  destruct (bool_decide (i mod f = 0)%Z) eqn:Hb.
  - step_soft_update.
    step_silent getattr_silent as [act|?].
    step_silent call_silent as [q_value_pg|?].
    step_silent unpack1_silent as [q_value_pg'|?].
    step_silent getattr_silent as [cri_target|?].
    step_silent call_silent as [q|?].
    step_silent unpack1_silent as [q'|?].
    step_silent zero_grad_silent as [?|?].
    step_silent (ret_silent (A:=unit)) as [?|?].
    step_optimizer.
    apply wp_bind, wp_is_delayed_step with (f := f);
      [by eapply Hfreq| |intros e; leaf].
    rewrite Hb.
    step_soft_update.
    by apply wp_ret.
  - step_silent (ret_silent (A:=unit)) as [?|?].
    step_silent getattr_silent as [act|?].
    step_silent call_silent as [q_value_pg|?].
    step_silent unpack1_silent as [q_value_pg'|?].
    step_silent getattr_silent as [cri_target|?].
    step_silent call_silent as [q|?].
    step_silent unpack1_silent as [q'|?].
    step_silent zero_grad_silent as [?|?].
    step_silent (ret_silent (A:=unit)) as [?|?].
    step_optimizer.
    apply wp_bind, wp_is_delayed_step with (f := f);
      [by eapply Hfreq| |intros e; leaf].
    rewrite Hb.
    step_silent (ret_silent (A:=unit)) as [?|?].
    by apply wp_ret.
Qed.

Lemma for_loop_cons {S A L} (x : A) (xs : list A) (acc : L)
    (body : A → L → M S L) :
  for_loop (x :: xs) acc body = (acc' ← body x acc; for_loop xs acc' body).
Proof. reflexivity. Qed.

(** The loop of [update_net]: the turns of the iterations, in order. *)
Lemma update_net_loop_spec (E : externals) (batch_size f : Z) (xs : list Z)
    (locals : option batch * option batch) (w : world) :
  w_self w !! "update_freq" = Some (VInt f) →
  wp (for_loop xs locals (AgentTD3.update_net_body E batch_size))
     (λ r w', match r with
              | Return _ => extends w (concat (actual_turn f <$> xs)) w'
              | Raise _ => ∃ p, p `prefix_of` concat (actual_turn f <$> xs)
                                ∧ extends w p w'
              end) w.
Proof.
  revert locals w. induction xs as [|x xs IH]; intros locals w Hf.
  - apply wp_ret, extends_refl.
  - rewrite for_loop_cons, fmap_cons, concat_cons. apply wp_bind.
    eapply wp_mono; [by apply update_net_body_spec|].
    intros [locals'|e] w1; cbn beta iota.
    + intros H1. eapply wp_mono; [apply IH|].
      * destruct H1 as [-> _]. exact Hf.
      * intros [?|?] w2; cbn beta iota.
        -- intros H2. by eapply extends_trans.
        -- intros (p & Hp & H2). exists (actual_turn f x ++ p). split.
           ++ by apply prefix_app.
           ++ by eapply extends_trans.
    + intros (p & Hp & H1). exists p. split; [|done].
      by apply prefix_app_r.
Qed.

(** What follows the loop writes the record and touches no network. *)
Lemma update_net_tail_trace (locals : option batch * option batch) (w : world) :
  wp (let '(obj_critic, obj_actor) := locals in
      obj_a ← lift (item obj_actor);
      obj_c ← lift (item obj_critic);
      AgentBase.update_record
        [("obj_a"%string, obj_a); ("obj_c"%string, obj_c / 2)];;
      getattr "train_record")
     (λ _ w', w_trace w' = w_trace w) w.
Proof.
  destruct locals as [obj_critic obj_actor].
  unfold AgentBase.update_record. wp_auto; done.
Qed.

(** C4, amended.  In TD3's [update_net], with
    [n = int(target_step * repeat_times)], the critic and the actor are
    both updated by their optimisers on every one of the [n] iterations, and
    the two target networks are soft-updated on the iterations [i] with
    [i % update_freq == 0] only: when the call returns, the updates it made
    are the turns [actual_turn] of the iterations [0 .. n-1], in order; when
    it raises, they are a prefix of these. *)
Theorem TD3_update_net_cadence (E : externals) (w : world)
    (target_step batch_size : Z) (repeat_times : Qc) (update_freq : Z) :
  w_self w !! "update_freq" = Some (VInt update_freq) →
  let n := AgentTD3.iterations target_step repeat_times in
  let turns := concat (actual_turn update_freq <$> py_range n) in
  let r := AgentTD3.update_net E target_step batch_size repeat_times w in
  match r.1 with
  | Return _ => updates (w_trace r.2) = updates (w_trace w) ++ turns
  | Raise _ => ∃ p, p `prefix_of` turns
                    ∧ updates (w_trace r.2) = updates (w_trace w) ++ p
  end.
Proof.
  intros Hf n turns.
  change (wp (AgentTD3.update_net E target_step batch_size repeat_times)
            (λ r w', match r with
                     | Return _ => updates (w_trace w')
                                   = updates (w_trace w) ++ turns
                     | Raise _ => ∃ p, p `prefix_of` turns
                                  ∧ updates (w_trace w')
                                    = updates (w_trace w) ++ p
                     end) w).
  unfold AgentTD3.update_net, buffer_update_now_len_before_sample.
  apply wp_bind, wp_ret, wp_bind.
  eapply wp_mono; [by apply update_net_loop_spec|].
  intros [locals|e] w1; cbn beta iota.
  - intros [_ H1]. eapply wp_mono; [apply update_net_tail_trace|].
    intros [v|e] w2 Htr; cbn beta iota; rewrite Htr; [done|].
    exists turns. by split.
  - intros (p & Hp & [_ H1]). by exists p.
Qed.

(** C4, amended, on the example TD3 agent with three iterations. *)
Lemma TD3_update_net_cadence_witness :
  w_self example_td3_world !! "update_freq" = Some (VInt 2)
  ∧ let n := AgentTD3.iterations 3 1 in
    let turns := concat (actual_turn 2 <$> py_range n) in
    let r := AgentTD3.update_net (example_externals false) 3 1 1
               example_td3_world in
    match r.1 with
    | Return _ =>
        updates (w_trace r.2) = updates (w_trace example_td3_world) ++ turns
    | Raise _ =>
        ∃ p, p `prefix_of` turns
             ∧ updates (w_trace r.2)
               = updates (w_trace example_td3_world) ++ p
    end.
Proof.
  assert (H : w_self example_td3_world !! "update_freq" = Some (VInt 2))
    by (vm_compute; reflexivity).
  split; [exact H|].
  exact (TD3_update_net_cadence (example_externals false) example_td3_world
           3 1 1 2 H).
Defined.

(** C4 as the claim has it fails: with [update_freq = 2] and two
    iterations, the call returns and has stepped the actor's optimiser in
    iteration 1 too, which is not a multiple of 2; the updates are not the
    claimed turns. *)
Lemma TD3_actor_stepped_every_iteration :
  let r := AgentTD3.update_net (example_externals false) 2 1 1
             example_td3_world in
  r.1 = Return (VDict (list_to_map [("obj_a"%string, - 2);
                                    ("obj_c"%string, dec 0.17)]))
  ∧ updates (w_trace r.2)
    = [EvOptimStep "cri_optimizer"; EvSoftUpdate "cri_target" "cri";
       EvOptimStep "act_optimizer"; EvSoftUpdate "act_target" "act";
       EvOptimStep "cri_optimizer"; EvOptimStep "act_optimizer"]
  ∧ updates (w_trace r.2)
    ≠ updates (w_trace example_td3_world)
      ++ concat (claimed_turn 2 <$> py_range (AgentTD3.iterations 2 1)).
Proof. repeat split; compute_done. Qed.

(** In every turn both optimisers step; the soft updates are there on the
    delayed iterations only. *)
Lemma actual_turn_members (update_freq i : Z) :
  EvOptimStep "cri_optimizer" ∈ actual_turn update_freq i
  ∧ EvOptimStep "act_optimizer" ∈ actual_turn update_freq i
  ∧ (EvSoftUpdate "cri_target" "cri" ∈ actual_turn update_freq i
     ↔ (i mod update_freq = 0)%Z)
  ∧ (EvSoftUpdate "act_target" "act" ∈ actual_turn update_freq i
     ↔ (i mod update_freq = 0)%Z).
Proof.
  unfold actual_turn. case_bool_decide as Hmod; simpl;
    rewrite !elem_of_cons, !elem_of_nil; intuition congruence.
Qed.

(** ** What the broken paths would compute *)

(** The arithmetic the claim C2 speaks of is the one the code attempts: once
    [act_target] is bound to a callable from outside, reward 1, mask 0.9 and
    next value 2 give the label 2.8, against which the value 2 of the
    action taken has the squared error 0.64, and 1.92 under the weight 3. *)
Lemma DQN_objective_with_bound_act_target :
  (AgentDQN.get_obj_critic (example_externals false) 1
     (patched_dqn_world false)).1
  = Return ([[dec 0.64]], [[2]])
  ∧ (AgentDQN.get_obj_critic (example_externals true) 1
       (patched_dqn_world true)).1
    = Return ([[dec 1.92]], [[2]]).
Proof. split; compute_done. Qed.

(** [a.clip(lo, hi)], the method the claim C5 speaks of, does bound every
    component. *)
Lemma clip_bounds (lo hi : Qc) (a : tensor) :
  lo ≤ hi → Forall (λ x, lo ≤ x ≤ hi) (clip lo hi a).
Proof.
  intros Hlohi. unfold clip. apply Forall_fmap, Forall_forall.
  intros x _. simpl. unfold Qcmin, Qcmax.
  repeat case_decide; split; try done.
  all: try (apply Qclt_le_weak, Qcnot_le_lt; done).
Qed.

(** * Part III: further properties of the code *)

(** ** [soft_update], continued *)

Lemma approach_0 (tau : Qc) (cur tar : tensor) :
  length cur = length tar → approach tau 0 cur tar = tar.
Proof.
  unfold approach. revert tar.
  induction cur as [|c cur IH]; intros [|t tar] Hlen; simplify_eq/=; [done|].
  f_equal; [ring|by apply IH].
Qed.

Lemma approach_S (tau : Qc) (k : nat) (cur tar : tensor) :
  approach tau k cur (interpolate tau cur tar) = approach tau (S k) cur tar.
Proof.
  unfold approach, interpolate. revert tar.
  induction cur as [|c cur IH]; intros [|t tar]; simpl; try done.
  f_equal; [ring|apply IH].
Qed.

Lemma soft_update_times_S (k : nat) (target current : value) (tau : Qc) :
  soft_update_times (S k) target current tau
  = (AgentBase.soft_update target current tau;;
     soft_update_times k target current tau).
Proof. reflexivity. Qed.

Lemma soft_update_times_run (tau : Qc) (k : nat) (target current : network)
    (h : heap) :
  NoDup (net_params target) →
  Forall (λ l, l ∉ net_params current) (net_params target) →
  Forall2 (λ t c, length (h !!! t) = length (h !!! c))
          (net_params target) (net_params current) →
  ∃ h', soft_update_times k (VNet target) (VNet current) tau h
        = (Return (), h')
        ∧ Forall2 (λ t c, h' !!! t = approach tau k (h !!! c) (h !!! t))
                  (net_params target) (net_params current)
        ∧ Forall (λ c, h' !!! c = h !!! c) (net_params current).
Proof.
  intros Hnd Hdisj. revert h. induction k as [|k IH]; intros h Hshape.
  - exists h. split; [done|]. split.
    + eapply Forall2_impl; [exact Hshape|]. intros t c Hlen. simpl.
      by rewrite approach_0.
    + by apply Forall_forall.
  - rewrite soft_update_times_S, run_bind, soft_update_networks.
    destruct (soft_update_loop_run tau _ _ h Hnd
                (proj1 (Forall_forall _ _) Hdisj) Hshape) as (h1 & Hrun & Hv).
    rewrite Hrun.
    assert (Hcur : Forall (λ c, h1 !!! c = h !!! c) (net_params current)).
    { apply Forall_forall. intros c Hc. rewrite !lookup_total_alt. f_equal.
      eapply soft_update_loop_frame; [exact Hrun|].
      rewrite fst_zip by (apply Forall2_length in Hshape; lia).
      intros Hin. rewrite Forall_forall in Hdisj. by apply (Hdisj c). }
    rewrite Forall_forall in Hcur.
    destruct (IH h1) as (h' & Hrun' & Hv' & Hcur').
    { pose proof (Forall2_conj _ _ _ _ Hv Hshape) as Hboth.
      eapply Forall2_impl_elem; [exact Hboth|].
      intros t c Ht Hc [Heq Hlen]. simpl in *.
      rewrite Heq, (Hcur c Hc). by rewrite length_interpolate. }
    exists h'. split; [done|]. split.
    + pose proof (Forall2_conj _ _ _ _ Hv Hv') as Hboth.
      eapply Forall2_impl_elem; [exact Hboth|].
      intros t c Ht Hc [Heq Heq']. simpl in *.
      rewrite Heq', Heq, (Hcur c Hc). apply approach_S.
    + apply Forall_forall. intros c Hc. rewrite Forall_forall in Hcur'.
      rewrite (Hcur' c Hc). by apply Hcur.
Qed.

(** X1.  [k] soft updates in a row towards an unchanged current network
    return normally and leave every parameter of the target at
    [current + (1 - tau)^k * (target_old - current)], elementwise: the
    target approaches the current network geometrically, and the current
    network is not written. *)
Theorem soft_update_repeated (h : heap) (target current : network)
    (tau : Qc) (k : nat) :
  NoDup (net_params target) →
  Forall (λ l, l ∉ net_params current) (net_params target) →
  Forall2 (λ t c, length (h !!! t) = length (h !!! c))
          (net_params target) (net_params current) →
  let r := soft_update_times k (VNet target) (VNet current) tau h in
  r.1 = Return ()
  ∧ Forall2 (λ t c, r.2 !!! t = approach tau k (h !!! c) (h !!! t))
            (net_params target) (net_params current)
  ∧ state_dict current r.2 = state_dict current h.
Proof.
  intros Hnd Hdisj Hshape r. unfold r.
  destruct (soft_update_times_run tau k _ _ h Hnd Hdisj Hshape)
    as (h' & -> & Hv & Hcur).
  split; [done|]. split; [done|].
  unfold state_dict. apply list_fmap_ext. intros i c Hi.
  rewrite Forall_forall in Hcur. apply Hcur. by eapply list_elem_of_lookup_2.
Qed.

(** X1 on the example heap, with three updates at [tau = 0.25]. *)
Lemma soft_update_repeated_witness :
  let r := soft_update_times 3 (VNet example_target) (VNet example_current)
             (dec 0.25) example_heap in
  r.1 = Return ()
  ∧ Forall2 (λ t c, r.2 !!! t = approach (dec 0.25) 3 (example_heap !!! c)
                                         (example_heap !!! t))
            (net_params example_target) (net_params example_current)
  ∧ state_dict example_current r.2 = state_dict example_current example_heap.
Proof. apply soft_update_repeated; compute_done. Defined.

Lemma zip_take_l {A B} (l : list A) (k : list B) :
  zip l k = zip (take (length k) l) k.
Proof.
  revert k. induction l as [|x l IH]; intros [|y k]; simpl; try done.
  by rewrite <-IH.
Qed.

(** X2.  When the target has more parameters than the current network, the
    [zip] stops at the shorter list: the call still returns, the common
    prefix is interpolated and the surplus parameters of the target are
    left as they were. *)
Theorem soft_update_surplus_untouched (h : heap) (target current : network)
    (tau : Qc) :
  NoDup (net_params target) →
  Forall (λ l, l ∉ net_params current) (net_params target) →
  Forall2 (λ t c, length (h !!! t) = length (h !!! c))
          (take (length (net_params current)) (net_params target))
          (net_params current) →
  let r := AgentBase.soft_update (VNet target) (VNet current) tau h in
  r.1 = Return ()
  ∧ Forall2 (λ t c, r.2 !!! t = interpolate tau (h !!! c) (h !!! t))
            (take (length (net_params current)) (net_params target))
            (net_params current)
  ∧ Forall (λ l, r.2 !! l = h !! l)
           (drop (length (net_params current)) (net_params target)).
Proof.
  intros Hnd Hdisj Hshape r. unfold r. rewrite soft_update_networks.
  rewrite zip_take_l.
  set (n := length (net_params current)) in *.
  rewrite <-(take_drop n (net_params target)) in Hnd, Hdisj.
  apply NoDup_app in Hnd as (Hnd1 & Hnd12 & Hnd2).
  apply Forall_app in Hdisj as [Hdisj1 _].
  destruct (soft_update_loop_run tau _ _ h Hnd1
              (proj1 (Forall_forall _ _) Hdisj1) Hshape) as (h' & Hrun & Hv).
  rewrite Hrun. split; [done|]. split; [done|].
  apply Forall_forall. intros l Hl. simpl.
  eapply soft_update_loop_frame; [exact Hrun|].
  rewrite fst_zip by (apply Forall2_length in Hshape; lia).
  intros Hin. by apply (Hnd12 l).
Qed.

(** X2 on the example heap: the current network has the first tensor only,
    and the second tensor of the target is left alone. *)
Lemma soft_update_surplus_untouched_witness :
  let r := AgentBase.soft_update (VNet example_target)
             (VNet example_short_current) (dec 0.25) example_heap in
  r.1 = Return ()
  ∧ Forall2 (λ t c, r.2 !!! t = interpolate (dec 0.25) (example_heap !!! c)
                                           (example_heap !!! t))
            (take (length (net_params example_short_current))
                  (net_params example_target))
            (net_params example_short_current)
  ∧ Forall (λ l, r.2 !! l = example_heap !! l)
           (drop (length (net_params example_short_current))
                 (net_params example_target)).
Proof. apply soft_update_surplus_untouched; compute_done. Defined.

(** ** [save_load_model], continued *)

Lemma string_app_inj (p s1 s2 : string) : p +:+ s1 = p +:+ s2 → s1 = s2.
Proof. induction p as [|a p IH]; simpl; [done|]. intros [= H]. auto. Qed.

Lemma checkpoint_paths_differ (cwd : string) :
  cwd +:+ "/actor.pth" ≠ cwd +:+ "/critic.pth".
Proof. intros H. by apply string_app_inj in H. Qed.

(** Writing a list of tensors into distinct parameters stores exactly
    them. *)
Lemma foldr_insert_zip_lookup (ls : list loc) (d : list tensor) (h : heap) :
  NoDup ls → length ls = length d →
  (λ l, foldr (λ p : loc * tensor, <[p.1 := p.2]>) h (zip ls d) !!! l) <$> ls
  = d.
Proof.
  intros Hnd. revert d. induction Hnd as [|l ls Hl Hnd IH]; intros [|t d] Hlen;
    simplify_eq/=; [done|].
  rewrite lookup_total_insert_eq. f_equal.
  etrans; [|by apply (IH d)]. apply list_fmap_ext. intros i l' Hi.
  rewrite lookup_total_insert_ne; [done|].
  intros ->. apply Hl. by eapply list_elem_of_lookup_2.
Qed.

Lemma load_state_dict_run (n : network) (d : list tensor) (w : world) :
  NoDup (net_params n) →
  Forall2 (λ l t, length (w_heap w !!! l) = length t) (net_params n) d →
  ∃ h', AgentBase.load_state_dict (VNet n) d w
        = (Return (), set_heap (λ _, h') w)
        ∧ state_dict n h' = d
        ∧ ∀ l, l ∉ net_params n → h' !! l = w_heap w !! l.
Proof.
  intros Hnd Hshape. unfold AgentBase.load_state_dict, on_heap.
  rewrite decide_True by done. eexists. split; [reflexivity|]. split.
  - apply foldr_insert_zip_lookup; [done|]. by eapply Forall2_length.
  - intros l Hl. apply foldr_insert_lookup_ne.
    rewrite fst_zip; [done|]. apply Forall2_length in Hshape. lia.
Qed.

Lemma save_run (w : world) (cwd : string) (a c : network) :
  w_self w !! "act" = Some (VNet a) →
  w_self w !! "cri" = Some (VNet c) →
  AgentBase.save_load_model cwd true w
  = (Return (),
     set_files (λ fs, <[cwd +:+ "/critic.pth" := state_dict c (w_heap w)]>
                        (<[cwd +:+ "/actor.pth" := state_dict a (w_heap w)]>
                           fs)) w).
Proof.
  intros Hact Hcri. unfold AgentBase.save_load_model.
  rewrite run_bind. unfold getattr at 1. rewrite Hact.
  rewrite decide_True by done.
  rewrite run_bind. unfold AgentBase.torch_save at 1, modify.
  rewrite run_bind. unfold getattr at 1. cbn [w_self set_files]. rewrite Hcri.
  rewrite decide_True by done. reflexivity.
Qed.



(** X4.  A load that finds neither file is not fatal: it returns normally,
    prints the one line [FileNotFound when load_model: cwd] and changes
    nothing else. *)
Theorem load_without_files_only_reports (w : world) (cwd : string)
    (act cri : value) :
  w_self w !! "act" = Some act →
  w_self w !! "cri" = Some cri →
  w_files w !! (cwd +:+ "/actor.pth") = None →
  w_files w !! (cwd +:+ "/critic.pth") = None →
  AgentBase.save_load_model cwd false w
  = (Return (),
     set_trace (λ t, t ++ [EvPrint ("FileNotFound when load_model: " +:+ cwd)])
               w).
Proof.
  intros Hact Hcri Hfa Hfc. unfold AgentBase.save_load_model.
  rewrite run_bind. unfold getattr at 1. rewrite Hact.
  rewrite run_bind. unfold AgentBase.path_exists at 1, reads.
  rewrite Hfa, (bool_decide_false (is_Some None)) by (by intros [? ?]).
  rewrite andb_false_r.
  rewrite run_bind. unfold getattr at 1. rewrite Hcri.
  rewrite run_bind. unfold AgentBase.path_exists at 1, reads.
  rewrite Hfc, (bool_decide_false (is_Some None)) by (by intros [? ?]).
  rewrite andb_false_r. reflexivity.
Qed.

(** X4 on the trained example agent, which has no file yet. *)
Lemma load_without_files_only_reports_witness :
  AgentBase.save_load_model "run" false trained_world
  = (Return (),
     set_trace (λ t, t ++ [EvPrint ("FileNotFound when load_model: "
                                    +:+ "run")])
               trained_world).
Proof.
  apply (load_without_files_only_reports trained_world "run"
           (VNet example_actor) (VNet example_critic)); reflexivity.
Defined.



(** X6.  When only the critic's file exists, the load takes the second
    branch: it returns normally, gives the critic the parameters of the
    file, leaves every other tensor alone and prints [Loaded cri: cwd]. *)
Theorem load_falls_back_to_critic (w : world) (cwd : string) (act : value)
    (c : network) (d : list tensor) :
  w_self w !! "act" = Some act →
  w_self w !! "cri" = Some (VNet c) →
  w_files w !! (cwd +:+ "/actor.pth") = None →
  w_files w !! (cwd +:+ "/critic.pth") = Some d →
  NoDup (net_params c) →
  Forall2 (λ l t, length (w_heap w !!! l) = length t) (net_params c) d →
  let r := AgentBase.save_load_model cwd false w in
  r.1 = Return ()
  ∧ state_dict c (w_heap r.2) = d
  ∧ (∀ l, l ∉ net_params c → w_heap r.2 !! l = w_heap w !! l)
  ∧ w_trace r.2 = w_trace w ++ [EvPrint ("Loaded cri: " +:+ cwd)].
Proof.
  intros Hact Hcri Hfa Hfc Hnd Hshape r. unfold r.
  destruct (load_state_dict_run c d w Hnd Hshape)
    as (h' & Hload & Hvals & Hframe).
  assert (Hrun : AgentBase.save_load_model cwd false w
            = (Return (),
               set_trace (λ t, t ++ [EvPrint ("Loaded cri: " +:+ cwd)])
                         (set_heap (λ _, h') w))).
  { unfold AgentBase.save_load_model.
    rewrite run_bind. unfold getattr at 1. rewrite Hact.
    rewrite run_bind. unfold AgentBase.path_exists at 1, reads.
    rewrite Hfa, (bool_decide_false (is_Some None)) by (by intros [? ?]).
    rewrite andb_false_r.
    rewrite run_bind. unfold getattr at 1. rewrite Hcri.
    rewrite run_bind. unfold AgentBase.path_exists at 1, reads.
    rewrite Hfc, bool_decide_true by eauto. cbn [andb].
    rewrite bool_decide_true by done.
    rewrite run_bind. unfold AgentBase.load_torch_file.
    rewrite run_bind. unfold AgentBase.torch_load. rewrite Hfc, Hload.
    reflexivity. }
  rewrite Hrun. cbn. split; [done|]. split; [done|].
  split; [exact Hframe|done].
Qed.

(** X6 on a fresh agent in a directory with the critic's file only. *)
Lemma load_falls_back_to_critic_witness :
  let r := AgentBase.save_load_model "run" false critic_only_world in
  r.1 = Return ()
  ∧ state_dict example_critic (w_heap r.2) = [[dec 6]]
  ∧ (∀ l, l ∉ net_params example_critic →
          w_heap r.2 !! l = w_heap critic_only_world !! l)
  ∧ w_trace r.2
    = w_trace critic_only_world ++ [EvPrint ("Loaded cri: " +:+ "run")].
Proof.
  apply (load_falls_back_to_critic critic_only_world "run"
           (VNet example_actor) example_critic [[dec 6]]);
    first [reflexivity | compute_done].
Defined.

(** ** What [init] builds *)

(** Allocation gives new, pairwise distinct tensors holding the given
    values, and leaves the tensors that exist alone. *)
Lemma alloc_all_spec (ts : list tensor) (h : heap) :
  ∃ ls h', alloc_all ts h = (Return ls, h')
    ∧ NoDup ls
    ∧ Forall (λ l, h !! l = None) ls
    ∧ Forall (λ l, is_Some (h' !! l)) ls
    ∧ (∀ l, l ∉ ls → h' !! l = h !! l)
    ∧ (λ l, h' !!! l) <$> ls = ts.
Proof.
  revert h. induction ts as [|t ts IH]; intros h.
  - exists [], h. repeat split; try done; constructor.
  - simpl. rewrite run_bind. unfold alloc at 1.
    set (l := fresh (dom h)).
    assert (Hl : h !! l = None).
    { apply not_elem_of_dom. apply is_fresh. }
    destruct (IH (<[l := t]> h)) as (ls & h' & Hrun & Hnd & Hnew & Hall & Hfr & Hv).
    rewrite run_bind, Hrun.
    assert (Hlls : l ∉ ls).
    { intros Hin. rewrite Forall_forall in Hnew. specialize (Hnew l Hin).
      by rewrite lookup_insert_eq in Hnew. }
    exists (l :: ls), h'. split; [done|]. split; [by constructor|].
    split; [|split; [|split]].
    + constructor; [done|]. apply Forall_forall. intros l' Hl'.
      rewrite Forall_forall in Hnew. specialize (Hnew l' Hl').
      destruct (decide (l = l')) as [<-|Hne]; [done|].
      by rewrite lookup_insert_ne in Hnew.
    + constructor; [|done]. rewrite Hfr by done.
      rewrite lookup_insert_eq. eauto.
    + intros l' Hl'. apply not_elem_of_cons in Hl' as [Hne Hl'].
      rewrite Hfr by done. by rewrite lookup_insert_ne.
    + rewrite fmap_cons, Hv. f_equal.
      rewrite lookup_total_alt, Hfr by done. by rewrite lookup_insert_eq.
Qed.

Lemma wp_construct_strong (E : externals) (cls : net_class) (dims : list nat)
    Q (w : world) :
  (∀ ls h',
     NoDup ls →
     Forall (λ l, w_heap w !! l = None) ls →
     Forall (λ l, is_Some (h' !! l)) ls →
     (∀ l, l ∉ ls → h' !! l = w_heap w !! l) →
     (λ l, h' !!! l) <$> ls = net_init E cls dims (w_rng w) →
     Q (Return (Net cls ls)) (set_heap (λ _, h') (set_rng S w))) →
  wp (construct E cls dims) Q w.
Proof.
  intros HQ. unfold construct.
  apply wp_bind, wp_reads, wp_bind, wp_modify, wp_bind.
  unfold wp, on_heap. cbn [w_heap set_rng].
  destruct (alloc_all_spec (net_init E cls dims (w_rng w)) (w_heap w))
    as (ls & h' & -> & ?). cbn. apply HQ; tauto.
Qed.

Lemma wp_deepcopy_strong (n : network) Q (w : world) :
  (∀ ls h',
     NoDup ls →
     Forall (λ l, w_heap w !! l = None) ls →
     Forall (λ l, is_Some (h' !! l)) ls →
     (∀ l, l ∉ ls → h' !! l = w_heap w !! l) →
     (λ l, h' !!! l) <$> ls = state_dict n (w_heap w) →
     Q (Return (VNet (Net (net_class_of n) ls))) (set_heap (λ _, h') w)) →
  wp (deepcopy (VNet n)) Q w.
Proof.
  intros HQ. unfold deepcopy. apply wp_bind. unfold wp, on_heap.
  rewrite run_bind. unfold reads.
  destruct (alloc_all_spec (state_dict n (w_heap w)) (w_heap w))
    as (ls & h' & -> & ?). cbn. apply HQ; tauto.
Qed.

(** Tensors that exist are not among those a later allocation makes, and
    keep their values through it. *)
Lemma frame_allocated (h h' : heap) (ls ls' : list loc) :
  Forall (λ l, is_Some (h !! l)) ls →
  Forall (λ l, h !! l = None) ls' →
  (∀ l, l ∉ ls' → h' !! l = h !! l) →
  Forall (λ l, is_Some (h' !! l)) ls
  ∧ Forall (λ l, l ∉ ls) ls'
  ∧ (λ l, h' !!! l) <$> ls = (λ l, h !!! l) <$> ls.
Proof.
  intros Hall Hnew Hfr.
  rewrite Forall_forall in Hall. rewrite Forall_forall in Hnew.
  assert (Hdisj : ∀ l, l ∈ ls → l ∉ ls').
  { intros l Hl Hl'. specialize (Hall l Hl). rewrite (Hnew l Hl') in Hall.
    by destruct Hall. }
  split; [|split].
  - apply Forall_forall. intros l Hl. rewrite Hfr by auto. auto.
  - apply Forall_forall. intros l Hl' Hl. by apply (Hdisj l).
  - apply list_fmap_ext. intros i l Hi. simpl.
    rewrite !lookup_total_alt, Hfr; [done|].
    apply Hdisj. by eapply list_elem_of_lookup_2.
Qed.

(** Read a statement about the run [c w] as a weakest precondition. *)
Ltac by_wp :=
  lazymatch goal with
  | |- let r := ?c ?w in _ =>
      intros r; subst r; pattern (c w).1, (c w).2;
      lazymatch goal with
      | |- ?Q _ _ => change (wp c Q w)
      end
  end.

(** Step over an allocation, keeping what is known of the new tensors. *)
Ltac wp_step_alloc :=
  lazymatch goal with
  | |- wp (construct _ _ _) _ _ =>
      apply wp_construct_strong; intros ? ? ? ? ? ? ?
  | |- wp (deepcopy (VNet _)) _ _ =>
      apply wp_deepcopy_strong; intros ? ? ? ? ? ? ?
  | _ => wp_step
  end.

Ltac world_facts :=
  cbn [w_self w_heap w_rng set_self set_heap set_rng set_trace set_files] in *.

Ltac lookup_attr :=
  cbn [w_self w_heap w_rng set_self set_heap set_rng set_trace set_files];
  repeat first [rewrite lookup_insert_eq | rewrite lookup_insert_ne by done].

(** Carry every network made so far through the allocations after it. *)
Ltac frame_facts :=
  repeat match goal with
  | Hall : Forall (λ l, is_Some (?h !! l)) ?ls,
    Hnew : Forall (λ l, ?h !! l = None) ?ls',
    Hfr : ∀ l, l ∉ ?ls' → ?h' !! l = ?h !! l |- _ =>
      lazymatch goal with
      | _ : Forall (λ l, is_Some (h' !! l)) ls |- _ => fail
      | _ => destruct (frame_allocated h h' ls ls' Hall Hnew Hfr)
               as (? & ? & ?)
      end
  end.

Ltac init_solve :=
  repeat wp_step_alloc; world_facts; frame_facts;
  (split; [done|]); repeat eexists (Net _ _);
  lookup_attr; unfold is_copy_of, state_dict in *; simpl in *;
  split_and!; try done; try congruence.

(** X7.  [AgentDQN()] followed by [init] returns normally for every width
    and dimension.  Afterwards [act] and [cri] are one and the same
    network, holding the initial values of a [QNet]; [cri_target] is an
    independent copy of it; the optimiser is bound to the parameters of the
    critic; [act_target] is still [None]; and [get_obj_critic] is the
    objective that [if_per] selects. *)
Theorem DQN_init_builds_agent (E : externals) (w : world)
    (net_dim state_dim action_dim : nat) (if_per : bool) :
  let r := (AgentDQN.__init__;;
            AgentDQN.init E net_dim state_dim action_dim if_per) w in
  r.1 = Return ()
  ∧ ∃ cri tgt,
      w_self r.2 !! "cri" = Some (VNet cri)
      ∧ w_self r.2 !! "act" = Some (VNet cri)
      ∧ w_self r.2 !! "cri_target" = Some (VNet tgt)
      ∧ w_self r.2 !! "act_target" = Some VNone
      ∧ w_self r.2 !! "cri_optimizer"
        = Some (VOptim (Adam (net_params cri) (dec 1e-4)))
      ∧ w_self r.2 !! "criterion"
        = Some (VLoss (MSELoss (if if_per then red_none else red_mean)))
      ∧ w_self r.2 !! "get_obj_critic"
        = Some (VMethod (if if_per then "get_obj_critic_per"
                         else "get_obj_critic_raw"))
      ∧ net_class_of cri = QNet
      ∧ NoDup (net_params cri)
      ∧ state_dict cri (w_heap r.2)
        = net_init E QNet [net_dim; state_dim; action_dim] (w_rng w)
      ∧ is_copy_of (w_heap r.2) tgt cri.
Proof.
  by_wp. unfold AgentDQN.__init__, AgentBase.__init__, AgentDQN.init.
  init_solve.
Qed.

(** X8.  [AgentDuelingDQN()] followed by [init] returns normally: one
    [QNetDuel] serves as [cri] and [act], [cri_target] is an independent
    copy, the optimiser is bound to the critic, the loss is the squared
    error and the exploration rate is 0.25. *)
Theorem DuelingDQN_init_builds_agent (E : externals) (w : world)
    (net_dim state_dim action_dim : nat) (if_per : bool) :
  let r := (AgentDuelingDQN.__init__;;
            AgentDuelingDQN.init E net_dim state_dim action_dim if_per) w in
  r.1 = Return ()
  ∧ ∃ cri tgt,
      w_self r.2 !! "cri" = Some (VNet cri)
      ∧ w_self r.2 !! "act" = Some (VNet cri)
      ∧ w_self r.2 !! "cri_target" = Some (VNet tgt)
      ∧ w_self r.2 !! "cri_optimizer"
        = Some (VOptim (Adam (net_params cri) (dec 1e-4)))
      ∧ w_self r.2 !! "criterion"
        = Some (VLoss (MSELoss (if if_per then red_none else red_mean)))
      ∧ w_self r.2 !! "get_obj_critic"
        = Some (VMethod (if if_per then "get_obj_critic_per"
                         else "get_obj_critic_raw"))
      ∧ w_self r.2 !! "explore_rate" = Some (VFloat (dec 0.25))
      ∧ net_class_of cri = QNetDuel
      ∧ NoDup (net_params cri)
      ∧ state_dict cri (w_heap r.2)
        = net_init E QNetDuel [net_dim; state_dim; action_dim] (w_rng w)
      ∧ is_copy_of (w_heap r.2) tgt cri.
Proof.
  by_wp. unfold AgentDuelingDQN.__init__, AgentDQN.__init__,
    AgentBase.__init__, AgentDuelingDQN.init.
  init_solve.
Qed.

(** X9.  [AgentD3QN()] followed by [init] returns normally, unlike the
    [init] of its parent [AgentDoubleDQN]: [act] is bound to the critic
    before the optimiser asks for its parameters.  One [QNetTwinDuel]
    serves as [cri] and [act], [cri_target] is an independent copy, and the
    loss is the smooth L1 loss. *)
Theorem D3QN_init_builds_agent (E : externals) (w : world)
    (net_dim state_dim action_dim : nat) (if_per : bool) :
  let r := (AgentD3QN.__init__;;
            AgentD3QN.init E net_dim state_dim action_dim if_per) w in
  r.1 = Return ()
  ∧ ∃ cri tgt,
      w_self r.2 !! "cri" = Some (VNet cri)
      ∧ w_self r.2 !! "act" = Some (VNet cri)
      ∧ w_self r.2 !! "cri_target" = Some (VNet tgt)
      ∧ w_self r.2 !! "cri_optimizer"
        = Some (VOptim (Adam (net_params cri) (dec 1e-4)))
      ∧ w_self r.2 !! "criterion"
        = Some (VLoss (SmoothL1Loss (if if_per then red_none else red_mean)))
      ∧ w_self r.2 !! "get_obj_critic"
        = Some (VMethod (if if_per then "get_obj_critic_per"
                         else "get_obj_critic_raw"))
      ∧ net_class_of cri = QNetTwinDuel
      ∧ NoDup (net_params cri)
      ∧ state_dict cri (w_heap r.2)
        = net_init E QNetTwinDuel [net_dim; state_dim; action_dim] (w_rng w)
      ∧ is_copy_of (w_heap r.2) tgt cri.
Proof.
  by_wp. unfold AgentD3QN.__init__, AgentDoubleDQN.__init__,
    AgentDQN.__init__, AgentBase.__init__, AgentD3QN.init.
  init_solve.
Qed.

(** X10.  [AgentDDPG()] followed by [init] returns normally.  The critic
    and the actor are two networks with their own initial values, each
    with an independent copy as its target and an optimiser bound to its
    own parameters; no tensor of the actor is one of the critic; and the
    exploration noise is an Ornstein-Uhlenbeck process of the size of the
    action with sigma 0.3, starting at 0. *)
Theorem DDPG_init_builds_agent (E : externals) (w : world)
    (net_dim state_dim action_dim : nat) (if_per : bool) :
  let r := (AgentDDPG.__init__;;
            AgentDDPG.init E net_dim state_dim action_dim if_per) w in
  r.1 = Return ()
  ∧ ∃ cri cri_tgt act act_tgt,
      w_self r.2 !! "cri" = Some (VNet cri)
      ∧ w_self r.2 !! "cri_target" = Some (VNet cri_tgt)
      ∧ w_self r.2 !! "act" = Some (VNet act)
      ∧ w_self r.2 !! "act_target" = Some (VNet act_tgt)
      ∧ w_self r.2 !! "cri_optimizer"
        = Some (VOptim (Adam (net_params cri) (dec 1e-4)))
      ∧ w_self r.2 !! "act_optimizer"
        = Some (VOptim (Adam (net_params act) (dec 1e-4)))
      ∧ w_self r.2 !! "criterion"
        = Some (VLoss (SmoothL1Loss (if if_per then red_none else red_mean)))
      ∧ w_self r.2 !! "get_obj_critic"
        = Some (VMethod (if if_per then "get_obj_critic_per"
                         else "get_obj_critic_raw"))
      ∧ w_self r.2 !! "ou_noise"
        = Some (VNoise (OUNoise action_dim (dec 0.15) (dec 0.3) [0]
                          (dec 1e-2)))
      ∧ net_class_of cri = Critic ∧ net_class_of act = Actor
      ∧ NoDup (net_params cri) ∧ NoDup (net_params act)
      ∧ Forall (λ l, l ∉ net_params cri) (net_params act)
      ∧ state_dict cri (w_heap r.2)
        = net_init E Critic [net_dim; state_dim; action_dim] (w_rng w)
      ∧ state_dict act (w_heap r.2)
        = net_init E Actor [net_dim; state_dim; action_dim] (S (w_rng w))
      ∧ is_copy_of (w_heap r.2) cri_tgt cri
      ∧ is_copy_of (w_heap r.2) act_tgt act.
Proof.
  by_wp. unfold AgentDDPG.__init__, AgentBase.__init__, AgentDDPG.init.
  init_solve.
Qed.

(** X11.  [AgentTD3()] followed by [init] returns normally.  The twin
    critic and the actor are two networks with their own initial values,
    each with an independent copy as its target and an optimiser bound to
    its own parameters; no tensor of the actor is one of the critic; the
    targets are updated every second step ([update_freq] is 2); and the
    Ornstein-Uhlenbeck noise inherited from [AgentDDPG] is left unset. *)
Theorem TD3_init_builds_agent (E : externals) (w : world)
    (net_dim state_dim action_dim : nat) (if_per : bool) :
  let r := (AgentTD3.__init__;;
            AgentTD3.init E net_dim state_dim action_dim if_per) w in
  r.1 = Return ()
  ∧ ∃ cri cri_tgt act act_tgt,
      w_self r.2 !! "cri" = Some (VNet cri)
      ∧ w_self r.2 !! "cri_target" = Some (VNet cri_tgt)
      ∧ w_self r.2 !! "act" = Some (VNet act)
      ∧ w_self r.2 !! "act_target" = Some (VNet act_tgt)
      ∧ w_self r.2 !! "cri_optimizer"
        = Some (VOptim (Adam (net_params cri) (dec 1e-4)))
      ∧ w_self r.2 !! "act_optimizer"
        = Some (VOptim (Adam (net_params act) (dec 1e-4)))
      ∧ w_self r.2 !! "criterion"
        = Some (VLoss (SmoothL1Loss (if if_per then red_none else red_mean)))
      ∧ w_self r.2 !! "get_obj_critic"
        = Some (VMethod (if if_per then "get_obj_critic_per"
                         else "get_obj_critic_raw"))
      ∧ w_self r.2 !! "update_freq" = Some (VInt 2)
      ∧ w_self r.2 !! "ou_noise" = Some VNone
      ∧ net_class_of cri = CriticTwin ∧ net_class_of act = Actor
      ∧ NoDup (net_params cri) ∧ NoDup (net_params act)
      ∧ Forall (λ l, l ∉ net_params cri) (net_params act)
      ∧ state_dict cri (w_heap r.2)
        = net_init E CriticTwin [net_dim; state_dim; action_dim] (w_rng w)
      ∧ state_dict act (w_heap r.2)
        = net_init E Actor [net_dim; state_dim; action_dim] (S (w_rng w))
      ∧ is_copy_of (w_heap r.2) cri_tgt cri
      ∧ is_copy_of (w_heap r.2) act_tgt act.
Proof.
  by_wp. unfold AgentTD3.__init__, AgentDDPG.__init__, AgentBase.__init__,
    AgentTD3.init.
  init_solve.
Qed.

(** ** A fresh copy under [soft_update] *)

Lemma interpolate_same (tau : Qc) (x : tensor) : interpolate tau x x = x.
Proof.
  unfold interpolate. induction x as [|a x IH]; simpl; [done|].
  f_equal; [ring|done].
Qed.

Lemma fmap_eq_Forall2 {A B C} (f : A → C) (g : B → C) (l : list A)
    (k : list B) :
  f <$> l = g <$> k → Forall2 (λ x y, f x = g y) l k.
Proof.
  revert k. induction l as [|x l IH]; intros [|y k] Heq; simplify_eq/=;
    constructor; auto.
Qed.

(** X12.  A target that is an independent copy of the current network is a
    fixed point of [soft_update]: for every [tau] the call returns
    normally, both networks keep their values and the target is still an
    independent copy (in exact arithmetic). *)
Theorem soft_update_keeps_copy (h : heap) (target current : network)
    (tau : Qc) :
  is_copy_of h target current →
  let r := AgentBase.soft_update (VNet target) (VNet current) tau h in
  r.1 = Return ()
  ∧ state_dict target r.2 = state_dict target h
  ∧ state_dict current r.2 = state_dict current h
  ∧ is_copy_of r.2 target current.
Proof.
  intros (Hcls & Hnd & Hdisj & Hsame) r. unfold r.
  rewrite soft_update_networks.
  assert (Heq : Forall2 (λ t c, h !!! t = h !!! c)
                  (net_params target) (net_params current)).
  { by apply fmap_eq_Forall2. }
  assert (Hshape : Forall2 (λ t c, length (h !!! t) = length (h !!! c))
                     (net_params target) (net_params current)).
  { eapply Forall2_impl; [exact Heq|]. intros t c Htc. simpl in *.
    by rewrite Htc. }
  destruct (soft_update_loop_run tau _ _ h Hnd
              (proj1 (Forall_forall _ _) Hdisj) Hshape) as (h' & Hrun & Hv).
  rewrite Hrun. cbn [fst snd]. split; [done|].
  assert (Htar : state_dict target h' = state_dict target h).
  { unfold state_dict. eapply Forall2_fmap_eq_l.
    pose proof (Forall2_conj _ _ _ _ Hv Heq) as Hboth.
    eapply Forall2_impl; [exact Hboth|].
    intros t c [Ht Htc]. simpl in *.
    by rewrite Ht, Htc, interpolate_same. }
  assert (Hcur : state_dict current h' = state_dict current h).
  { unfold state_dict. apply list_fmap_ext. intros i c Hi. simpl.
    rewrite !lookup_total_alt. f_equal.
    eapply soft_update_loop_frame; [exact Hrun|].
    rewrite fst_zip by (apply Forall2_length in Hshape; lia).
    intros Hin. rewrite Forall_forall in Hdisj. apply (Hdisj c Hin).
    by eapply list_elem_of_lookup_2. }
  split; [done|]. split; [done|].
  repeat split; try done. by rewrite Htar, Hcur.
Qed.

(** X12 on a heap where the target has just been copied. *)
Lemma soft_update_keeps_copy_witness :
  is_copy_of copied_heap example_target example_current
  ∧ let r := AgentBase.soft_update (VNet example_target)
               (VNet example_current) (dec 0.25) copied_heap in
    r.1 = Return ()
    ∧ state_dict example_target r.2 = state_dict example_target copied_heap
    ∧ state_dict example_current r.2 = state_dict example_current copied_heap
    ∧ is_copy_of r.2 example_target example_current.
Proof.
  assert (H : is_copy_of copied_heap example_target example_current).
  { repeat split; compute_done. }
  split; [exact H|]. exact (soft_update_keeps_copy _ _ _ (dec 0.25) H).
Defined.

(** ** [AgentTD3.select_action] *)

Lemma tensor_add_same_length (a b : tensor) :
  length a = length b → tensor_add a b = Return (zip_with Qcplus a b).
Proof. intros Hlen. unfold tensor_add, broadcast. by rewrite decide_True. Qed.



(** ** [update_net] of the other agents *)

(** A loop whose turns make the updates [turn i] makes the updates of its
    turns, in order. *)
Lemma for_loop_turns {L} (body : Z → L → M world L) (turn : Z → list event)
    (xs : list Z) (locals : L) (w : world) :
  (∀ i l w0,
     wp (body i l)
        (λ r w', match r with
                 | Return _ => extends w0 (turn i) w'
                 | Raise _ => ∃ p, p `prefix_of` turn i ∧ extends w0 p w'
                 end) w0) →
  wp (for_loop xs locals body)
     (λ r w', match r with
              | Return _ => extends w (concat (turn <$> xs)) w'
              | Raise _ => ∃ p, p `prefix_of` concat (turn <$> xs)
                                ∧ extends w p w'
              end) w.
Proof.
  intros Hbody. revert locals w.
  induction xs as [|x xs IH]; intros locals w.
  - apply wp_ret, extends_refl.
  - rewrite for_loop_cons, fmap_cons, concat_cons. apply wp_bind.
    eapply wp_mono; [by apply Hbody|].
    intros [locals'|e] w1; cbn beta iota.
    + intros H1. eapply wp_mono; [apply IH|].
      intros [?|?] w2; cbn beta iota.
      * intros H2. by eapply extends_trans.
      * intros (p & Hp & H2). exists (turn x ++ p). split.
        -- by apply prefix_app.
        -- by eapply extends_trans.
    + intros (p & Hp & H1). exists p. split; [|done].
      by apply prefix_app_r.
Qed.

Lemma DoubleDQN_get_obj_critic_silent (E : externals) (batch_size : Z) :
  silent (AgentDoubleDQN.get_obj_critic E batch_size).
Proof.
  apply silent_wp. intros w.
  unfold AgentDoubleDQN.get_obj_critic, AgentDoubleDQN.get_obj_critic_raw,
    AgentDoubleDQN.get_obj_critic_per, call_criterion.
  wp_auto; extends_solve.
Qed.

Lemma DDPG_get_obj_critic_silent (E : externals) (batch_size : Z) :
  silent (AgentDDPG.get_obj_critic E batch_size).
Proof.
  apply silent_wp. intros w.
  unfold AgentDDPG.get_obj_critic, AgentDDPG.get_obj_critic_raw,
    AgentDDPG.get_obj_critic_per, call_criterion, buffer_td_error_update.
  wp_auto; extends_solve.
Qed.

(** One turn of the inherited loop, for an objective that updates
    nothing. *)
Lemma DQN_update_net_body_spec (E : externals)
    (get_obj_critic : Z → M world (batch * batch)) (batch_size i : Z)
    (locals : option batch * option batch) (w : world) :
  silent (get_obj_critic batch_size) →
  let turn := [EvOptimStep "cri_optimizer"; EvSoftUpdate "cri_target" "cri"] in
  wp (AgentDQN.update_net_body E get_obj_critic batch_size i locals)
     (λ r w', match r with
              | Return _ => extends w turn w'
              | Raise _ => ∃ p, p `prefix_of` turn ∧ extends w p w'
              end) w.
Proof.
  intros Hobj turn. unfold AgentDQN.update_net_body, turn.
  pose proof (extends_refl w) as H0.
  step_silent Hobj as [[obj_critic q_value]|?].
  step_silent zero_grad_silent as [?|?].
  step_silent (ret_silent (A:=unit)) as [?|?].
  step_optimizer.
  step_soft_update.
  by apply wp_ret.
Qed.

Lemma DDPG_update_net_body_spec (E : externals) (batch_size i : Z)
    (locals : option batch * option batch) (w : world) :
  let turn := [EvOptimStep "cri_optimizer"; EvSoftUpdate "cri_target" "cri";
               EvOptimStep "act_optimizer"; EvSoftUpdate "act_target" "act"] in
  wp (AgentDDPG.update_net_body E batch_size i locals)
     (λ r w', match r with
              | Return _ => extends w turn w'
              | Raise _ => ∃ p, p `prefix_of` turn ∧ extends w p w'
              end) w.
Proof.
  intros turn. unfold AgentDDPG.update_net_body, turn.
  pose proof (extends_refl w) as H0.
  step_silent DDPG_get_obj_critic_silent as [[obj_critic state]|?].
  step_silent zero_grad_silent as [?|?].
  step_silent (ret_silent (A:=unit)) as [?|?].
  step_optimizer.
  step_soft_update.
  step_silent getattr_silent as [act|?].
  step_silent call_silent as [q_value_pg|?].
  step_silent unpack1_silent as [q_value_pg'|?].
  step_silent getattr_silent as [cri_target|?].
  step_silent call_silent as [q|?].
  step_silent unpack1_silent as [q'|?].
  step_silent zero_grad_silent as [?|?].
  step_silent (ret_silent (A:=unit)) as [?|?].
  step_optimizer.
  step_soft_update.
  by apply wp_ret.
Qed.

(** What follows the loops writes the record and touches no network. *)
Lemma DQN_update_net_tail_trace (locals : option batch * option batch)
    (w : world) :
  wp (let '(q_value, obj_critic) := locals in
      obj_a ← lift (AgentDQN.mean_item q_value);
      obj_c ← lift (item obj_critic);
      AgentBase.update_record
        [("obj_a"%string, obj_a); ("obj_c"%string, obj_c)];;
      getattr "train_record")
     (λ _ w', w_trace w' = w_trace w) w.
Proof.
  destruct locals as [q_value obj_critic].
  unfold AgentBase.update_record. wp_auto; done.
Qed.

Lemma DDPG_update_net_tail_trace (locals : option batch * option batch)
    (w : world) :
  wp (let '(obj_critic, obj_actor) := locals in
      obj_a ← lift (item obj_actor);
      obj_c ← lift (item obj_critic);
      AgentBase.update_record
        [("obj_a"%string, obj_a); ("obj_c"%string, obj_c)];;
      getattr "train_record")
     (λ _ w', w_trace w' = w_trace w) w.
Proof.
  destruct locals as [obj_critic obj_actor].
  unfold AgentBase.update_record. wp_auto; done.
Qed.

(** X14.  [AgentD3QN.update_net], inherited from [AgentDQN], with
    [n = int(target_step * repeat_times)]: every iteration steps the
    critic's optimiser and then soft-updates [cri_target], and nothing else
    updates a network.  When the call returns these are [n] such pairs;
    when it raises, a prefix of them. *)
Theorem D3QN_update_net_cadence (E : externals) (w : world)
    (target_step batch_size : Z) (repeat_times : Qc) :
  let n := py_int (Qc_of_Z target_step * repeat_times) in
  let turns :=
    concat ((λ _, [EvOptimStep "cri_optimizer";
                   EvSoftUpdate "cri_target" "cri"]) <$> py_range n) in
  let r := AgentD3QN.update_net E target_step batch_size repeat_times w in
  match r.1 with
  | Return _ => updates (w_trace r.2) = updates (w_trace w) ++ turns
  | Raise _ => ∃ p, p `prefix_of` turns
                    ∧ updates (w_trace r.2) = updates (w_trace w) ++ p
  end.
Proof.
  intros n turns.
  change (wp (AgentD3QN.update_net E target_step batch_size repeat_times)
            (λ r w', match r with
                     | Return _ => updates (w_trace w')
                                   = updates (w_trace w) ++ turns
                     | Raise _ => ∃ p, p `prefix_of` turns
                                  ∧ updates (w_trace w')
                                    = updates (w_trace w) ++ p
                     end) w).
  unfold AgentD3QN.update_net, AgentDQN.update_net_inherited,
    buffer_update_now_len_before_sample.
  apply wp_bind, wp_ret, wp_bind.
  eapply wp_mono.
  { apply (for_loop_turns _ (λ _, [EvOptimStep "cri_optimizer";
                                   EvSoftUpdate "cri_target" "cri"])).
    intros i l w0. apply DQN_update_net_body_spec.
    apply DoubleDQN_get_obj_critic_silent. }
  intros [locals|e] w1; cbn beta iota.
  - intros [_ H1]. eapply wp_mono; [apply DQN_update_net_tail_trace|].
    intros [v|e] w2 Htr; cbn beta iota; rewrite Htr; [done|].
    exists turns. by split.
  - intros (p & Hp & [_ H1]). by exists p.
Qed.

(** X15.  [AgentDDPG.update_net], with
    [n = int(target_step * repeat_times)]: every iteration steps the
    critic, soft-updates [cri_target], steps the actor and soft-updates
    [act_target], in this order, with no delay.  When the call returns
    these are [n] such turns; when it raises, a prefix of them. *)
Theorem DDPG_update_net_cadence (E : externals) (w : world)
    (target_step batch_size : Z) (repeat_times : Qc) :
  let n := py_int (Qc_of_Z target_step * repeat_times) in
  let turns :=
    concat ((λ _, [EvOptimStep "cri_optimizer";
                   EvSoftUpdate "cri_target" "cri";
                   EvOptimStep "act_optimizer";
                   EvSoftUpdate "act_target" "act"]) <$> py_range n) in
  let r := AgentDDPG.update_net E target_step batch_size repeat_times w in
  match r.1 with
  | Return _ => updates (w_trace r.2) = updates (w_trace w) ++ turns
  | Raise _ => ∃ p, p `prefix_of` turns
                    ∧ updates (w_trace r.2) = updates (w_trace w) ++ p
  end.
Proof.
  intros n turns.
  change (wp (AgentDDPG.update_net E target_step batch_size repeat_times)
            (λ r w', match r with
                     | Return _ => updates (w_trace w')
                                   = updates (w_trace w) ++ turns
                     | Raise _ => ∃ p, p `prefix_of` turns
                                  ∧ updates (w_trace w')
                                    = updates (w_trace w) ++ p
                     end) w).
  unfold AgentDDPG.update_net, buffer_update_now_len_before_sample.
  apply wp_bind, wp_ret, wp_bind.
  eapply wp_mono.
  { apply (for_loop_turns _ (λ _, [EvOptimStep "cri_optimizer";
                                   EvSoftUpdate "cri_target" "cri";
                                   EvOptimStep "act_optimizer";
                                   EvSoftUpdate "act_target" "act"])).
    intros i l w0. apply DDPG_update_net_body_spec. }
  intros [locals|e] w1; cbn beta iota.
  - intros [_ H1]. eapply wp_mono; [apply DDPG_update_net_tail_trace|].
    intros [v|e] w2 Htr; cbn beta iota; rewrite Htr; [done|].
    exists turns. by split.
  - intros (p & Hp & [_ H1]). by exists p.
Qed.

(** ** [update_net] at the edges *)

Lemma py_range_nonpositive (n : Z) : (n ≤ 0)%Z → py_range n = [].
Proof.
  intros Hn. unfold py_range. by replace (Z.to_nat n) with 0%nat by lia.
Qed.

Lemma py_range_positive (n : Z) :
  (1 ≤ n)%Z → ∃ xs, py_range n = 0%Z :: xs.
Proof.
  intros Hn. unfold py_range.
  destruct (Z.to_nat n) as [|k] eqn:Hk; [lia|].
  simpl. by eexists.
Qed.

(** X16.  When [int(target_step * repeat_times)] is not positive the loop
    of [update_net] has no turn, the locals are still [None], and reading
    the record values raises [AttributeError]: the [update_net] of
    [AgentDQN], [AgentD3QN], [AgentDDPG] and [AgentTD3] raise and leave the
    agent exactly as it was. *)
Theorem update_net_without_iterations (E : externals) (w : world)
    (target_step batch_size : Z) (repeat_times : Qc) :
  (py_int (Qc_of_Z target_step * repeat_times) ≤ 0)%Z →
  AgentDQN.update_net E target_step batch_size repeat_times w
    = (Raise AttributeError, w)
  ∧ AgentD3QN.update_net E target_step batch_size repeat_times w
    = (Raise AttributeError, w)
  ∧ AgentDDPG.update_net E target_step batch_size repeat_times w
    = (Raise AttributeError, w)
  ∧ AgentTD3.update_net E target_step batch_size repeat_times w
    = (Raise AttributeError, w).
Proof.
  intros Hn.
  unfold AgentDQN.update_net, AgentD3QN.update_net,
    AgentDQN.update_net_inherited, AgentDDPG.update_net, AgentTD3.update_net,
    AgentTD3.iterations.
  rewrite (py_range_nonpositive _ Hn). done.
Qed.

(** X16 with [target_step = 1] and [repeat_times = 0.5]: [int(0.5)] is 0. *)
Lemma update_net_without_iterations_witness :
  AgentDQN.update_net (example_externals false) 1 1 (dec 0.5) example_td3_world
    = (Raise AttributeError, example_td3_world)
  ∧ AgentD3QN.update_net (example_externals false) 1 1 (dec 0.5)
      example_td3_world
    = (Raise AttributeError, example_td3_world)
  ∧ AgentDDPG.update_net (example_externals false) 1 1 (dec 0.5)
      example_td3_world
    = (Raise AttributeError, example_td3_world)
  ∧ AgentTD3.update_net (example_externals false) 1 1 (dec 0.5)
      example_td3_world
    = (Raise AttributeError, example_td3_world).
Proof. apply update_net_without_iterations. compute_done. Defined.

(** With [act_target] unset the objective of [AgentDQN] raises and leaves
    attributes, parameters and trace as they were. *)
Ltac wp_auto_using H :=
  repeat first
    [ progress rewrite H
    | wp_step
    | lazymatch goal with
      | |- wp (match ?v with _ => _ end) _ _ => destruct v
      | |- match ?x with _ => _ end => destruct x
      | |- wp (call_method _ _ _ _) _ _ => unfold call_method
      | |- wp (call _ ?v _) _ _ => destruct v
      | |- wp (unpack5 _) _ _ => unfold unpack5
      | |- wp (unpack6 _) _ _ => unfold unpack6
      | |- wp (let '(_, _) := ?p in _) _ _ => destruct p
      end ].

Lemma DQN_get_obj_critic_learns_nothing (E : externals) (batch_size : Z)
    (w : world) :
  w_self w !! "act_target" = Some VNone →
  wp (AgentDQN.get_obj_critic E batch_size)
     (λ r w', (∃ e, r = Raise e)
              ∧ w_self w' = w_self w ∧ w_heap w' = w_heap w
              ∧ w_trace w' = w_trace w) w.
Proof.
  intros Hat.
  unfold AgentDQN.get_obj_critic, AgentDQN.get_obj_critic_raw,
    AgentDQN.get_obj_critic_per.
  wp_auto_using Hat; eauto.
Qed.

(** X17.  On an agent whose [act_target] is [None], as [AgentDQN.init]
    leaves it, [AgentDQN.update_net] with at least one iteration raises in
    the first turn, before any step of the optimiser: no attribute and no
    parameter of the agent changes and no update is made. *)
Theorem DQN_update_net_learns_nothing (E : externals) (w : world)
    (target_step batch_size : Z) (repeat_times : Qc) :
  w_self w !! "act_target" = Some VNone →
  (1 ≤ py_int (Qc_of_Z target_step * repeat_times))%Z →
  let r := AgentDQN.update_net E target_step batch_size repeat_times w in
  (∃ e, r.1 = Raise e)
  ∧ w_self r.2 = w_self w ∧ w_heap r.2 = w_heap w
  ∧ w_trace r.2 = w_trace w.
Proof.
  intros Hat Hn. by_wp.
  unfold AgentDQN.update_net, AgentDQN.update_net_inherited,
    buffer_update_now_len_before_sample.
  destruct (py_range_positive _ Hn) as [xs ->].
  apply wp_bind, wp_ret, wp_bind. rewrite for_loop_cons.
  apply wp_bind. unfold AgentDQN.update_net_body. apply wp_bind.
  eapply wp_mono; [by apply DQN_get_obj_critic_learns_nothing|].
  intros r w' ([e ->] & ? & ? & ?). eauto.
Qed.

(** X17 on the agent that [__init__] and [init] build. *)
Lemma DQN_update_net_learns_nothing_witness :
  let w := ((AgentDQN.__init__;;
             AgentDQN.init (example_externals false) 8 4 2 false)
              empty_world).2 in
  let r := AgentDQN.update_net (example_externals false) 4 1 1 w in
  (∃ e, r.1 = Raise e)
  ∧ w_self r.2 = w_self w ∧ w_heap r.2 = w_heap w
  ∧ w_trace r.2 = w_trace w.
Proof. apply DQN_update_net_learns_nothing; compute_done. Defined.

(** ** [AgentPPO]: the advantage recursions on every trajectory *)

Lemma snoc_of_length {A B} (l : list A) (k : list B) (y : B) :
  length l = length (k ++ [y]) →
  ∃ l' x, l = l' ++ [x] ∧ length l' = length k.
Proof.
  rewrite length_app. simpl. intros Hlen.
  destruct l as [|a l] using rev_ind; [simpl in Hlen; lia|].
  rewrite length_app in Hlen. simpl in Hlen.
  exists l, a. split; [done|lia].
Qed.

Lemma reversed_range_S (k : nat) :
  AgentPPO.reversed_range (S k) = k :: AgentPPO.reversed_range k.
Proof.
  unfold AgentPPO.reversed_range. by rewrite seq_S, rev_unit.
Qed.

Lemma get_row_column (l1 l2 : list Qc) (x : Qc) (i : nat) :
  i = length l1 →
  AgentPPO.get_row (column_of (l1 ++ x :: l2)) i = Return [x].
Proof.
  intros ->. unfold AgentPPO.get_row, column_of.
  by rewrite list_lookup_fmap, list_lookup_middle.
Qed.

Lemma get_row_middle (b1 b2 : batch) (row : tensor) (i : nat) :
  i = length b1 → AgentPPO.get_row (b1 ++ row :: b2) i = Return row.
Proof. intros ->. unfold AgentPPO.get_row. by rewrite list_lookup_middle. Qed.

Lemma set_row_middle (b1 b2 : batch) (old : tensor) (x : Qc) (i : nat) :
  i = length b1 → length old = 1%nat →
  AgentPPO.set_row (b1 ++ old :: b2) i [x] = Return (b1 ++ [x] :: b2).
Proof.
  intros -> Hold. unfold AgentPPO.set_row.
  rewrite list_lookup_middle by done. rewrite decide_True by done.
  by rewrite insert_app_r_alt, Nat.sub_diag by lia.
Qed.

Lemma fold_outcome_cons {A L} (x : A) (xs : list A) (acc : L)
    (body : A → L → outcome L) :
  AgentPPO.fold_outcome (x :: xs) acc body
  = (acc' ← body x acc; AgentPPO.fold_outcome xs acc' body).
Proof. reflexivity. Qed.

(** The loop of [compute_reward_adv], from the step [length rs1 - 1] down
    to 0, when the steps after it are done. *)
Lemma reward_loop_run (rs1 : list Qc) :
  ∀ (ms1 : list Qc) (b0 : batch) (rs2 ms2 : list Qc),
    length ms1 = length rs1 →
    length b0 = length rs1 →
    Forall (λ r : tensor, length r = 1%nat) b0 →
    AgentPPO.fold_outcome (AgentPPO.reversed_range (length rs1))
      (b0 ++ column_of (reward_to_go rs2 ms2),
       [default 0 (head (reward_to_go rs2 ms2))])
      (AgentPPO.reward_loop (column_of (rs1 ++ rs2)) (column_of (ms1 ++ ms2)))
    = Return (column_of (reward_to_go (rs1 ++ rs2) (ms1 ++ ms2)),
              [default 0 (head (reward_to_go (rs1 ++ rs2) (ms1 ++ ms2)))]).
Proof.
  induction rs1 as [|r rs1 IH] using rev_ind;
    intros ms1 b0 rs2 ms2 Hms Hb0 Hrows.
  - destruct ms1; [|done]. destruct b0; [|done]. done.
  - destruct (snoc_of_length ms1 rs1 r Hms) as (ms1' & m & -> & Hms').
    destruct (snoc_of_length b0 rs1 r Hb0) as (b0' & old & -> & Hb0').
    apply Forall_app in Hrows as [Hrows Hold].
    rewrite Forall_singleton in Hold.
    rewrite length_app. simpl. rewrite Nat.add_1_r, reversed_range_S.
    rewrite fold_outcome_cons. rewrite <-!app_assoc. simpl.
    unfold AgentPPO.reward_loop at 1.
    rewrite !get_row_column by lia. simpl.
    rewrite set_row_middle by (done || lia). simpl.
    rewrite get_row_middle by lia. simpl.
    apply (IH ms1' b0' (r :: rs2) (m :: ms2)); done.
Qed.

(** The loop of [compute_reward_gae], likewise. *)
Lemma gae_loop_run (lambda : Qc) (rs1 : list Qc) :
  ∀ (ms1 vs1 : list Qc) (b0 a0 : batch) (rs2 ms2 vs2 : list Qc),
    length ms1 = length rs1 →
    length vs1 = length rs1 →
    length b0 = length rs1 →
    length a0 = length rs1 →
    Forall (λ r : tensor, length r = 1%nat) b0 →
    Forall (λ r : tensor, length r = 1%nat) a0 →
    AgentPPO.fold_outcome (AgentPPO.reversed_range (length rs1))
      (b0 ++ column_of (reward_to_go rs2 ms2),
       a0 ++ column_of (gae_advantages lambda rs2 ms2 vs2).1,
       [default 0 (head (reward_to_go rs2 ms2))],
       [(gae_advantages lambda rs2 ms2 vs2).2])
      (AgentPPO.gae_loop lambda (column_of (rs1 ++ rs2))
         (column_of (ms1 ++ ms2)) (column_of (vs1 ++ vs2)))
    = Return
        (column_of (reward_to_go (rs1 ++ rs2) (ms1 ++ ms2)),
         column_of (gae_advantages lambda (rs1 ++ rs2) (ms1 ++ ms2)
                      (vs1 ++ vs2)).1,
         [default 0 (head (reward_to_go (rs1 ++ rs2) (ms1 ++ ms2)))],
         [(gae_advantages lambda (rs1 ++ rs2) (ms1 ++ ms2) (vs1 ++ vs2)).2]).
Proof.
  induction rs1 as [|r rs1 IH] using rev_ind;
    intros ms1 vs1 b0 a0 rs2 ms2 vs2 Hms Hvs Hb0 Ha0 Hrows Harows.
  - destruct ms1; [|done]. destruct vs1; [|done].
    destruct b0; [|done]. destruct a0; [|done]. done.
  - destruct (snoc_of_length ms1 rs1 r Hms) as (ms1' & m & -> & Hms').
    destruct (snoc_of_length vs1 rs1 r Hvs) as (vs1' & v & -> & Hvs').
    destruct (snoc_of_length b0 rs1 r Hb0) as (b0' & old & -> & Hb0').
    destruct (snoc_of_length a0 rs1 r Ha0) as (a0' & aold & -> & Ha0').
    apply Forall_app in Hrows as [Hrows Hold].
    rewrite Forall_singleton in Hold.
    apply Forall_app in Harows as [Harows Haold].
    rewrite Forall_singleton in Haold.
    rewrite length_app. simpl. rewrite Nat.add_1_r, reversed_range_S.
    rewrite fold_outcome_cons. rewrite <-!app_assoc. simpl.
    unfold AgentPPO.gae_loop at 1.
    rewrite !get_row_column by lia. simpl.
    rewrite set_row_middle by (done || lia). simpl.
    rewrite get_row_middle by lia. simpl.
    rewrite set_row_middle by (done || lia). simpl.
    rewrite get_row_middle by lia. simpl.
    specialize (IH ms1' vs1' b0' a0' (r :: rs2) (m :: ms2) (v :: vs2)
                  Hms' Hvs' Hb0' Ha0' Hrows Harows).
    simpl in IH.
    destruct (gae_advantages lambda rs2 ms2 vs2) as [advs pre_adv] eqn:Hg.
    simpl in *. exact IH.
Qed.

Lemma empty_like_column_length (E : externals) (l : list Qc) :
  length (AgentPPO.empty_like E (column_of l)) = length l.
Proof.
  unfold AgentPPO.empty_like, column_of. by rewrite length_imap, length_fmap.
Qed.

Lemma empty_like_column_rows (E : externals) (l : list Qc) :
  Forall (λ r : tensor, length r = 1%nat)
         (AgentPPO.empty_like E (column_of l)).
Proof.
  apply Forall_lookup. intros i row Hi.
  unfold AgentPPO.empty_like, column_of in Hi.
  rewrite list_lookup_imap, list_lookup_fmap in Hi.
  destruct (l !! i); simplify_eq/=. done.
Qed.

Lemma length_reward_to_go (rs ms : list Qc) :
  length ms = length rs → length (reward_to_go rs ms) = length rs.
Proof.
  revert ms. induction rs as [|r rs IH]; intros [|m ms] Hlen;
    simplify_eq/=; [done|]. by rewrite IH.
Qed.

Lemma broadcast2_columns (f : Qc → Qc → Qc) (xs ys : list Qc) :
  length xs = length ys →
  broadcast2 f (column_of xs) (column_of ys)
  = Return (column_of (zip_with f xs ys)).
Proof.
  intros Hlen. unfold broadcast2, column_of.
  rewrite decide_True by (by rewrite !length_fmap).
  revert ys Hlen. induction xs as [|x xs IH]; intros [|y ys] Hlen;
    simplify_eq/=; [done|].
  by rewrite IH.
Qed.

(** The loops of the two estimators on a trajectory of any length. *)
Lemma compute_reward_adv_pre_run (E : externals) (rs ms vs : list Qc) :
  length ms = length rs → length vs = length rs →
  AgentPPO.compute_reward_adv_pre E (length rs) (column_of rs) (column_of ms)
    (column_of vs)
  = Return (column_of (reward_to_go rs ms),
            column_of (zip_with Qcminus (reward_to_go rs ms)
                         (zip_with Qcmult ms vs))).
Proof.
  intros Hms Hvs. unfold AgentPPO.compute_reward_adv_pre.
  pose proof (reward_loop_run rs ms (AgentPPO.empty_like E (column_of rs))
                [] [] Hms (empty_like_column_length E rs)
                (empty_like_column_rows E rs)) as Hloop.
  rewrite !app_nil_r in Hloop.
  destruct rs as [|r rs].
  { destruct ms; [|done]. by destruct vs. }
  change (AgentPPO.zeros (AgentPPO.shape1 (column_of (r :: rs))))
    with [Q2Qc 0].
  remember (r :: rs) as l eqn:Hl in *. clear Hl.
  cbn [head default reward_to_go] in Hloop.
  rewrite Hloop. cbn -[reward_to_go column_of zip_with].
  unfold batch_mul, batch_sub.
  rewrite broadcast2_columns by lia. cbn -[reward_to_go column_of zip_with].
  rewrite broadcast2_columns; [done|].
  rewrite length_reward_to_go, length_zip_with by done. lia.
Qed.

Lemma compute_reward_gae_pre_run (E : externals) (lambda : Qc)
    (rs ms vs : list Qc) :
  length ms = length rs → length vs = length rs →
  AgentPPO.compute_reward_gae_pre E lambda (length rs) (column_of rs)
    (column_of ms) (column_of vs)
  = Return (column_of (reward_to_go rs ms),
            column_of (gae_advantages lambda rs ms vs).1).
Proof.
  intros Hms Hvs. unfold AgentPPO.compute_reward_gae_pre.
  pose proof (gae_loop_run lambda rs ms vs
                (AgentPPO.empty_like E (column_of rs))
                (AgentPPO.empty_like E (column_of rs)) [] [] []
                Hms Hvs (empty_like_column_length E rs)
                (empty_like_column_length E rs)
                (empty_like_column_rows E rs)
                (empty_like_column_rows E rs)) as Hloop.
  rewrite !app_nil_r in Hloop.
  destruct rs as [|r rs].
  { destruct ms; [|done]. by destruct vs. }
  change (AgentPPO.zeros (AgentPPO.shape1 (column_of (r :: rs))))
    with [Q2Qc 0].
  remember (r :: rs) as l eqn:Hl in *. clear Hl.
  cbn [head default gae_advantages reward_to_go fst snd] in Hloop.
  by rewrite Hloop.
Qed.

(** With [lambda = 1] the recursion of the generalised estimator is the
    reward-to-go less the value. *)
Lemma gae_advantages_lambda_1 (rs ms vs : list Qc) :
  length ms = length rs → length vs = length rs →
  gae_advantages 1 rs ms vs
  = (zip_with Qcminus (reward_to_go rs ms) vs,
     default 0 (head (reward_to_go rs ms))).
Proof.
  revert ms vs. induction rs as [|r rs IH]; intros [|m ms] [|v vs] Hms Hvs;
    simplify_eq/=; [done|].
  rewrite IH by done. simpl. f_equal. ring.
Qed.

(** X18.  [compute_reward_adv] on a trajectory of any length, given as
    tensors of shape [(L, 1)] with [buf_len = L]: the returns are the
    discounted reward-to-go [r_ret[i] = reward[i] + mask[i] * r_ret[i+1]]
    (0 after the last step), whatever [torch.empty] held, and the
    advantages are the standardised [r_ret - mask * value]. *)
Theorem compute_reward_adv_reward_to_go (E : externals) (rs ms vs : list Qc) :
  length ms = length rs → length vs = length rs →
  AgentPPO.compute_reward_adv E (length rs) (column_of rs) (column_of ms)
    (column_of vs)
  = (buf_adv ← AgentPPO.standardize E
       (column_of (zip_with Qcminus (reward_to_go rs ms)
                     (zip_with Qcmult ms vs)));
     mret (column_of (reward_to_go rs ms), buf_adv)).
Proof.
  intros Hms Hvs. unfold AgentPPO.compute_reward_adv.
  by rewrite compute_reward_adv_pre_run.
Qed.

(** X18 on the trajectory with rewards 1, 1, 1, masks 1, 1, 0 and values
    0.5, 0.5, 0.5. *)
Lemma compute_reward_adv_reward_to_go_witness :
  AgentPPO.compute_reward_adv (example_externals false) 3
    (column_of [1; 1; 1]) (column_of [1; 1; 0])
    (column_of [dec 0.5; dec 0.5; dec 0.5])
  = (buf_adv ← AgentPPO.standardize (example_externals false)
       (column_of (zip_with Qcminus (reward_to_go [1; 1; 1] [1; 1; 0])
                     (zip_with Qcmult [1; 1; 0]
                        [dec 0.5; dec 0.5; dec 0.5])));
     mret (column_of (reward_to_go [1; 1; 1] [1; 1; 0]), buf_adv)).
Proof.
  exact (compute_reward_adv_reward_to_go (example_externals false)
           [1; 1; 1] [1; 1; 0] [dec 0.5; dec 0.5; dec 0.5] eq_refl eq_refl).
Defined.

(** X19.  [compute_reward_gae] on a trajectory of any length, for every
    [lambda_gae_adv]: the returns are the reward-to-go, and the advantages
    are the standardised
    [adv[i] = reward[i] + mask[i] * pre_adv - value[i]] with
    [pre_adv = value[i+1] + adv[i+1] * lambda] (0 after the last step). *)
Theorem compute_reward_gae_recursion (E : externals) (lambda : Qc)
    (rs ms vs : list Qc) :
  length ms = length rs → length vs = length rs →
  AgentPPO.compute_reward_gae E lambda (length rs) (column_of rs)
    (column_of ms) (column_of vs)
  = (buf_adv ← AgentPPO.standardize E
       (column_of (gae_advantages lambda rs ms vs).1);
     mret (column_of (reward_to_go rs ms), buf_adv)).
Proof.
  intros Hms Hvs. unfold AgentPPO.compute_reward_gae.
  by rewrite compute_reward_gae_pre_run.
Qed.

(** X19 on the same trajectory, with [lambda = 0.5]. *)
Lemma compute_reward_gae_recursion_witness :
  AgentPPO.compute_reward_gae (example_externals false) (dec 0.5) 3
    (column_of [1; 1; 1]) (column_of [1; 1; 0])
    (column_of [dec 0.5; dec 0.5; dec 0.5])
  = (buf_adv ← AgentPPO.standardize (example_externals false)
       (column_of (gae_advantages (dec 0.5) [1; 1; 1] [1; 1; 0]
                     [dec 0.5; dec 0.5; dec 0.5]).1);
     mret (column_of (reward_to_go [1; 1; 1] [1; 1; 0]), buf_adv)).
Proof.
  exact (compute_reward_gae_recursion (example_externals false) (dec 0.5)
           [1; 1; 1] [1; 1; 0] [dec 0.5; dec 0.5; dec 0.5] eq_refl eq_refl).
Defined.

(** X20.  With [lambda_gae_adv = 1] the advantages of
    [compute_reward_gae] are, on every trajectory, the standardised
    [r_ret - value]: the reward-to-go less the value of the step.  (Those
    of [compute_reward_adv] are the standardised [r_ret - mask * value],
    so the two estimators agree wherever [mask * value] is the value.) *)
Theorem compute_reward_gae_lambda_1 (E : externals) (rs ms vs : list Qc) :
  length ms = length rs → length vs = length rs →
  AgentPPO.compute_reward_gae E 1 (length rs) (column_of rs)
    (column_of ms) (column_of vs)
  = (buf_adv ← AgentPPO.standardize E
       (column_of (zip_with Qcminus (reward_to_go rs ms) vs));
     mret (column_of (reward_to_go rs ms), buf_adv)).
Proof.
  intros Hms Hvs. unfold AgentPPO.compute_reward_gae.
  rewrite compute_reward_gae_pre_run by done.
  by rewrite gae_advantages_lambda_1.
Qed.

(** X20 on the same trajectory. *)
Lemma compute_reward_gae_lambda_1_witness :
  AgentPPO.compute_reward_gae (example_externals false) 1 3
    (column_of [1; 1; 1]) (column_of [1; 1; 0])
    (column_of [dec 0.5; dec 0.5; dec 0.5])
  = (buf_adv ← AgentPPO.standardize (example_externals false)
       (column_of (zip_with Qcminus (reward_to_go [1; 1; 1] [1; 1; 0])
                     [dec 0.5; dec 0.5; dec 0.5]));
     mret (column_of (reward_to_go [1; 1; 1] [1; 1; 0]), buf_adv)).
Proof.
  exact (compute_reward_gae_lambda_1 (example_externals false)
           [1; 1; 1] [1; 1; 0] [dec 0.5; dec 0.5; dec 0.5] eq_refl eq_refl).
Defined.

(** X21.  A [buf_len] larger than the number of rows of the buffers makes
    the first turn of either loop index past the end: both estimators
    raise [IndexError]. *)
Theorem compute_reward_buf_len_too_large (E : externals) (lambda : Qc)
    (buf_len : nat) (buf_reward buf_mask buf_value : batch) :
  (length buf_reward < buf_len)%nat →
  AgentPPO.compute_reward_adv E buf_len buf_reward buf_mask buf_value
    = Raise IndexError
  ∧ AgentPPO.compute_reward_gae E lambda buf_len buf_reward buf_mask buf_value
    = Raise IndexError.
Proof.
  intros Hlen. destruct buf_len as [|k]; [lia|].
  unfold AgentPPO.compute_reward_adv, AgentPPO.compute_reward_adv_pre,
    AgentPPO.compute_reward_gae, AgentPPO.compute_reward_gae_pre.
  rewrite reversed_range_S, !fold_outcome_cons.
  assert (Hrow : AgentPPO.get_row buf_reward k = Raise IndexError).
  { unfold AgentPPO.get_row. by rewrite lookup_ge_None_2 by lia. }
  assert (Hadv : ∀ st, AgentPPO.reward_loop buf_reward buf_mask k st
                       = Raise IndexError).
  { intros [b p]. unfold AgentPPO.reward_loop. by rewrite Hrow. }
  assert (Hgae : ∀ st, AgentPPO.gae_loop lambda buf_reward buf_mask
                         buf_value k st = Raise IndexError).
  { intros [[[b a] p] q]. unfold AgentPPO.gae_loop. by rewrite Hrow. }
  by rewrite Hadv, Hgae.
Qed.

(** X21 with three rows and [buf_len = 4]. *)
Lemma compute_reward_buf_len_too_large_witness :
  AgentPPO.compute_reward_adv (example_externals false) 4
    [[1]; [1]; [1]] [[1]; [1]; [0]] [[0]; [0]; [0]]
    = Raise IndexError
  ∧ AgentPPO.compute_reward_gae (example_externals false) 1 4
      [[1]; [1]; [1]] [[1]; [1]; [0]] [[0]; [0]; [0]]
    = Raise IndexError.
Proof.
  apply compute_reward_buf_len_too_large. simpl. lia.
Defined.

(** ** [AgentBase.explore_env] *)

Section explore_env.
Context {env : Type}.
Context (env_step : env → tensor → (tensor * Qc * bool) * env).
Context (env_reset : env → tensor * env).
Context (select_action : tensor → M world tensor).

Lemma explore_env_body_run (reward_scale gamma : Qc) (i : Z)
    (ro : rollout env) :
  (∀ s w, ∃ a, (select_action s w).1 = Return a) →
  ∃ ro' other,
    AgentBase.explore_env_body env_step env_reset select_action
      reward_scale gamma i ro = (Return (), ro')
    ∧ ro_buffer ro' = ro_buffer ro ++ [(ro_state ro, other)]
    ∧ stored_with gamma (ro_state ro, other).
Proof.
  intros Htotal. unfold AgentBase.explore_env_body.
  rewrite run_bind. unfold reads at 1. rewrite run_bind.
  unfold in_world at 1.
  destruct (Htotal (ro_state ro) (ro_world ro)) as [a Ha].
  destruct (select_action (ro_state ro) (ro_world ro)) as [r w'].
  simpl in Ha. subst r. rewrite run_bind. unfold reads at 1.
  cbn [ro_env].
  destruct (env_step (ro_env ro) a) as [[[next_s reward] done] e'].
  destruct done; cbn beta iota.
  - rewrite run_bind. unfold modify at 1. rewrite run_bind. unfold reads at 1.
    rewrite run_bind. unfold modify at 1. rewrite run_bind. unfold reads at 1.
    cbn [ro_env ro_state ro_buffer ro_world].
    destruct (env_reset e') as [s0 e'']. unfold modify.
    eexists _, _.
    split; [done|]. split; [done|]. eexists _, _, _. split; [done|]. by left.
  - rewrite run_bind. unfold modify at 1. rewrite run_bind. unfold reads at 1.
    rewrite run_bind. unfold modify.
    eexists _, _.
    split; [done|]. split; [done|]. eexists _, _, _. split; [done|]. by right.
Qed.

Lemma explore_env_loop_run (reward_scale gamma : Qc) (xs : list Z)
    (ro : rollout env) :
  (∀ s w, ∃ a, (select_action s w).1 = Return a) →
  ∃ ro' new,
    for_each xs (AgentBase.explore_env_body env_step env_reset select_action
                   reward_scale gamma) ro = (Return (), ro')
    ∧ ro_buffer ro' = ro_buffer ro ++ new
    ∧ length new = length xs
    ∧ Forall (stored_with gamma) new
    ∧ (∀ p, head new = Some p → p.1 = ro_state ro).
Proof.
  intros Htotal. revert ro. induction xs as [|x xs IH]; intros ro.
  - exists ro, []. rewrite app_nil_r. repeat split; done.
  - rewrite for_each_cons, run_bind.
    destruct (explore_env_body_run reward_scale gamma x ro Htotal)
      as (ro1 & other & -> & Hbuf1 & Hother).
    destruct (IH ro1) as (ro' & new & -> & Hbuf & Hlen & Hall & _).
    exists ro', ((ro_state ro, other) :: new).
    split; [done|]. split; [|split; [|split]].
    + rewrite Hbuf, Hbuf1, <-app_assoc. done.
    + simpl. by rewrite Hlen.
    + by constructor.
    + intros p Hp. simpl in Hp. by simplify_eq.
Qed.


End explore_env.


(** ** [AgentBase.__init__] and [update_record] *)

(** X23.  [AgentBase(args)] with a dictionary reads [args['learning_rate']]
    and then [args['soft_update_tau']], unchecked: a dictionary without
    the first key raises [KeyError] with nothing set, one without the
    second raises [KeyError] after [learning_rate] was set, and one with
    both gives an agent with these two values, whatever they are, and
    every network still [None]. *)
Theorem AgentBase_init_reads_args (d : gmap string value) (w : world) :
  let r := AgentBase.__init__ (Some d) w in
  match d !! "learning_rate", d !! "soft_update_tau" with
  | None, _ => r = (Raise KeyError, w)
  | Some lr, None =>
      r = (Raise KeyError, set_self (<["learning_rate" := lr]>) w)
  | Some lr, Some tau =>
      r.1 = Return ()
      ∧ w_self r.2 !! "learning_rate" = Some lr
      ∧ w_self r.2 !! "soft_update_tau" = Some tau
      ∧ w_self r.2 !! "act" = Some VNone
      ∧ w_self r.2 !! "cri" = Some VNone
      ∧ w_self r.2 !! "act_target" = Some VNone
      ∧ w_self r.2 !! "cri_target" = Some VNone
      ∧ w_self r.2 !! "train_record" = Some (VDict ∅)
      ∧ w_heap r.2 = w_heap w
  end.
Proof.
  intros r. unfold r. clear r.
  destruct (d !! "learning_rate") as [lr|] eqn:Hlr.
  - destruct (d !! "soft_update_tau") as [tau|] eqn:Htau.
    + pattern (AgentBase.__init__ (Some d) w).1,
        (AgentBase.__init__ (Some d) w).2.
      lazymatch goal with
      | |- ?Q _ _ => change (wp (AgentBase.__init__ (Some d)) Q w)
      end.
      unfold AgentBase.__init__, dict_item. rewrite Hlr, Htau.
      repeat wp_step. lookup_attr. split_and!; done.
    + unfold AgentBase.__init__, dict_item. by rewrite Hlr, Htau.
  - unfold AgentBase.__init__, dict_item. by rewrite Hlr.
Qed.

Lemma list_to_map_lookup_in (kwargs : list (string * Qc)) (k : string)
    (v : Qc) :
  NoDup kwargs.*1 → (k, v) ∈ kwargs →
  (list_to_map kwargs : gmap string Qc) !! k = Some v.
Proof. intros Hnd Hin. by apply elem_of_list_to_map. Qed.

(** X24.  [update_record], called with keyword arguments on an agent
    with a record, returns
    normally and merges the named metrics into it: every metric passed is
    afterwards in the record with its new value, every other entry of the
    record is kept, and nothing else of the agent changes. *)
Theorem update_record_merges (w : world) (d : gmap string Qc)
    (kwargs : list (string * Qc)) :
  w_self w !! "train_record" = Some (VDict d) →
  NoDup kwargs.*1 →
  let r := AgentBase.update_record kwargs w in
  r.1 = Return ()
  ∧ ∃ d',
      w_self r.2 !! "train_record" = Some (VDict d')
      ∧ (∀ k v, (k, v) ∈ kwargs → d' !! k = Some v)
      ∧ (∀ k, k ∉ kwargs.*1 → d' !! k = d !! k)
      ∧ (∀ name, name ≠ "train_record" →
                 w_self r.2 !! name = w_self w !! name)
      ∧ w_heap r.2 = w_heap w.
Proof.
  intros Hrec Hnd r. unfold r, AgentBase.update_record.
  rewrite run_bind. unfold getattr. rewrite Hrec. cbn.
  split; [done|]. eexists. split; [apply lookup_insert_eq|].
  split; [|split; [|split; [|done]]].
  - intros k v Hin. apply lookup_union_Some_l.
    by apply elem_of_list_to_map.
  - intros k Hk. rewrite lookup_union_r; [done|].
    by apply not_elem_of_list_to_map_1.
  - intros name Hname. by rewrite lookup_insert_ne.
Qed.

(** X24 on a record that holds [obj_a] and [step]: [obj_a] is replaced,
    [obj_c] is added and [step] is kept. *)
Lemma update_record_merges_witness :
  let w := World (<["train_record" :=
                      VDict (<["obj_a" := 1]> (<["step" := 2]> ∅))]> ∅)
                 ∅ ∅ 0 [] in
  let kwargs := [("obj_a"%string, dec 0.5); ("obj_c"%string, dec 0.25)] in
  let r := AgentBase.update_record kwargs w in
  r.1 = Return ()
  ∧ ∃ d',
      w_self r.2 !! "train_record" = Some (VDict d')
      ∧ (∀ k v, (k, v) ∈ kwargs → d' !! k = Some v)
      ∧ (∀ k, k ∉ kwargs.*1 →
              d' !! k = (<["obj_a" := 1]> (<["step" := 2]> ∅)
                         : gmap string Qc) !! k)
      ∧ (∀ name, name ≠ "train_record" →
                 w_self r.2 !! name = w_self w !! name)
      ∧ w_heap r.2 = w_heap w.
Proof.
  apply update_record_merges; [reflexivity|compute_done].
Defined.

(** ** The standardisation of the advantages *)

Lemma column_0_column_of (l : list Qc) :
  AgentPPO.column 0 (column_of l) = l.
Proof.
  unfold AgentPPO.column, column_of. rewrite <-list_fmap_compose.
  trans (id <$> l); [by apply list_fmap_ext|apply list_fmap_id].
Qed.

Lemma mean_dim0_column (x : Qc) (xs : list Qc) :
  AgentPPO.mean_dim0 (column_of (x :: xs)) = [mean_list (x :: xs)].
Proof.
  unfold AgentPPO.mean_dim0.
  change (AgentPPO.shape1 (column_of (x :: xs))) with 1%nat.
  cbn [seq fmap list_fmap]. by rewrite column_0_column_of.
Qed.

Lemma std_dim0_column (E : externals) (x : Qc) (xs : list Qc) :
  AgentPPO.std_dim0 E (column_of (x :: xs)) = [AgentPPO.std_list E (x :: xs)].
Proof.
  unfold AgentPPO.std_dim0.
  change (AgentPPO.shape1 (column_of (x :: xs))) with 1%nat.
  cbn [seq fmap list_fmap]. by rewrite column_0_column_of.
Qed.

(** A column against a one-by-one tensor: the single entry is stretched. *)
Lemma mapM_broadcast_column (f : Qc → Qc → Qc) (l : list Qc) (c : Qc) :
  mapM (λ ra, broadcast f ra [c]) (column_of l)
  = Return (column_of ((λ x, f x c) <$> l)).
Proof.
  induction l as [|a l IH]; [done|].
  unfold column_of in *. cbn [fmap list_fmap mapM]. rewrite IH.
  unfold broadcast at 1. by rewrite decide_True.
Qed.

Lemma broadcast2_column_scalar (f : Qc → Qc → Qc) (xs : list Qc) (c : Qc) :
  xs ≠ [] →
  broadcast2 f (column_of xs) [[c]] = Return (column_of ((λ x, f x c) <$> xs)).
Proof.
  intros Hne. unfold broadcast2.
  destruct xs as [|x [|y ys]]; [done| |].
  { unfold column_of. rewrite decide_True by done. cbn.
    unfold broadcast. by rewrite decide_True. }
  rewrite decide_False by (unfold column_of; simpl; lia).
  apply (mapM_broadcast_column f (x :: y :: ys) c).
Qed.

Lemma standardize_column_run (E : externals) (xs : list Qc) :
  xs ≠ [] →
  AgentPPO.standardize E (column_of xs)
  = Return (column_of
      ((λ x, (x - mean_list xs) / (AgentPPO.std_list E xs + dec 1e-5))
       <$> xs)).
Proof.
  intros Hne. unfold AgentPPO.standardize.
  destruct xs as [|x xs]; [done|].
  rewrite mean_dim0_column, std_dim0_column.
  rewrite broadcast2_column_scalar by done. cbn [mbind].
  change ((λ s, s + dec 1e-5) <$> [AgentPPO.std_list E (x :: xs)])
    with [AgentPPO.std_list E (x :: xs) + dec 1e-5].
  remember (x :: xs) as l eqn:Hl.
  assert (Hne' : (λ y, y - mean_list l) <$> l ≠ []) by (by subst l).
  cbn [outcome_bind].
  rewrite broadcast2_column_scalar by done.
  by rewrite <-list_fmap_compose.
Qed.

Lemma Qc_of_nat_S (n : nat) : Qc_of_nat (S n) = Qc_of_nat n + 1.
Proof.
  unfold Qc_of_nat. by rewrite Nat2Z.inj_succ, <-Z.add_1_r, Z2Qc_inj_add.
Qed.

Lemma Qc_of_nat_positive (n : nat) : 0 < Qc_of_nat (S n).
Proof.
  unfold Qc_of_nat. rewrite <-Z2Qc_inj_0.
  apply (proj1 (Z2Qc_inj_lt 0 (Z.of_nat (S n)))). lia.
Qed.

Lemma sum_list_centred (m d : Qc) (l : list Qc) :
  sum_list ((λ x, (x - m) / d) <$> l)
  = (sum_list l - Qc_of_nat (length l) * m) / d.
Proof.
  induction l as [|x l IH].
  - cbn [fmap list_fmap sum_list foldr length]. unfold Qc_of_nat.
    change (Z.of_nat 0) with 0%Z. rewrite Z2Qc_inj_0. unfold Qcdiv. ring.
  - cbn [fmap list_fmap sum_list foldr length]. fold (sum_list l).
    fold (sum_list ((λ x, (x - m) / d) <$> l)).
    rewrite IH, Qc_of_nat_S. unfold Qcdiv. ring.
Qed.

(** Standardised numbers have mean zero. *)
Lemma standardized_mean_zero (d : Qc) (l : list Qc) :
  l ≠ [] →
  mean_list ((λ x, (x - mean_list l) / d) <$> l) = 0.
Proof.
  intros Hne. unfold mean_list at 1. rewrite sum_list_centred.
  destruct l as [|x l]; [done|].
  assert (Hn : Qc_of_nat (length (x :: l)) ≠ 0).
  { cbn [length]. intros H0. pose proof (Qc_of_nat_positive (length l)) as Hp.
    rewrite H0 in Hp. by apply Qclt_not_eq in Hp. }
  unfold mean_list. rewrite length_fmap.
  replace (sum_list (x :: l)
           - Qc_of_nat (length (x :: l))
             * (sum_list (x :: l) / Qc_of_nat (length (x :: l))))
    with 0 by (field; exact Hn).
  unfold Qcdiv. ring.
Qed.

Lemma length_gae_advantages (lambda : Qc) (rs ms vs : list Qc) :
  length ms = length rs → length vs = length rs →
  length (gae_advantages lambda rs ms vs).1 = length rs.
Proof.
  revert ms vs. induction rs as [|r rs IH]; intros [|m ms] [|v vs] Hms Hvs;
    simplify_eq/=; [done|].
  specialize (IH ms vs Hms Hvs).
  destruct (gae_advantages lambda rs ms vs). simpl in *. by rewrite IH.
Qed.

(** X25.  On a trajectory of at least two steps, given as tensors of shape
    [(L, 1)], [compute_reward_adv] and [compute_reward_gae] (for every
    [lambda_gae_adv]) both return; both return the reward-to-go, and
    advantages of shape [(L, 1)] whose mean is zero (in exact
    arithmetic). *)
Theorem advantages_are_centred (E : externals) (lambda : Qc)
    (rs ms vs : list Qc) :
  (2 ≤ length rs)%nat →
  length ms = length rs → length vs = length rs →
  ∃ adv gae,
    AgentPPO.compute_reward_adv E (length rs) (column_of rs) (column_of ms)
      (column_of vs)
    = Return (column_of (reward_to_go rs ms), column_of adv)
    ∧ AgentPPO.compute_reward_gae E lambda (length rs) (column_of rs)
        (column_of ms) (column_of vs)
      = Return (column_of (reward_to_go rs ms), column_of gae)
    ∧ length adv = length rs ∧ length gae = length rs
    ∧ mean_list adv = 0 ∧ mean_list gae = 0.
Proof.
  intros Hlen Hms Hvs.
  unfold AgentPPO.compute_reward_adv, AgentPPO.compute_reward_gae.
  rewrite compute_reward_adv_pre_run, compute_reward_gae_pre_run by done.
  cbn [mbind outcome_bind].
  set (raw := zip_with Qcminus (reward_to_go rs ms) (zip_with Qcmult ms vs)).
  set (graw := (gae_advantages lambda rs ms vs).1).
  assert (Hraw : length raw = length rs).
  { unfold raw. rewrite length_zip_with, length_reward_to_go,
      length_zip_with by done. lia. }
  assert (Hgraw : length graw = length rs)
    by (by apply length_gae_advantages).
  assert (Hne : raw ≠ []) by (intros H0; rewrite H0 in Hraw; simpl in *; lia).
  assert (Hgne : graw ≠ [])
    by (intros H0; rewrite H0 in Hgraw; simpl in *; lia).
  rewrite !standardize_column_run by done. cbn [outcome_bind].
  eexists _, _. split; [reflexivity|]. split; [reflexivity|].
  rewrite !length_fmap. split; [done|]. split; [done|].
  split; by apply standardized_mean_zero.
Qed.

(** X25 on the trajectory with rewards 1, 1, 1, masks 1, 1, 0 and values
    0.5, 0.5, 0.5, with [lambda = 0.5]. *)
Lemma advantages_are_centred_witness :
  let rs := [1; 1; 1] in
  let ms := [1; 1; 0] in
  let vs := [dec 0.5; dec 0.5; dec 0.5] in
  ∃ adv gae,
    AgentPPO.compute_reward_adv (example_externals false) (length rs)
      (column_of rs) (column_of ms) (column_of vs)
    = Return (column_of (reward_to_go rs ms), column_of adv)
    ∧ AgentPPO.compute_reward_gae (example_externals false) (dec 0.5)
        (length rs) (column_of rs) (column_of ms) (column_of vs)
      = Return (column_of (reward_to_go rs ms), column_of gae)
    ∧ length adv = length rs ∧ length gae = length rs
    ∧ mean_list adv = 0 ∧ mean_list gae = 0.
Proof.
  apply (advantages_are_centred (example_externals false) (dec 0.5)
           [1; 1; 1] [1; 1; 0] [dec 0.5; dec 0.5; dec 0.5]);
    [simpl; lia|reflexivity|reflexivity].
Defined.

(** ** [OrnsteinUhlenbeckNoise.__call__] *)

Lemma broadcast_length (f : Qc → Qc → Qc) (a b : tensor) (n : nat) :
  length b = n → (length a = n ∨ length a = 1%nat) →
  ∃ c, broadcast f a b = Return c ∧ length c = n.
Proof.
  intros Hb Ha. unfold broadcast.
  destruct (decide (length a = length b)) as [Heq|Hne].
  - eexists. split; [done|]. rewrite length_zip_with. lia.
  - destruct Ha as [Ha|Ha]; [lia|].
    destruct a as [|x [|y a]]; simplify_eq/=.
    eexists. split; [done|]. by rewrite length_fmap.
Qed.

(** X26.  A call of the noise process whose state is the initial scalar or
    has [size] components, with [size] normal numbers from the generator,
    returns [size] components and stores what it returns, with the
    parameters of the process unchanged: the next call is again in this
    case.  When the state has [size] components the new noise is, by
    component, [(1 - theta * dt) * x - sigma * sqrt(dt) * z]. *)
Theorem OU_noise_call_keeps_size (E : externals) (o : OrnsteinUhlenbeckNoise)
    (seed : nat) :
  length (rd_normal E seed (ou_size o)) = ou_size o →
  length (ou_noise o) = ou_size o ∨ length (ou_noise o) = 1%nat →
  ∃ new,
    OrnsteinUhlenbeckNoise_call E o seed
    = Return (new, OUNoise (ou_size o) (ou_theta o) (ou_sigma o) new
                           (ou_dt o))
    ∧ length new = ou_size o
    ∧ (length (ou_noise o) = ou_size o →
       new = zip_with (λ x z, (1 - ou_theta o * ou_dt o) * x
                              - ou_sigma o * np_sqrt E (ou_dt o) * z)
                      (ou_noise o) (rd_normal E seed (ou_size o))).
Proof.
  intros Hz Hx. unfold OrnsteinUhlenbeckNoise_call.
  set (noise := (λ z, _) <$> rd_normal E seed (ou_size o)).
  set (drift := (λ x, _) <$> ou_noise o).
  assert (Hnoise : length noise = ou_size o)
    by (unfold noise; by rewrite length_fmap).
  assert (Hdrift : length drift = length (ou_noise o))
    by (unfold drift; by rewrite length_fmap).
  destruct (broadcast_length Qcplus drift noise (ou_size o) Hnoise)
    as (step & Hstep & Hlstep); [by rewrite Hdrift|].
  destruct (broadcast_length Qcminus (ou_noise o) step (ou_size o) Hlstep Hx)
    as (new & Hnew & Hlnew).
  unfold tensor_add, tensor_sub. rewrite Hstep. cbn [mbind outcome_bind].
  rewrite Hnew. cbn [mbind outcome_bind mret outcome_ret].
  exists new. split; [done|]. split; [done|].
  intros Heq. unfold broadcast in Hstep, Hnew.
  rewrite decide_True in Hstep by lia. simplify_eq.
  rewrite decide_True in Hnew by (rewrite length_zip_with; lia).
  simplify_eq. unfold drift, noise.
  rewrite zip_with_fmap_l, zip_with_fmap_r.
  generalize (rd_normal E seed (ou_size o)). generalize (ou_noise o).
  induction l as [|x l IH]; intros [|z zs]; simpl; try done.
  f_equal; [ring|apply IH].
Qed.

(** X26 on the process that [AgentDDPG.init] builds for two actions, at its
    first call. *)
Lemma OU_noise_call_keeps_size_witness :
  let o := OrnsteinUhlenbeckNoise_new 2 (dec 0.3) in
  ∃ new,
    OrnsteinUhlenbeckNoise_call (example_externals false) o 0
    = Return (new, OUNoise (ou_size o) (ou_theta o) (ou_sigma o) new
                           (ou_dt o))
    ∧ length new = ou_size o
    ∧ (length (ou_noise o) = ou_size o →
       new = zip_with (λ x z, (1 - ou_theta o * ou_dt o) * x
                              - ou_sigma o
                                * np_sqrt (example_externals false) (ou_dt o)
                                * z)
                      (ou_noise o)
                      (rd_normal (example_externals false) 0 (ou_size o))).
Proof.
  apply (OU_noise_call_keeps_size (example_externals false)
           (OrnsteinUhlenbeckNoise_new 2 (dec 0.3)) 0%nat);
    [reflexivity|right; reflexivity].
Defined.

(** ** The wrong kind of buffer *)

Lemma wp_run_eq {S A} (c : M S A) (s : S) (x : outcome A * S) :
  wp c (λ r s', (r, s') = x) s → c s = x.
Proof. unfold wp. by destruct (c s). Qed.

(** After the dispatch on [self.get_obj_critic]: sample, then unpack. *)
Ltac wrong_arity Hlen :=
  repeat wp_step; cbn [w_rng set_rng];
  match goal with
  | |- context [sample_batch ?E ?s ?b] =>
      destruct (sample_batch E s b) as [|? [|? [|? [|? [|? [|? [|? ?]]]]]]]
  end; simpl in Hlen; try lia; by repeat wp_step.

(** X27.  An agent set up without prioritised replay unpacks five tensors
    from [buffer.sample_batch], one set up with it unpacks six.  When the
    buffer hands out a tuple of another length, the objective of
    [AgentDoubleDQN] (and [AgentD3QN]), of [AgentDDPG] and of [AgentTD3]
    raises [ValueError] right after sampling, with nothing of the agent
    changed. *)
Theorem objective_wrong_buffer (E : externals) (w : world) (batch_size : Z)
    (per : bool) :
  w_self w !! "get_obj_critic"
    = Some (VMethod (if per then "get_obj_critic_per"
                     else "get_obj_critic_raw")) →
  length (sample_batch E (w_rng w) batch_size)
    ≠ (if per then 6%nat else 5%nat) →
  AgentDoubleDQN.get_obj_critic E batch_size w
    = (Raise ValueError, set_rng S w)
  ∧ AgentDDPG.get_obj_critic E batch_size w
    = (Raise ValueError, set_rng S w)
  ∧ AgentTD3.get_obj_critic E batch_size w
    = (Raise ValueError, set_rng S w).
Proof.
  intros Hm Hlen. split_and!; apply wp_run_eq; apply wp_bind, wp_getattr;
    rewrite Hm; destruct per; cbn beta iota.
  - unfold AgentDoubleDQN.get_obj_critic_per. wrong_arity Hlen.
  - unfold AgentDoubleDQN.get_obj_critic_raw. wrong_arity Hlen.
  - unfold AgentDDPG.get_obj_critic_per. wrong_arity Hlen.
  - unfold AgentDDPG.get_obj_critic_raw. wrong_arity Hlen.
  - unfold AgentTD3.get_obj_critic_per. wrong_arity Hlen.
  - unfold AgentTD3.get_obj_critic_raw. wrong_arity Hlen.
Qed.

(** X27 on the TD3 example agent, set up without prioritised replay, with
    a prioritised buffer. *)
Lemma objective_wrong_buffer_witness :
  AgentDoubleDQN.get_obj_critic (example_externals true) 1 example_td3_world
    = (Raise ValueError, set_rng S example_td3_world)
  ∧ AgentDDPG.get_obj_critic (example_externals true) 1 example_td3_world
    = (Raise ValueError, set_rng S example_td3_world)
  ∧ AgentTD3.get_obj_critic (example_externals true) 1 example_td3_world
    = (Raise ValueError, set_rng S example_td3_world).
Proof.
  apply (objective_wrong_buffer (example_externals true) example_td3_world
           1 false); [reflexivity|compute_done].
Defined.

(** ** [gaussian_kl] in one dimension *)

Lemma matmul_1x1 (x y : Qc) : matmul [[x]] [[y]] = Return [[x * y]].
Proof.
  unfold matmul. rewrite bool_decide_true by (by repeat constructor).
  cbn. unfold dot, mcol. cbn.
  by replace (x * y + Q2Qc 0) with (x * y) by ring.
Qed.

Lemma det_1x1 (s : Qc) : det [[s]] = Return s.
Proof.
  unfold det, is_square. rewrite bool_decide_true by (by repeat constructor).
  cbn. f_equal. ring.
Qed.

Lemma inverse_1x1 (s : Qc) : s ≠ 0 → inverse [[s]] = Return [[1 / s]].
Proof.
  intros Hs. unfold inverse, is_square.
  rewrite bool_decide_true by (by repeat constructor).
  cbn [length det_rec imap sum_list foldr Nat.even fmap list_fmap].
  replace (s * 1 + 0) with s by ring.
  rewrite decide_False by done.
  cbn. unfold cofactor. cbn.
  by replace (1 * 1 / s) with (1 / s) by (unfold Qcdiv; ring).
Qed.

Lemma inverse_1x1_singular : inverse [[0]] = Raise RuntimeError.
Proof. reflexivity. Qed.

Lemma Qcmult_nonzero (x y : Qc) : x ≠ 0 → y ≠ 0 → x * y ≠ 0.
Proof.
  intros Hx Hy Hxy. apply Qcmult_integral in Hxy. tauto.
Qed.

Lemma batch_sub_1x1 (x y : Qc) : batch_sub [[x]] [[y]] = Return [[x - y]].
Proof.
  unfold batch_sub, broadcast2. rewrite decide_True by done. cbn.
  unfold broadcast. by rewrite decide_True by done.
Qed.

Lemma tensor_div_1 (x y : Qc) : tensor_div [x] [y] = Return [x / y].
Proof. unfold tensor_div, broadcast. by rewrite decide_True by done. Qed.

Lemma tensor_add_1 (x y : Qc) : tensor_add [x] [y] = Return [x + y].
Proof. unfold tensor_add, broadcast. by rewrite decide_True by done. Qed.

Lemma transpose_1x1 (x : Qc) : transpose [[x]] = [[x]].
Proof. reflexivity. Qed.

Ltac kl_step :=
  cbn [mbind outcome_bind mret outcome_ret mapM fmap list_fmap length zip
       zip_with fst snd];
  rewrite ?decide_True by done;
  rewrite ?transpose_1x1;
  rewrite ?matmul_1x1, ?det_1x1, ?batch_sub_1x1, ?tensor_div_1,
    ?tensor_add_1;
  rewrite ?inverse_1x1 by done.

Lemma gaussian_kl_1d_run (E : externals) (m_i m a_i a : Qc) :
  a_i ≠ 0 → a ≠ 0 →
  gaussian_kl E [[m_i]] [[m]] [[[a_i]]] [[[a]]]
  = Return (dec 0.5 * ((m - m_i) * (m - m_i) / (a_i * a_i)),
            dec 0.5 * (torch_log E ((1 / (a * a)) / (1 / (a_i * a_i))) - 1
                       + (1 / (a_i * a_i)) * (1 / (a * a)))).
Proof.
  intros Hi Ha. unfold gaussian_kl.
  assert (Hsi : a_i * a_i ≠ 0) by (by apply Qcmult_nonzero).
  assert (Hs : a * a ≠ 0) by (by apply Qcmult_nonzero).
  unfold bzip, bt, unsqueeze_last.
  do 12 kl_step.
  change (size_last [[[a]]]) with 1%nat.
  unfold Qc_of_nat. change (Z.of_nat 1) with 1%Z. rewrite Z2Qc_inj_1.
  unfold btr, trace_of, squeeze.
  cbn [fmap list_fmap imap sum_list foldr concat app lookup_total
       list_lookup_total].
  kl_step. rewrite !mean_list_singleton.
  cbn [mbind outcome_bind mret outcome_ret]. rewrite mean_list_singleton.
  f_equal. f_equal.
  - f_equal. unfold Qcdiv. ring.
  - f_equal. ring.
Qed.


Lemma kl_closed_form_1d_run (E : externals) (m_i m a_i a : Qc) :
  a_i ≠ 0 → a ≠ 0 →
  kl_closed_form E [[m_i]] [[m]] [[[a_i]]] [[[a]]]
  = Return (dec 0.5 * ((m - m_i) * (m - m_i) / (a_i * a_i)),
            dec 0.5 * (torch_log E ((a * a) / (a_i * a_i)) - 1
                       + (a_i * a_i) / (a * a))).
Proof.
  intros Hi Ha. unfold kl_closed_form, kl_mean_inner, kl_cov_inner.
  assert (Hsi : a_i * a_i ≠ 0) by (by apply Qcmult_nonzero).
  assert (Hs : a * a ≠ 0) by (by apply Qcmult_nonzero).
  do 12 kl_step.
  unfold dot, trace_of.
  cbn [fmap list_fmap imap sum_list foldr zip_with lookup_total
       list_lookup_total length].
  unfold Qc_of_nat. change (Z.of_nat 1) with 1%Z. rewrite Z2Qc_inj_1.
  rewrite !mean_list_singleton.
  f_equal. f_equal.
  - f_equal. unfold dot. cbn [zip_with sum_list foldr]. unfold Qcdiv. ring.
  - f_equal. field. done.
Qed.

(** X28.  [gaussian_kl] on one pair of one-dimensional Gaussians with
    standard deviations [a_i] and [a], both non-zero.  The mean term is
    [(mu - mu_i)^2 / (2 a_i^2)], as the closed form of the docstring has
    it.  The covariance term is
    [(log(a_i^2 / a^2) - 1 + 1 / (a_i^2 a^2)) / 2], where the closed form
    [KL(N(mu_i, a_i^2) || N(mu_i, a^2))] is
    [(log(a^2 / a_i^2) - 1 + a_i^2 / a^2) / 2]: the code takes the
    determinants and the trace of the inverse covariances. *)
Theorem gaussian_kl_one_dimension (E : externals) (m_i m a_i a : Qc) :
  a_i ≠ 0 → a ≠ 0 →
  gaussian_kl E [[m_i]] [[m]] [[[a_i]]] [[[a]]]
  = Return (dec 0.5 * ((m - m_i) * (m - m_i) / (a_i * a_i)),
            dec 0.5 * (torch_log E ((a_i * a_i) / (a * a)) - 1
                       + 1 / (a_i * a_i * (a * a))))
  ∧ kl_closed_form E [[m_i]] [[m]] [[[a_i]]] [[[a]]]
    = Return (dec 0.5 * ((m - m_i) * (m - m_i) / (a_i * a_i)),
              dec 0.5 * (torch_log E ((a * a) / (a_i * a_i)) - 1
                         + (a_i * a_i) / (a * a))).
Proof.
  intros Hi Ha.
  assert (Hsi : a_i * a_i ≠ 0) by (by apply Qcmult_nonzero).
  assert (Hs : a * a ≠ 0) by (by apply Qcmult_nonzero).
  split; [|by apply kl_closed_form_1d_run].
  rewrite gaussian_kl_1d_run by done.
  replace (1 / (a * a) / (1 / (a_i * a_i))) with (a_i * a_i / (a * a))
    by (by field).
  replace (1 / (a_i * a_i) * (1 / (a * a))) with (1 / (a_i * a_i * (a * a)))
    by (by field).
  done.
Qed.

(** X28 with means 0 and 1 and standard deviations 2 and 3. *)
Lemma gaussian_kl_one_dimension_witness :
  let E := example_externals false in
  gaussian_kl E [[0]] [[1]] [[[2]]] [[[dec 3]]]
  = Return (dec 0.5 * ((1 - 0) * (1 - 0) / (2 * 2)),
            dec 0.5 * (torch_log E ((2 * 2) / (dec 3 * dec 3)) - 1
                       + 1 / (2 * 2 * (dec 3 * dec 3))))
  ∧ kl_closed_form E [[0]] [[1]] [[[2]]] [[[dec 3]]]
    = Return (dec 0.5 * ((1 - 0) * (1 - 0) / (2 * 2)),
              dec 0.5 * (torch_log E ((dec 3 * dec 3) / (2 * 2)) - 1
                         + (2 * 2) / (dec 3 * dec 3))).
Proof.
  apply (gaussian_kl_one_dimension (example_externals false) 0 1 2 (dec 3));
    compute_done.
Defined.

(** X29.  A singular covariance factor is fatal: in one dimension, with
    [A_i = 0] or [A = 0], the matrix inverse raises and [gaussian_kl]
    raises [RuntimeError] for all means. *)
Theorem gaussian_kl_singular (E : externals) (m_i m a_i a : Qc) :
  a_i = 0 ∨ a = 0 →
  gaussian_kl E [[m_i]] [[m]] [[[a_i]]] [[[a]]] = Raise RuntimeError.
Proof.
  intros Hsing. unfold gaussian_kl, bzip, bt.
  do 3 kl_step.
  destruct (decide (a_i = 0)) as [->|Hi].
  - replace (0 * 0) with 0 by ring. rewrite inverse_1x1_singular.
    reflexivity.
  - destruct Hsing as [?| ->]; [done|].
    rewrite (inverse_1x1 (a_i * a_i)) by (by apply Qcmult_nonzero).
    kl_step. replace (0 * 0) with 0 by ring.
    rewrite inverse_1x1_singular. reflexivity.
Qed.

(** X29 with [A = 0]. *)
Lemma gaussian_kl_singular_witness :
  gaussian_kl (example_externals false) [[0]] [[1]] [[[2]]] [[[0]]]
  = Raise RuntimeError.
Proof.
  apply gaussian_kl_singular. by right.
Defined.
